(** * Life-dashboard: the session-backed identity and guild cache

    A shallow embedding of [Dashboard.get_token], [fetch_user], [get_user],
    [fetch_user_guilds], [get_user_guilds] and [get_related_guilds] from
    [dashboard/core/app.py], and the properties of the cache that the
    specification states about them.

    The Python code is asynchronous but strictly sequential inside one
    request, so it is embedded in a state-and-exception monad.  The state is
    the session mapping together with the chronological trace of everything
    the request did to the outside world (clock readings, HTTP calls, IPC
    calls, session writes).  The outside world is an oracle whose answers
    may depend on that trace. *)

From Stdlib Require Import ZArith Ascii String List Lia.
From stdpp Require Import base option list gmap strings.

Local Set Warnings "-register-all".
Local Open Scope Z_scope.
Local Open Scope string_scope.
Local Open Scope list_scope.

(** ** Python values *)

(** What the session and the remote services exchange is JSON.  Clock
    readings ([time.time()]) and numbers are integers here (ticks). *)
Inductive json : Type :=
| JNull
| JBool (b : bool)
| JNum (n : Z)
| JStr (s : string)
| JList (l : list json)
| JObj (kvs : list (string * json)).

(** Python truthiness: [None], [False], [0], [""], [[]] and [{}] are false. *)
Definition truthy (j : json) : bool :=
  match j with
  | JNull => false
  | JBool b => b
  | JNum n => negb (Z.eqb n 0)
  | JStr s => negb (String.eqb s "")
  | JList l => match l with [] => false | _ => true end
  | JObj kvs => match kvs with [] => false | _ => true end
  end.

(** Why [await response.json()] raises when it does: the content type of
    the response is not JSON (aiohttp's [ContentTypeError]), or its text
    does not parse ([json.JSONDecodeError]).  A connection that breaks
    while the body is read is not modelled. *)
Inductive undecodable : Type :=
| NotJsonContent
| MalformedJson.

(** An aiohttp client response, as far as the code looks at it: the status
    and what [response.json()] does with it.  [body] is the value it returns
    ([Some JNull] for an empty text, which decodes to [None]); when it raises
    [body] is [None] and [unreadable] tells why ([unreadable] means nothing
    when there is a body). *)
Record Response : Type := mkResponse {
  status : Z;
  body : option json;
  unreadable : undecodable
}.

Inductive exn : Type :=
| HTTPException (response : Response) (message : json)
| KeyError (key : string)
| TypeError
| AttributeError
| ValueError
| ContentTypeError
| JSONDecodeError.

(** The exception [response.json()] raises for a response without a body. *)
Definition json_error (r : Response) : exn :=
  match unreadable r with
  | NotJsonContent => ContentTypeError
  | MalformedJson => JSONDecodeError
  end.

Fixpoint assoc_get {V : Type} (kvs : list (string * V)) (k : string) : option V :=
  match kvs with
  | [] => None
  | (k', v) :: rest => if String.eqb k k' then Some v else assoc_get rest k
  end.

Fixpoint assoc_set {V : Type} (kvs : list (string * V)) (k : string) (v : V)
  : list (string * V) :=
  match kvs with
  | [] => [(k, v)]
  | (k', v') :: rest =>
      if String.eqb k k' then (k', v) :: rest else (k', v') :: assoc_set rest k v
  end.

(** [d.get(k)]: [None] for a missing key; only mappings have [.get]. *)
Definition dict_get (d : json) (k : string) : exn + json :=
  match d with
  | JObj kvs => inr (default JNull (assoc_get kvs k))
  | _ => inl AttributeError
  end.

(** [d[k]] with a string key. *)
Definition getitem (d : json) (k : string) : exn + json :=
  match d with
  | JObj kvs => match assoc_get kvs k with Some v => inr v | None => inl (KeyError k) end
  | _ => inl TypeError
  end.

(** [d[k] = v] with a string key. *)
Definition setitem (d : json) (k : string) (v : json) : exn + json :=
  match d with
  | JObj kvs => inr (JObj (assoc_set kvs k v))
  | _ => inl TypeError
  end.

Fixpoint chars (s : string) : list json :=
  match s with
  | EmptyString => []
  | String c rest => JStr (String c EmptyString) :: chars rest
  end.

(** [for x in j]: a list yields its items, a mapping its keys, a string its
    characters; nothing else is iterable. *)
Definition py_iter (j : json) : exn + list json :=
  match j with
  | JList l => inr l
  | JObj kvs => inr (map (fun kv => JStr (fst kv)) kvs)
  | JStr s => inr (chars s)
  | _ => inl TypeError
  end.

(** A Python [dict] with integer keys: insertion-ordered, an assignment to a
    key that is already there replaces the value where it stands. *)
Fixpoint pydict_set {V : Type} (d : list (Z * V)) (k : Z) (v : V) : list (Z * V) :=
  match d with
  | [] => [(k, v)]
  | (k', v') :: rest =>
      if Z.eqb k k' then (k', v) :: rest else (k', v') :: pydict_set rest k v
  end.

Definition values {V : Type} (d : list (Z * V)) : list V := map snd d.
Definition keys {V : Type} (d : list (Z * V)) : list Z := map fst d.

(** ** The missing modules, as interfaces *)

(** [utilities/objects] ([Token], [User], [Guild]) is not part of the
    sources at hand: the classes are taken as an interface.  A constructor
    may raise (a malformed record); [is_expired()] is a function of the
    object and of the clock reading it takes; an object is truthy. *)
Class Objects : Type := {
  Token : Type;
  Token_new : json -> exn + Token;
  Token_is_expired : Token -> Z -> bool;
  Token_access_token : Token -> json;
  Token_refresh_token : Token -> json;
  User : Type;
  User_new : json -> exn + User;
  User_is_expired : User -> Z -> bool;
  Guild : Type;
  Guild_new : json -> exn + Guild;
  Guild_is_expired : Guild -> Z -> bool;
  Guild_id : Guild -> Z;
  Guild_to_dict : Guild -> json
}.

(** The builtin [int(x)]. *)
Class PyInt : Type := py_int : json -> exn + Z.

(** [core/config]: the constants [get_token] sends. *)
Record Config : Type := mkConfig {
  CLIENT_ID : json;
  CLIENT_SECRET : json;
  LOGIN_REDIRECT : json
}.

(** ** The outside world *)

Inductive event : Type :=
| EvTime (t : Z)
| EvPost (url : string) (data headers : list (string * json)) (r : Response)
| EvRequest (method path : string) (token : json) (r : exn + json)
| EvIpc (endpoint : string) (user_id : Z) (r : option (list Z))
| EvSessionSet (key : string) (v : json).

(** The answers of the clock, of the OAuth provider, of the identity
    endpoint and of the bot process, given what has happened so far. *)
Record Env : Type := mkEnv {
  clock : list event -> Z;
  oauth_provider : list event -> string -> list (string * json) -> Response;
  discord_api : list event -> string -> string -> json -> exn + json;
  bot_ipc : list event -> string -> Z -> option (list Z)
}.

Record World : Type := mkWorld {
  session : gmap string json;
  trace : list event
}.

Definition emit (e : event) (w : World) : World :=
  {| session := session w; trace := trace w ++ [e] |}.

(** ** The monad *)

Definition M (A : Type) : Type := World -> (exn + A) * World.

Definition ret {A : Type} (a : A) : M A := fun w => (inr a, w).

Definition bind {A B : Type} (m : M A) (k : A -> M B) : M B :=
  fun w => match m w with
           | (inl e, w') => (inl e, w')
           | (inr a, w') => k a w'
           end.

Definition raise {A : Type} (e : exn) : M A := fun w => (inl e, w).

Definition lift {A : Type} (r : exn + A) : M A := fun w => (r, w).

Declare Scope dash_scope.
Delimit Scope dash_scope with dash.
Notation "x ← y ; z" := (bind y (fun x => z)) : dash_scope.
Notation "x ;; z" := (bind x (fun _ => z)) : dash_scope.
Local Open Scope dash_scope.

(** [session.get(key)] *)
Definition session_get (key : string) : M json :=
  fun w => (inr (default JNull (session w !! key)), w).

(** [session[key] = v] *)
Definition session_set (key : string) (v : json) : M unit :=
  fun w => (inr tt, {| session := <[key := v]> (session w);
                       trace := trace w ++ [EvSessionSet key v] |}).

Section Effects.
Variable env : Env.

(** [time.time()] *)
Definition time_time : M Z :=
  fun w => let t := clock env (trace w) in (inr t, emit (EvTime t) w).

(** [self.session.post(url=..., data=..., headers=...)] *)
Definition session_post (url : string) (data headers : list (string * json))
  : M Response :=
  fun w => let r := oauth_provider env (trace w) url data in
           (inr r, emit (EvPost url data headers r) w).

(** [self.http.request(http.Route(method, path, token=token))] *)
Definition http_request (method path : string) (token : json) : M json :=
  fun w => let r := discord_api env (trace w) method path token in
           (r, emit (EvRequest method path token r) w).

(** [self.ipc.request(endpoint, user_id=user_id)] *)
Definition ipc_request (endpoint : string) (user_id : Z) : M (option (list Z)) :=
  fun w => let r := bot_ipc env (trace w) endpoint user_id in
           (inr r, emit (EvIpc endpoint user_id r) w).

(** [obj.is_expired()]: one clock reading. *)
Definition is_expired {T : Type} (expired_at : T -> Z -> bool) (obj : T) : M bool :=
  t ← time_time; ret (expired_at obj t).
End Effects.

(** [await response.json()]: the decoded body, or the exception of the
    response that has none. *)
Definition response_json (r : Response) : M json :=
  match body r with
  | Some j => ret j
  | None => raise (json_error r)
  end.

(** ** [class Dashboard] *)

Section Dashboard.
Context {objects : Objects} {int : PyInt}.
Variable config : Config.
Variable env : Env.

Definition refresh_url : string := "https://discord.com/api/oauth2/token".

Definition refresh_data (token : Token) : list (string * json) :=
  [ ("client_id", CLIENT_ID config);
    ("client_secret", CLIENT_SECRET config);
    ("grant_type", JStr "refresh_token");
    ("refresh_token", Token_refresh_token token);
    ("redirect_uri", LOGIN_REDIRECT config);
    ("scope", JStr "identify guilds") ].

Definition refresh_headers : list (string * json) :=
  [ ("Content-Type", JStr "application/x-www-form-urlencoded") ].

Definition refresh_failed_message : json :=
  JStr "something went wrong while requesting refreshed discord access token.".

Definition get_token : M (option Token) :=
  data ← session_get "token";
  if negb (truthy data) then ret None else
  token ← lift (Token_new data);
  expired ← is_expired env Token_is_expired token;
  if expired then
    response ← session_post env refresh_url (refresh_data token) refresh_headers;
    if negb (Z.eqb (status response) 200) then
      raise (HTTPException response refresh_failed_message)
    else
      data ← response_json response;
      error ← lift (dict_get data "error");
      if truthy error then raise (HTTPException response error) else
      session_set "token" data;;
      token ← lift (Token_new data);
      ret (Some token)
  else ret (Some token).

Definition fetch_user : M (option User) :=
  token ← get_token;
  match token with
  | None => ret None
  | Some token =>
      data ← http_request env "GET" "/users/@me" (Token_access_token token);
      now ← time_time env;
      data ← lift (setitem data "fetched_at" (JNum now));
      session_set "user" data;;
      user ← lift (User_new data);
      ret (Some user)
  end.

Definition get_user : M (option User) :=
  data ← session_get "user";
  if negb (truthy data) then fetch_user else
  user ← lift (User_new data);
  expired ← is_expired env User_is_expired user;
  if expired then fetch_user else ret (Some user).

(** [{int(data["id"]): objects.Guild(data) for data in guilds_data}]: the
    key is evaluated before the value, entry after entry. *)
Fixpoint guilds_dict_from (acc : list (Z * Guild)) (guilds_data : list json)
  : exn + list (Z * Guild) :=
  match guilds_data with
  | [] => inr acc
  | data :: rest =>
      match getitem data "id" with
      | inl e => inl e
      | inr id =>
          match py_int id with
          | inl e => inl e
          | inr key =>
              match Guild_new data with
              | inl e => inl e
              | inr guild => guilds_dict_from (pydict_set acc key guild) rest
              end
          end
      end
  end.

Definition guilds_dict (guilds_data : json) : exn + list (Z * Guild) :=
  match py_iter guilds_data with
  | inl e => inl e
  | inr items => guilds_dict_from [] items
  end.

(** [for guild_data in guilds_data: guild_data["fetched_at"] = time.time()]:
    the clock is read for every entry, then the entry is updated where it
    is. *)
Fixpoint stamp_each (items : list json) : M (list json) :=
  match items with
  | [] => ret []
  | guild_data :: rest =>
      now ← time_time env;
      guild_data ← lift (setitem guild_data "fetched_at" (JNum now));
      rest ← stamp_each rest;
      ret (guild_data :: rest)
  end.

(** The loop updates the entries of a list in place; over a mapping or a
    string it runs to its end only when there is nothing to iterate. *)
Definition stamp_all (guilds_data : json) : M json :=
  items ← lift (py_iter guilds_data);
  stamped ← stamp_each items;
  ret (match guilds_data with JList _ => JList stamped | _ => guilds_data end).

Definition fetch_user_guilds : M (option (list (Z * Guild))) :=
  token ← get_token;
  match token with
  | None => ret None
  | Some token =>
      guilds_data ← http_request env "GET" "/users/@me/guilds" (Token_access_token token);
      guilds_data ← stamp_all guilds_data;
      session_set "guilds" guilds_data;;
      guilds ← lift (guilds_dict guilds_data);
      ret (Some guilds)
  end.

(** [any(guild.is_expired() for guild in guilds.values())]: stops at the
    first expired guild. *)
Fixpoint any_expired (guilds : list Guild) : M bool :=
  match guilds with
  | [] => ret false
  | guild :: rest =>
      expired ← is_expired env Guild_is_expired guild;
      if expired then ret true else any_expired rest
  end.

Definition get_user_guilds : M (option (list (Z * Guild))) :=
  guilds_data ← session_get "guilds";
  if negb (truthy guilds_data) then fetch_user_guilds else
  guilds ← lift (guilds_dict guilds_data);
  expired ← any_expired (values guilds);
  if expired then fetch_user_guilds else ret (Some guilds).

Record RelatedGuilds : Type := mkRelatedGuilds {
  mutual_guilds : option (list json);
  non_mutual_guilds : option (list json);
  guild : option json
}.

(** [discord.utils.get(guilds, id=guild_id)]: the first with that [id]. *)
Fixpoint utils_get (guilds : list Guild) (guild_id : Z) : option Guild :=
  match guilds with
  | [] => None
  | g :: rest => if Z.eqb (Guild_id g) guild_id then Some g else utils_get rest guild_id
  end.

(** [guild_id and ...]: [None] and [0] are false. *)
Definition requested (guild_id : option Z) : option Z :=
  match guild_id with
  | Some id => if Z.eqb id 0 then None else Some id
  | None => None
  end.

Definition get_related_guilds (user_id : Z) (guild_id : option Z) : M RelatedGuilds :=
  let data := {| mutual_guilds := None; non_mutual_guilds := None; guild := None |} in
  guilds ← get_user_guilds;
  match guilds with
  | None | Some [] => ret data
  | Some guilds =>
      answer ← ipc_request env "mutual_guild_ids" user_id;
      let mutual_guild_ids :=
        match answer with
        | None | Some [] => []
        | Some ids => ids
        end in
      let mutual := filter (fun g => Guild_id g ∈ mutual_guild_ids) (values guilds) in
      let non_mutual := filter (fun g => Guild_id g ∉ mutual_guild_ids) (values guilds) in
      ret {| mutual_guilds := Some (map Guild_to_dict mutual);
              non_mutual_guilds := Some (map Guild_to_dict non_mutual);
              guild := match requested guild_id with
                       | None => None
                       | Some id => Guild_to_dict <$> utils_get mutual id
                       end |}
  end.

End Dashboard.

(** ** An instance of the missing classes *)

Module SpecObjects.

Definition ebind {A B : Type} (r : exn + A) (k : A -> exn + B) : exn + B :=
  match r with
  | inl e => inl e
  | inr a => k a
  end.

Definition as_num (j : json) : exn + Z :=
  match j with
  | JNum n => inr n
  | _ => inl TypeError
  end.

(** Modelled from the spec: the class [Token] of [utilities/objects], which
    is not in the sources.  "Attributes: access token string, refresh token
    string, issue time, lifetime in seconds", over the fields
    [{access_token, refresh_token, expires_in, obtained_at}]. *)
Record token : Type := mkToken {
  access_token : json;
  refresh_token : json;
  obtained_at : Z;
  expires_in : Z
}.

(** Modelled from the spec: the constructor [Token(data)], which is not in
    the sources; it reads the four fields of the record and raises when
    one is missing. *)
Definition token_new (data : json) : exn + token :=
  ebind (getitem data "access_token") (fun a =>
  ebind (getitem data "refresh_token") (fun r =>
  ebind (ebind (getitem data "obtained_at") as_num) (fun o =>
  ebind (ebind (getitem data "expires_in") as_num) (fun e =>
  inr (mkToken a r o e))))).

(** Modelled from the spec: [Token.is_expired], which is not in the
    sources.  "is_expired() := now >= obtained_at + lifetime". *)
Definition token_is_expired (t : token) (now : Z) : bool :=
  Z.leb (obtained_at t + expires_in t) now.

(** Modelled from the spec: the time-to-live of a cached user or guild,
    which is not in the sources.  The spec leaves the duration open and
    uses 300 seconds in its scenario. *)
Definition TTL : Z := 300.

(** Modelled from the spec: the classes [User] and [Guild] of
    [utilities/objects], which are not in the sources.  A view over the
    cached record "plus fetched_at", expired "once a fixed TTL" has passed;
    a guild carries its integer id. *)
Record cached : Type := mkCached {
  record : json;
  record_id : Z;
  fetched_at : Z
}.

Definition code (c : Ascii.ascii) : Z := Z.of_N (Ascii.N_of_ascii c).

(** The ASCII characters [int] takes for white space. *)
Definition is_space (c : Ascii.ascii) : bool :=
  (Z.leb 9 (code c) && Z.leb (code c) 13 || Z.leb 28 (code c) && Z.leb (code c) 32)%bool.

Fixpoint lstrip (s : string) : string :=
  match s with
  | EmptyString => EmptyString
  | String c rest => if is_space c then lstrip rest else s
  end.

Fixpoint rstrip (s : string) : string :=
  match s with
  | EmptyString => EmptyString
  | String c rest =>
      match rstrip rest with
      | EmptyString => if is_space c then EmptyString else String c EmptyString
      | kept => String c kept
      end
  end.

(** Decimal digits, single underscores allowed between two of them;
    [after_digit] tells whether the character before was a digit. *)
Fixpoint digits (s : string) (after_digit : bool) (acc : Z) : exn + Z :=
  match s with
  | EmptyString => if after_digit then inr acc else inl ValueError
  | String c rest =>
      if Z.eqb (code c) 95 then
        if after_digit then digits rest false acc else inl ValueError
      else
        let n := code c - 48 in
        if (Z.leb 0 n && Z.leb n 9)%bool then digits rest true (10 * acc + n)
        else inl ValueError
  end.

(** The text of an integer in base ten: white space around it, a sign, the
    digits. *)
Definition int_of_string (s : string) : exn + Z :=
  match lstrip (rstrip s) with
  | String "-"%char rest => ebind (digits rest false 0) (fun n => inr (- n))
  | String "+"%char rest => digits rest false 0
  | text => digits text false 0
  end.

(** The builtin [int(x)] on JSON values whose strings are ASCII: a number is
    itself, a Boolean is 0 or 1, a string is read in base ten, anything else
    is a [TypeError].  (On a string with characters outside ASCII, where
    Python also reads the decimal digits and the white space of other
    scripts, this instance raises [ValueError]; no guild id is such a
    string.) *)
Definition int_of (j : json) : exn + Z :=
  match j with
  | JNum n => inr n
  | JBool b => inr (if b then 1 else 0)
  | JStr s => int_of_string s
  | _ => inl TypeError
  end.

(** Modelled from the spec: the constructors [User(data)] and
    [Guild(data)], which are not in the sources; they read [id] and
    [fetched_at] and raise when one is missing. *)
Definition cached_new (data : json) : exn + cached :=
  ebind (ebind (getitem data "id") int_of) (fun i =>
  ebind (ebind (getitem data "fetched_at") as_num) (fun f =>
  inr (mkCached data i f))).

(** Modelled from the spec: [User.is_expired] and [Guild.is_expired],
    which are not in the sources: "same expiry rule", with the
    time-to-live as lifetime. *)
Definition cached_is_expired (c : cached) (now : Z) : bool :=
  Z.leb (fetched_at c + TTL) now.

#[export] Instance spec_objects : Objects := {|
  Token := token;
  Token_new := token_new;
  Token_is_expired := token_is_expired;
  Token_access_token := access_token;
  Token_refresh_token := refresh_token;
  User := cached;
  User_new := cached_new;
  User_is_expired := cached_is_expired;
  Guild := cached;
  Guild_new := cached_new;
  Guild_is_expired := cached_is_expired;
  Guild_id := record_id;
  Guild_to_dict := record
|}.

#[export] Instance spec_int : PyInt := int_of.

Definition config0 : Config :=
  {| CLIENT_ID := JStr "id"; CLIENT_SECRET := JStr "secret";
     LOGIN_REDIRECT := JStr "https://dashboard/login" |}.

Definition token_record (access : string) (t0 lifetime : Z) : json :=
  JObj [ ("access_token", JStr access); ("refresh_token", JStr "R");
         ("expires_in", JNum lifetime); ("obtained_at", JNum t0) ].

Definition guild_record (id : string) (t0 : Z) : json :=
  JObj [ ("id", JStr id); ("name", JStr "guild"); ("fetched_at", JNum t0) ].

Definition user_record (id : string) (t0 : Z) : json :=
  JObj [ ("id", JStr id); ("username", JStr "user"); ("fetched_at", JNum t0) ].

Definition fresh_guild_record (id : string) : json :=
  JObj [ ("id", JStr id); ("name", JStr "guild") ].

(** A world in which the clock stands at [now], the OAuth provider answers
    [refreshed], the identity endpoint [listing] and the bot [shared]. *)
Definition env0 (now : Z) (refreshed : Response) (listing : exn + json)
  (shared : option (list Z)) : Env :=
  {| clock := fun _ => now;
     oauth_provider := fun _ _ _ => refreshed;
     discord_api := fun _ _ _ _ => listing;
     bot_ipc := fun _ _ _ => shared |}.

Definition world0 (fields : list (string * json)) : World :=
  {| session := list_to_map fields; trace := [] |}.

(** A 200 answer with the JSON body [data]. *)
Definition ok (data : json) : Response :=
  {| status := 200; body := Some data; unreadable := MalformedJson |}.

(** The token of the spec's scenario: access token "A", obtained at 0, good
    for 3600 seconds. *)
Definition token_A : json := token_record "A" 0 3600.
Definition Token_A : token := mkToken (JStr "A") (JStr "R") 0 3600.
Definition token_B : json := token_record "B" 3700 3600.
Definition Token_B : token := mkToken (JStr "B") (JStr "R") 3700 3600.

(** The guild [id] as cached at [t0]; [n] is the integer [id] stands for. *)
Definition Guild_at (id : string) (n t0 : Z) : cached :=
  mkCached (guild_record id t0) n t0.

(** A session that logged in at 0 and cached the guilds 1, 2 and 3 then. *)
Definition three_guilds : World :=
  world0 [ ("token", token_A);
           ("guilds", JList [guild_record "1" 0; guild_record "2" 0; guild_record "3" 0]) ].

Definition mapping_123 : list (Z * cached) :=
  [ (1, Guild_at "1" 1 0); (2, Guild_at "2" 2 0); (3, Guild_at "3" 3 0) ].

(** The spec's scenario: guild 1 cached at 0 by a session that logged in
    at 0. *)
Definition one_guild : World :=
  world0 [ ("token", token_A); ("guilds", JList [guild_record "1" 0]) ].

(** A session that holds cached data and no token. *)
Definition cached_only : World :=
  world0 [ ("user", user_record "7" 0); ("guilds", JList [guild_record "1" 0]) ].

(** The clock stands at 100 (the caches of time 0 are fresh), the bot
    shares the guilds [shared]. *)
Definition env_fresh (shared : option (list Z)) : Env :=
  env0 100 (ok token_B) (inl TypeError) shared.

(** The clock stands at 400 (the caches of time 0 are stale, the token is
    good), the identity endpoint lists [listing]. *)
Definition env_stale (listing : list json) : Env :=
  env0 400 (ok token_B) (inr (JList listing)) (Some [1]).

(** A world in which time passes: the clock stands at [start] plus the
    number of things that have happened since. *)
Definition env_ticking (start : Z) (refreshed : Response) (listing : exn + json)
  (shared : option (list Z)) : Env :=
  {| clock := fun tr => start + Z.of_nat (length tr);
     oauth_provider := fun _ _ _ => refreshed;
     discord_api := fun _ _ _ _ => listing;
     bot_ipc := fun _ _ _ => shared |}.

(** A session that logged in at 0 and whose guild list was stamped at 100
    (guild 1) and 105 (guild 2): at 400 the first entry is expired and the
    second is not. *)
Definition two_guilds : World :=
  world0 [ ("token", token_A);
           ("guilds", JList [guild_record "1" 100; guild_record "2" 105]) ].

Definition mapping_12 : list (Z * cached) :=
  [ (1, Guild_at "1" 1 100); (2, Guild_at "2" 2 105) ].

(** What the identity endpoint lists from then on: the guilds 1, 2 and 3. *)
Definition listing_123 : list json :=
  [ fresh_guild_record "1"; fresh_guild_record "2"; fresh_guild_record "3" ].

(** The identity endpoint is down. *)
Definition unavailable : exn :=
  HTTPException {| status := 503; body := None; unreadable := NotJsonContent |}
    (JStr "service unavailable").

End SpecObjects.

(** ** Observing a run *)

(** What a run did: the events it appended to the trace. *)
Definition since (w w' : World) : list event :=
  drop (length (trace w)) (trace w').

Fixpoint count (p : event -> bool) (evs : list event) : nat :=
  match evs with
  | [] => O
  | e :: rest => if p e then S (count p rest) else count p rest
  end.

(** The outbound call to the OAuth token endpoint. *)
Definition is_refresh_call (e : event) : bool :=
  match e with
  | EvPost url _ _ _ => String.eqb url refresh_url
  | _ => false
  end.

(** Any call over the network to the OAuth provider or the identity
    endpoint. *)
Definition is_network_call (e : event) : bool :=
  match e with
  | EvPost _ _ _ _ | EvRequest _ _ _ _ => true
  | _ => false
  end.

(** The bulk fetch of the guild list. *)
Definition is_guild_fetch (e : event) : bool :=
  match e with
  | EvRequest method path _ _ =>
      (String.eqb method "GET" && String.eqb path "/users/@me/guilds")%bool
  | _ => false
  end.

(** A call to the bot process. *)
Definition is_ipc_call (e : event) : bool :=
  match e with
  | EvIpc _ _ _ => true
  | _ => false
  end.

(** A write of the session field [key]. *)
Definition is_write (key : string) (e : event) : bool :=
  match e with
  | EvSessionSet k _ => String.eqb k key
  | _ => false
  end.

(** The next [n] readings of the clock when nothing else happens in
    between. *)
Fixpoint readings (env : Env) (tr : list event) (n : nat) : list Z :=
  match n with
  | O => []
  | S n' => let t := clock env tr in t :: readings env (tr ++ [EvTime t]) n'
  end.

Definition is_object (j : json) : Prop :=
  match j with
  | JObj _ => True
  | _ => False
  end.

(** An entry with its [fetched_at] set to [t]. *)
Definition stamped (guild_data : json) (t : Z) : json :=
  match guild_data with
  | JObj kvs => JObj (assoc_set kvs "fetched_at" (JNum t))
  | _ => guild_data
  end.

(** What the bot's answer counts as: no answer is the empty list. *)
Definition shared_ids (answer : option (list Z)) : list Z :=
  default [] answer.

Definition nothing {objects : Objects} : RelatedGuilds :=
  {| mutual_guilds := None; non_mutual_guilds := None; guild := None |}.

(** [n] requests in a row on the same session. *)
Fixpoint repeat_related_guilds {objects : Objects} {int : PyInt}
  (config : Config) (env : Env) (user_id : Z) (guild_id : option Z) (n : nat)
  : M (list RelatedGuilds) :=
  match n with
  | O => ret []
  | S n' =>
      r ← get_related_guilds config env user_id guild_id;
      rs ← repeat_related_guilds config env user_id guild_id n';
      ret (r :: rs)
  end.

(** The world after one reading of the clock (an expiry check). *)
Definition checked (env : Env) (w : World) : World :=
  emit (EvTime (clock env (trace w))) w.

(** The provider's answer to the refresh of [tok] asked in [w], after the
    expiry check. *)
Definition refresh_answer {objects : Objects} (config : Config) (env : Env)
  (w : World) (tok : Token) : Response :=
  oauth_provider env (trace (checked env w)) refresh_url (refresh_data config tok).

(** The world after the expiry check and the refresh call. *)
Definition refreshed {objects : Objects} (config : Config) (env : Env)
  (w : World) (tok : Token) : World :=
  emit (EvPost refresh_url (refresh_data config tok) refresh_headers
          (refresh_answer config env w tok))
    (checked env w).

(** Some guild is expired when the clock is read for it, one reading per
    guild in turn: what [any(guild.is_expired() ...)] finds out. *)
Definition some_expired {objects : Objects} (env : Env) (tr : list event)
  (guilds : list Guild) : bool :=
  existsb (fun p => Guild_is_expired (fst p) (snd p))
    (zip guilds (readings env tr (length guilds))).

(** The world after the expiry check of the cached guilds. *)
Definition expiry_checked {objects : Objects} (env : Env) (guilds : list Guild)
  (w : World) : World :=
  snd (any_expired env guilds w).

(** The answer of the identity endpoint to the fetch of the guild list
    asked in [w] with the access token of [tok]. *)
Definition guilds_answer {objects : Objects} (env : Env) (w : World) (tok : Token)
  : exn + json :=
  discord_api env (trace w) "GET" "/users/@me/guilds" (Token_access_token tok).

(** The world after that fetch. *)
Definition fetched {objects : Objects} (env : Env) (w : World) (tok : Token) : World :=
  emit (EvRequest "GET" "/users/@me/guilds" (Token_access_token tok)
          (guilds_answer env w tok)) w.

(** The fetched entries [items], each stamped with its own reading of the
    clock, taken after the fetch. *)
Definition stamped_list {objects : Objects} (env : Env) (w : World) (tok : Token)
  (items : list json) : list json :=
  zip_with stamped items (readings env (trace (fetched env w tok)) (length items)).

(** The bot's answer to [mutual_guild_ids] asked in [w]. *)
Definition ipc_answer (env : Env) (w : World) (user_id : Z) : option (list Z) :=
  bot_ipc env (trace w) "mutual_guild_ids" user_id.

(** The world after that question. *)
Definition asked (env : Env) (w : World) (user_id : Z) : World :=
  emit (EvIpc "mutual_guild_ids" user_id (ipc_answer env w user_id)) w.

(** ** What a run may do *)

(** The session that the writes journaled in [evs] make of [s]. *)
Fixpoint replay (s : gmap string json) (evs : list event) : gmap string json :=
  match evs with
  | [] => s
  | EvSessionSet key v :: rest => replay (<[key := v]> s) rest
  | _ :: rest => replay s rest
  end.

(** A computation that only ever appends events allowed by [P] to the
    trace, and changes the session by the writes it journals and by
    nothing else; whatever the world, and whether it returns or raises. *)
Definition journaled {A : Type} (P : event -> Prop) (m : M A) : Prop :=
  forall w, exists evs,
    trace (snd (m w)) = trace w ++ evs /\
    session (snd (m w)) = replay (session w) evs /\
    Forall P evs.

(** What the token manager may do: read the clock, call the OAuth token
    endpoint, write the [token] field. *)
Definition token_event (e : event) : Prop :=
  match e with
  | EvTime _ => True
  | EvPost url _ _ _ => url = refresh_url
  | EvSessionSet key _ => key = "token"
  | _ => False
  end.

(** What the profile cache may do on top of it: fetch the current user,
    write the [user] field. *)
Definition user_event (e : event) : Prop :=
  match e with
  | EvRequest method path _ _ => method = "GET" /\ path = "/users/@me"
  | EvSessionSet key _ => key = "token" \/ key = "user"
  | _ => token_event e
  end.

(** What the guild list cache may do on top of the token manager: fetch the
    guild list, write the [guilds] field. *)
Definition guilds_event (e : event) : Prop :=
  match e with
  | EvRequest method path _ _ => method = "GET" /\ path = "/users/@me/guilds"
  | EvSessionSet key _ => key = "token" \/ key = "guilds"
  | _ => token_event e
  end.

(** What the resolver may do on top of the guild list cache: ask the bot
    for the guilds it shares with [user_id]. *)
Definition related_event (user_id : Z) (e : event) : Prop :=
  match e with
  | EvIpc endpoint user _ => endpoint = "mutual_guild_ids" /\ user = user_id
  | _ => guilds_event e
  end.

(** The access token an identity request went out with is [token]. *)
Definition carries (token : json) (e : event) : Prop :=
  match e with
  | EvRequest _ _ t _ => t = token
  | _ => True
  end.

(** The answer of the identity endpoint to the fetch of the current user
    asked in [w] with the access token of [tok]. *)
Definition user_answer {objects : Objects} (env : Env) (w : World) (tok : Token)
  : exn + json :=
  discord_api env (trace w) "GET" "/users/@me" (Token_access_token tok).

(** The world after that fetch. *)
Definition user_fetched {objects : Objects} (env : Env) (w : World) (tok : Token)
  : World :=
  emit (EvRequest "GET" "/users/@me" (Token_access_token tok) (user_answer env w tok)) w.

(** [d.get(k)] on a mapping with integer keys. *)
Fixpoint pydict_get {V : Type} (d : list (Z * V)) (k : Z) : option V :=
  match d with
  | [] => None
  | (k', v) :: rest => if Z.eqb k k' then Some v else pydict_get rest k
  end.

(** [int(data["id"])], the key under which an entry goes in the mapping. *)
Definition guild_key {int : PyInt} (data : json) : exn + Z :=
  match getitem data "id" with
  | inl e => inl e
  | inr id => py_int id
  end.

(** ** The endpoints *)

(** [utilities/objects]: what the endpoints read of a [User], which is no
    more in the sources than the rest of the class. *)
Class UserObject {objects : Objects} : Type := {
  User_id : User -> Z;
  User_to_dict : User -> json
}.

(** What a handler hands to the template layer: a redirect, a plain
    response, or the context of the page. *)
Inductive HandlerResult : Type :=
| HTTPFound (location : string)
| WebResponse (text : string) (status : Z)
| Context (context : list (string * json)).

(** [{**a, **b}]: the items of [b] are set in [a] from left to right. *)
Definition dict_merge (a b : list (string * json)) : list (string * json) :=
  fold_left (fun acc kv => assoc_set acc (fst kv) (snd kv)) b a.

(** The [RelatedGuilds] mapping as the items of a [dict]. *)
Definition related_items {objects : Objects} (r : RelatedGuilds)
  : list (string * json) :=
  [ ("mutual_guilds", match mutual_guilds r with Some l => JList l | None => JNull end);
    ("non_mutual_guilds",
     match non_mutual_guilds r with Some l => JList l | None => JNull end);
    ("guild", default JNull (guild r)) ].

Definition no_access : string :=
  "that server doesn't exist or you don't have access to it.".

Section Endpoints.
Context {objects : Objects} {user_object : UserObject} {int : PyInt}.
Variable config : Config.
Variable env : Env.

(** [app.links] *)
Variable links : list (string * json).

(** [{**app.links, "user": user.to_dict(), **related_guilds}] *)
Definition page_context (user : User) (related_guilds : RelatedGuilds)
  : list (string * json) :=
  dict_merge (assoc_set (dict_merge [] links) "user" (User_to_dict user))
    (related_items related_guilds).

Definition servers : M HandlerResult :=
  user ← get_user config env;
  match user with
  | None => ret (HTTPFound "/login")
  | Some user =>
      related_guilds ← get_related_guilds config env (User_id user) None;
      ret (Context (page_context user related_guilds))
  end.

(** [guild_id] is [request.match_info["guild_id"]], the text the route
    matched. *)
Definition server (guild_id : string) : M HandlerResult :=
  user ← get_user config env;
  match user with
  | None => ret (HTTPFound "/login")
  | Some user =>
      guild_id ← lift (py_int (JStr guild_id));
      related_guilds ← get_related_guilds config env (User_id user) (Some guild_id);
      if negb (truthy (default JNull (guild related_guilds))) then
        ret (WebResponse no_access 401)
      else ret (Context (page_context user related_guilds))
  end.

(** [config.LOGIN_CALLBACK], and how an f-string renders a constant. *)
Variable LOGIN_CALLBACK : json.
Variable format : json -> string.

Definition authorize_url (state : string) : string :=
  "https://discord.com/api/oauth2/authorize"
  +:+ "?client_id=" +:+ format (CLIENT_ID config)
  +:+ "&response_type=code"
  +:+ "&scope=identify+guilds"
  +:+ "&redirect_uri=" +:+ format LOGIN_CALLBACK
  +:+ "&state=" +:+ state.

(** [aiohttp_session.new_session(request)]: the request goes on with a
    session that holds nothing. *)
Definition new_session : M unit :=
  fun w => (inr tt, {| session := ∅; trace := trace w |}).

(** [state] is what [secrets.token_urlsafe(20)] drew. *)
Definition login (state : string) : M HandlerResult :=
  new_session;;
  session_set "state" (JStr state);;
  ret (HTTPFound (authorize_url state)).

End Endpoints.

(** ** The Spotify credentials of a user *)

Section Spotify.
Context {objects : Objects} {user_object : UserObject}.

(** [aiospotify.UserCredentials] *)
Variable Credentials : Type.

(** The calls [get_spotify_credentials] makes beyond those of the caches:
    the query on the database pool and the exchange of a refresh token
    with Spotify. *)
Inductive app_event : Type :=
| EvFetchrow (query : string) (user_id : Z) (r : exn + json)
| EvFromRefreshToken (refresh_token : json) (r : exn + Credentials).

(** The answers of the database (the row as a mapping, [None] for no row)
    and of Spotify, given the calls made so far. *)
Record AppEnv : Type := mkAppEnv {
  db_fetchrow : list app_event -> string -> Z -> exn + json;
  from_refresh_token : list app_event -> json -> exn + Credentials
}.

(** The application around a request: the world of the request, the
    process-wide [spotify_user_credentials] and the calls made. *)
Record App : Type := mkApp {
  world : World;
  spotify_user_credentials : gmap Z Credentials;
  calls : list app_event
}.

Definition MA (A : Type) : Type := App -> (exn + A) * App.

Definition aret {A : Type} (a : A) : MA A := fun app => (inr a, app).

Definition abind {A B : Type} (m : MA A) (k : A -> MA B) : MA B :=
  fun app => match m app with
             | (inl e, app') => (inl e, app')
             | (inr a, app') => k a app'
             end.

Definition alift {A : Type} (r : exn + A) : MA A := fun app => (r, app).

(** A computation of the request, run on the request's world. *)
Definition in_world {A : Type} (m : M A) : MA A :=
  fun app => let (r, w) := m (world app) in
             (r, {| world := w;
                    spotify_user_credentials := spotify_user_credentials app;
                    calls := calls app |}).

Variable config : Config.
Variable env : Env.
Variable app_env : AppEnv.

(** [self.spotify_user_credentials.get(user_id)] *)
Definition credentials_get (user_id : Z) : MA (option Credentials) :=
  fun app => (inr (spotify_user_credentials app !! user_id), app).

(** [self.spotify_user_credentials[user_id] = credentials] *)
Definition credentials_set (user_id : Z) (credentials : Credentials) : MA unit :=
  fun app => (inr tt, {| world := world app;
                         spotify_user_credentials :=
                           <[user_id := credentials]> (spotify_user_credentials app);
                         calls := calls app |}).

(** [self.db.fetchrow(query, user_id)], the pool being up. *)
Definition fetchrow (query : string) (user_id : Z) : MA json :=
  fun app => let r := db_fetchrow app_env (calls app) query user_id in
             (r, {| world := world app;
                    spotify_user_credentials := spotify_user_credentials app;
                    calls := calls app ++ [EvFetchrow query user_id r] |}).

(** [aiospotify.UserCredentials.from_refresh_token(..., refresh_token=...)] *)
Definition exchange (refresh_token : json) : MA Credentials :=
  fun app => let r := from_refresh_token app_env (calls app) refresh_token in
             (r, {| world := world app;
                    spotify_user_credentials := spotify_user_credentials app;
                    calls := calls app ++ [EvFromRefreshToken refresh_token r] |}).

Definition refresh_token_query : string :=
  "SELECT spotify_refresh_token FROM users WHERE id = $1".

Definition get_spotify_credentials : MA (option Credentials) :=
  abind (in_world (get_user config env)) (fun user =>
  match user with
  | None => aret None
  | Some user =>
      abind (credentials_get (User_id user)) (fun credentials =>
      match credentials with
      | Some credentials => aret (Some credentials)
      | None =>
          abind (fetchrow refresh_token_query (User_id user)) (fun record =>
          abind (alift (getitem record "spotify_refresh_token")) (fun refresh_token =>
          if negb (truthy refresh_token) then aret None else
          abind (exchange refresh_token) (fun credentials =>
          abind (credentials_set (User_id user) credentials) (fun _ =>
          aret (Some credentials)))))
      end)
  end).

End Spotify.

(** ** Start-up *)

Section Startup.
(** [asyncpg.Pool] and [aioredis.Redis] *)
Variables Pool Redis : Type.

(** How connecting to Redis ([aioredis.from_url] and [ping]) can fail: with
    the two classes [start] handles, or with another exception. *)
Inductive redis_failure : Type :=
| RedisConnectionError
| RedisResponseError
| RedisOtherError (name : string).

(** What [start] raises: the builtin [ConnectionError], an exception of
    Redis it does not handle, or the [TypeError] of [dict |= None]. *)
Inductive start_exn : Type :=
| StartConnectionError
| StartRedisError (name : string)
| StartTypeError.

(** What the outside answers during start-up: [asyncpg.create_pool]
    ([None] when it raises), the connection to Redis, and the bot's answer
    to the request [links]. *)
Record StartEnv : Type := mkStartEnv {
  create_pool : option Pool;
  connect_redis : redis_failure + Redis;
  links_answer : option (list (string * json))
}.

(** The fields of the application that [__init__] and [start] set. *)
Record Dashboard : Type := mkDashboard {
  db : option Pool;
  redis : option Redis;
  session_storage : option Redis;
  links : list (string * json)
}.

Inductive start_step : Type :=
| ConnectPostgres
| ConnectRedis
| SetupSessions
| RequestLinks.

(** [__init__], with [values.INVITE_LINK]. *)
Definition init (INVITE_LINK : json) : Dashboard :=
  {| db := None; redis := None; session_storage := None;
     links := [("invite_link", INVITE_LINK)] |}.

(** [start]: the result, the application it leaves and the steps it
    took. *)
Definition start (o : StartEnv) (app : Dashboard)
  : (start_exn + unit) * Dashboard * list start_step :=
  match create_pool o with
  | None => (inl StartConnectionError, app, [ConnectPostgres])
  | Some pool =>
      let app := {| db := Some pool; redis := redis app;
                    session_storage := session_storage app; links := links app |} in
      match connect_redis o with
      | inl RedisConnectionError | inl RedisResponseError =>
          (inl StartConnectionError, app, [ConnectPostgres; ConnectRedis])
      | inl (RedisOtherError name) =>
          (inl (StartRedisError name), app, [ConnectPostgres; ConnectRedis])
      | inr r =>
          let app := {| db := db app; redis := Some r;
                        session_storage := Some r; links := links app |} in
          let steps := [ConnectPostgres; ConnectRedis; SetupSessions; RequestLinks] in
          match links_answer o with
          | None => (inl StartTypeError, app, steps)
          | Some answer =>
              (inr tt,
               {| db := db app; redis := redis app;
                  session_storage := session_storage app;
                  links := dict_merge (links app) answer |},
               steps)
          end
      end
  end.

End Startup.

(** ** An instance for the endpoints *)

Module SpecEndpoints.
Import SpecObjects.

(** Modelled from the spec: [User.id] and [User.to_dict], which are not in
    the sources: the id of the cached record, and the record. *)
#[export] Instance spec_user_object : UserObject := {|
  User_id := record_id;
  User_to_dict := record
|}.

Definition links0 : list (string * json) :=
  [ ("invite_link", JStr "https://invite") ].

(** A session that logged in at 0 and cached its user and three guilds
    then. *)
Definition logged_in : World :=
  world0 [ ("token", token_A); ("user", user_record "7" 0);
           ("guilds", JList [guild_record "1" 0; guild_record "2" 0; guild_record "3" 0]) ].

Definition User_7 : cached := mkCached (user_record "7" 0) 7 0.

(** The user's row holds the refresh token "S"; Spotify exchanges it for
    the credentials "C". *)
Definition app_env0 : AppEnv string :=
  {| db_fetchrow := fun _ _ _ => inr (JObj [("spotify_refresh_token", JStr "S")]);
     from_refresh_token := fun _ _ => inr "C" |}.

Definition app0 (w : World) : App string :=
  {| world := w; spotify_user_credentials := ∅; calls := [] |}.

(** A guild list that names guild 1 twice. *)
Definition listed_twice : json :=
  JList [guild_record "1" 0; guild_record "2" 0; guild_record "1" 5].

End SpecEndpoints.

(** ** Running the monad *)

Lemma bind_ok {A B : Type} (m : M A) (k : A -> M B) w a w' :
  m w = (inr a, w') -> bind m k w = k a w'.
Proof. intros H. unfold bind. now rewrite H. Qed.

Lemma bind_err {A B : Type} (m : M A) (k : A -> M B) w e w' :
  m w = (inl e, w') -> bind m k w = (inl e, w').
Proof. intros H. unfold bind. now rewrite H. Qed.

Lemma count_app p (l1 l2 : list event) :
  count p (l1 ++ l2) = (count p l1 + count p l2)%nat.
Proof.
  induction l1 as [|e l1 IH]; simpl; [reflexivity|].
  destruct (p e); simpl; now rewrite IH.
Qed.

Lemma since_app w w' evs : trace w' = trace w ++ evs -> since w w' = evs.
Proof. intros H. unfold since. rewrite H. apply drop_app_length. Qed.

Lemma since_refl w : since w w = [].
Proof. apply since_app. now rewrite app_nil_r. Qed.

Lemma since_emit e w : since w (emit e w) = [e].
Proof. now apply since_app. Qed.

Lemma count_clock_readings p (ts : list Z) :
  (forall t, p (EvTime t) = false) -> count p (map EvTime ts) = O.
Proof.
  intros Hp. induction ts as [|t ts IH]; simpl; [reflexivity|].
  now rewrite Hp.
Qed.

(** ** The token manager *)

Section TokenManager.
Context {objects : Objects} {int : PyInt}.
Variable config : Config.
Variable env : Env.

Lemma get_token_no_token w :
  truthy (default JNull (session w !! "token")) = false ->
  get_token config env w = (inr None, w).
Proof.
  intros H. unfold get_token, bind, session_get, ret. now rewrite H.
Qed.

Lemma get_token_hit w d tok :
  session w !! "token" = Some d -> truthy d = true ->
  Token_new d = inr tok ->
  Token_is_expired tok (clock env (trace w)) = false ->
  get_token config env w = (inr (Some tok), checked env w).
Proof.
  intros Hd Ht Hn He.
  unfold get_token, bind, session_get, lift, is_expired, time_time, ret.
  rewrite Hd. simpl. rewrite Ht. simpl. rewrite Hn, He. reflexivity.
Qed.

Lemma get_token_refresh_rejected w d tok :
  session w !! "token" = Some d -> truthy d = true ->
  Token_new d = inr tok ->
  Token_is_expired tok (clock env (trace w)) = true ->
  status (refresh_answer config env w tok) <> 200 ->
  get_token config env w
  = (inl (HTTPException (refresh_answer config env w tok) refresh_failed_message), refreshed config env w tok).
Proof.
  intros Hd Ht Hn He Hs.
  unfold get_token, bind, session_get, lift, is_expired, time_time, ret,
    session_post, raise.
  rewrite Hd. simpl. rewrite Ht. simpl. rewrite Hn, He.
  apply Z.eqb_neq in Hs. fold (checked env w); fold (refresh_answer config env w tok).
  rewrite Hs. reflexivity.
Qed.

Lemma get_token_refresh_error w d tok d' e :
  session w !! "token" = Some d -> truthy d = true ->
  Token_new d = inr tok ->
  Token_is_expired tok (clock env (trace w)) = true ->
  status (refresh_answer config env w tok) = 200 ->
  body (refresh_answer config env w tok) = Some d' ->
  dict_get d' "error" = inr e -> truthy e = true ->
  get_token config env w = (inl (HTTPException (refresh_answer config env w tok) e), refreshed config env w tok).
Proof.
  intros Hd Ht Hn He Hs Hb Hg Hte.
  unfold get_token, bind, session_get, lift, is_expired, time_time, ret,
    session_post, raise, response_json.
  rewrite Hd. simpl. rewrite Ht. simpl. rewrite Hn, He.
  fold (checked env w); fold (refresh_answer config env w tok).
  rewrite Hs, Hb. simpl. rewrite Hg, Hte. reflexivity.
Qed.

Lemma get_token_refreshed w d tok d' e :
  session w !! "token" = Some d -> truthy d = true ->
  Token_new d = inr tok ->
  Token_is_expired tok (clock env (trace w)) = true ->
  status (refresh_answer config env w tok) = 200 ->
  body (refresh_answer config env w tok) = Some d' ->
  dict_get d' "error" = inr e -> truthy e = false ->
  get_token config env w
  = (match Token_new d' with inl x => inl x | inr tok' => inr (Some tok') end,
     {| session := <["token" := d']> (session w);
        trace := trace (refreshed config env w tok) ++ [EvSessionSet "token" d'] |}).
Proof.
  intros Hd Ht Hn He Hs Hb Hg Hte.
  unfold get_token, bind, session_get, lift, is_expired, time_time, ret,
    session_post, raise, response_json, session_set.
  rewrite Hd. simpl. rewrite Ht. simpl. rewrite Hn, He.
  fold (checked env w); fold (refresh_answer config env w tok).
  rewrite Hs, Hb. simpl. rewrite Hg, Hte. simpl.
  destruct (Token_new d'); reflexivity.
Qed.

(** Whatever the provider answers, an expired token costs the clock
    reading, the refresh call and at most the write of the field. *)
Lemma get_token_expired_trace w d tok :
  session w !! "token" = Some d -> truthy d = true ->
  Token_new d = inr tok ->
  Token_is_expired tok (clock env (trace w)) = true ->
  exists tail,
    trace (snd (get_token config env w)) = trace (refreshed config env w tok) ++ tail /\
    (tail = [] \/ exists d', tail = [EvSessionSet "token" d']).
Proof.
  intros Hd Ht Hn He.
  destruct (Z.eq_dec (status (refresh_answer config env w tok)) 200) as [Hs|Hs].
  2:{ rewrite (get_token_refresh_rejected w d tok) by assumption.
      exists []. simpl. rewrite app_nil_r. auto. }
  unfold get_token, bind, session_get, lift, is_expired, time_time, ret,
    session_post, raise, response_json, session_set.
  rewrite Hd. simpl. rewrite Ht. simpl. rewrite Hn, He.
  fold (checked env w); fold (refresh_answer config env w tok); fold (refreshed config env w tok).
  rewrite Hs. simpl.
  destruct (body (refresh_answer config env w tok)) as [d'|]; simpl.
  2:{ exists []. rewrite app_nil_r. auto. }
  destruct (dict_get d' "error") as [x|e]; simpl.
  { exists []. rewrite app_nil_r. auto. }
  destruct (truthy e); simpl.
  { exists []. rewrite app_nil_r. auto. }
  destruct (Token_new d'); simpl; exists [EvSessionSet "token" d']; eauto.
Qed.

(** The token manager never talks to the identity endpoint or to the bot,
    and writes no field but [token]. *)
Lemma get_token_trace w :
  exists evs,
    trace (snd (get_token config env w)) = trace w ++ evs /\
    count is_guild_fetch evs = O /\ count is_ipc_call evs = O /\
    count (is_write "guilds") evs = O.
Proof.
  destruct (truthy (default JNull (session w !! "token"))) eqn:Ht.
  2:{ rewrite get_token_no_token by assumption. exists []. simpl.
      rewrite app_nil_r. auto. }
  destruct (session w !! "token") as [d|] eqn:Hd; [|discriminate].
  simpl in Ht.
  destruct (Token_new d) as [x|tok] eqn:Hn.
  { unfold get_token, bind, session_get, lift. rewrite Hd. simpl. rewrite Ht.
    simpl. rewrite Hn. exists []. simpl. rewrite app_nil_r. auto. }
  destruct (Token_is_expired tok (clock env (trace w))) eqn:He.
  2:{ rewrite (get_token_hit w d tok) by assumption.
      exists [EvTime (clock env (trace w))]. simpl. auto. }
  destruct (get_token_expired_trace w d tok Hd Ht Hn He) as (tail & Htr & Htail).
  rewrite Htr. unfold refreshed, checked. simpl. rewrite <- !app_assoc. simpl.
  eexists. split; [reflexivity|].
  destruct Htail as [->|[d' ->]]; simpl; auto.
Qed.

(** Outside the refresh, the session is left as it was. *)
Lemma get_token_session w :
  session (snd (get_token config env w)) = session w \/
  exists d', session (snd (get_token config env w)) = <["token" := d']> (session w).
Proof.
  unfold get_token, bind, session_get, lift, is_expired, time_time, ret,
    session_post, raise, response_json, session_set.
  simpl.
  destruct (truthy _); simpl; auto.
  destruct (Token_new _); simpl; auto.
  destruct (Token_is_expired _ _); simpl; auto.
  destruct (Z.eqb _ 200); simpl; auto.
  destruct (body _) as [d'|]; simpl; auto.
  destruct (dict_get d' "error") as [x|e]; simpl; auto.
  destruct (truthy e); simpl; auto.
  destruct (Token_new d'); simpl; eauto.
Qed.

(** C1.  For every session whose stored token is expired, [get_token]
    performs exactly one outbound refresh call to the OAuth token endpoint
    (never zero, never more than one), whatever the provider answers; and on
    a successful response (status 200, a body without a truthy [error], from
    which a [Token] can be built) it overwrites the [token] field of the
    session with the response data in a single write and returns the
    [Token] built from that data. *)
Theorem C1_expired_token_one_refresh w d tok :
  session w !! "token" = Some d -> truthy d = true ->
  Token_new d = inr tok ->
  Token_is_expired tok (clock env (trace w)) = true ->
  let w' := snd (get_token config env w) in
  let call := EvPost refresh_url (refresh_data config tok) refresh_headers (refresh_answer config env w tok) in
  count is_refresh_call (since w w') = 1%nat /\
  call ∈ since w w' /\
  (forall d' e tok',
      status (refresh_answer config env w tok) = 200 -> body (refresh_answer config env w tok) = Some d' ->
      dict_get d' "error" = inr e -> truthy e = false ->
      Token_new d' = inr tok' ->
      fst (get_token config env w) = inr (Some tok') /\
      session w' = <["token" := d']> (session w) /\
      since w w' = [EvTime (clock env (trace w)); call; EvSessionSet "token" d'] /\
      count (is_write "token") (since w w') = 1%nat).
Proof.
  intros Hd Ht Hn He w' call.
  destruct (get_token_expired_trace w d tok Hd Ht Hn He) as (tail & Htr & Htail).
  assert (Hsince : since w w' = [EvTime (clock env (trace w)); call] ++ tail).
  { apply since_app. subst w'. rewrite Htr. unfold refreshed, checked.
    simpl. now rewrite <- !app_assoc. }
  split; [|split].
  - rewrite Hsince, count_app. simpl.
    destruct Htail as [->|[d' ->]]; reflexivity.
  - rewrite Hsince. simpl. apply list_elem_of_further, list_elem_of_here.
  - intros d' e tok' Hs Hb Hg Hte Hn'.
    assert (Hrun := get_token_refreshed w d tok d' e Hd Ht Hn He Hs Hb Hg Hte).
    rewrite Hn' in Hrun. subst w'. rewrite Hrun. cbn [fst snd session].
    assert (Hs' : forall s, since w
      {| session := s;
         trace := trace (refreshed config env w tok) ++ [EvSessionSet "token" d'] |}
      = [EvTime (clock env (trace w)); call; EvSessionSet "token" d']).
    { intros s. apply since_app. unfold refreshed, checked. simpl.
      now rewrite <- !app_assoc. }
    rewrite Hs'. repeat split; reflexivity.
Qed.

(** C3, as the code has it.  For every session with an expired token, if
    the refresh call yields a non-200 HTTP status, or a response body whose
    [error] field is truthy (a non-empty message), [get_token] raises an
    [HTTPException] carrying the response and a message, and the session is
    left as it was: the stale [token] remains. *)
Theorem C3_failed_refresh_raises w d tok :
  session w !! "token" = Some d -> truthy d = true ->
  Token_new d = inr tok ->
  Token_is_expired tok (clock env (trace w)) = true ->
  (status (refresh_answer config env w tok) <> 200 \/
   exists d' e, body (refresh_answer config env w tok) = Some d' /\
                dict_get d' "error" = inr e /\ truthy e = true) ->
  let w' := snd (get_token config env w) in
  (exists message,
      fst (get_token config env w)
      = inl (HTTPException (refresh_answer config env w tok) message)) /\
  session w' = session w /\
  session w' !! "token" = Some d.
Proof.
  intros Hd Ht Hn He Hfail w'. subst w'.
  destruct (Z.eq_dec (status (refresh_answer config env w tok)) 200) as [Hs|Hs].
  - destruct Hfail as [Hne|(d' & e & Hb & Hg & Hte)]; [contradiction|].
    rewrite (get_token_refresh_error w d tok d' e) by assumption.
    simpl. eauto.
  - rewrite (get_token_refresh_rejected w d tok) by assumption.
    simpl. eauto.
Qed.

(** C4.  For every session whose stored token exists and is not expired,
    [get_token] returns that token, makes no network call (the clock is all
    it consults) and leaves the session, so its [token] field, as it was;
    and for a session with no [token] field it returns absent and does
    nothing at all. *)
Theorem C4_cache_hit_and_absent w :
  (forall d tok,
      session w !! "token" = Some d -> truthy d = true ->
      Token_new d = inr tok ->
      Token_is_expired tok (clock env (trace w)) = false ->
      let w' := snd (get_token config env w) in
      fst (get_token config env w) = inr (Some tok) /\
      since w w' = [EvTime (clock env (trace w))] /\
      count is_network_call (since w w') = O /\
      session w' = session w) /\
  (session w !! "token" = None ->
   get_token config env w = (inr None, w) /\ since w w = []).
Proof.
  split.
  - intros d tok Hd Ht Hn He w'. subst w'.
    rewrite (get_token_hit w d tok) by assumption. cbn [fst snd].
    unfold checked. rewrite since_emit. simpl. auto.
  - intros Hd. split; [|apply since_refl].
    apply get_token_no_token. now rewrite Hd.
Qed.

End TokenManager.

(** ** The profile cache *)

Section ProfileCache.
Context {objects : Objects}.
Variable config : Config.
Variable env : Env.

Lemma fetch_user_no_token w w' :
  get_token config env w = (inr None, w') ->
  fetch_user config env w = (inr None, w').
Proof. intros H. unfold fetch_user. now rewrite (bind_ok _ _ _ _ _ H). Qed.

Lemma get_user_miss w :
  truthy (default JNull (session w !! "user")) = false ->
  get_user config env w = fetch_user config env w.
Proof.
  intros H. unfold get_user, bind, session_get. now rewrite H.
Qed.

Lemma get_user_cached w cache user :
  session w !! "user" = Some cache -> truthy cache = true ->
  User_new cache = inr user ->
  get_user config env w
  = if User_is_expired user (clock env (trace w))
    then fetch_user config env (checked env w)
    else (inr (Some user), checked env w).
Proof.
  intros Hc Ht Hu.
  unfold get_user, bind, session_get, lift, is_expired, time_time, ret.
  rewrite Hc. simpl. rewrite Ht. simpl. rewrite Hu.
  fold (checked env w). destruct (User_is_expired _ _); reflexivity.
Qed.

End ProfileCache.

(** ** The guild list cache *)

Section GuildListCache.
Context {objects : Objects} {int : PyInt}.
Variable config : Config.
Variable env : Env.

Lemma any_expired_run guilds : forall w,
  exists ts,
    any_expired env guilds w
    = (inr (some_expired env (trace w) guilds),
       {| session := session w; trace := trace w ++ map EvTime ts |}).
Proof.
  induction guilds as [|g rest IH]; intros w.
  - exists []. simpl. unfold ret. rewrite app_nil_r. now destruct w.
  - simpl. unfold bind, is_expired, time_time, ret. simpl.
    unfold some_expired. simpl.
    destruct (Guild_is_expired g (clock env (trace w))) eqn:He; simpl.
    + exists [clock env (trace w)]. reflexivity.
    + destruct (IH (emit (EvTime (clock env (trace w))) w)) as [ts Hts].
      rewrite Hts. exists (clock env (trace w) :: ts).
      simpl. rewrite <- app_assoc. reflexivity.
Qed.

Lemma expiry_checked_session guilds w :
  session (expiry_checked env guilds w) = session w.
Proof.
  unfold expiry_checked. destruct (any_expired_run guilds w) as [ts ->].
  reflexivity.
Qed.

Lemma expiry_checked_trace guilds w :
  exists ts, trace (expiry_checked env guilds w) = trace w ++ map EvTime ts.
Proof.
  unfold expiry_checked. destruct (any_expired_run guilds w) as [ts ->].
  now exists ts.
Qed.

Lemma any_expired_eq guilds w :
  any_expired env guilds w
  = (inr (some_expired env (trace w) guilds), expiry_checked env guilds w).
Proof.
  unfold expiry_checked. destruct (any_expired_run guilds w) as [ts ->].
  reflexivity.
Qed.

Lemma stamp_each_run items : forall w,
  Forall is_object items ->
  stamp_each env items w
  = (inr (zip_with stamped items (readings env (trace w) (length items))),
     {| session := session w;
        trace := trace w ++ map EvTime (readings env (trace w) (length items)) |}).
Proof.
  induction items as [|d rest IH]; intros w Hobj.
  - simpl. unfold ret. rewrite app_nil_r. now destruct w.
  - inversion Hobj as [|? ? Hd Hrest]; subst.
    destruct d; try contradiction.
    simpl. unfold bind, time_time, lift, ret. simpl.
    rewrite IH by assumption. simpl. rewrite <- app_assoc. reflexivity.
Qed.

Lemma fetch_user_guilds_no_token w w' :
  get_token config env w = (inr None, w') ->
  fetch_user_guilds config env w = (inr None, w').
Proof. intros H. unfold fetch_user_guilds. now rewrite (bind_ok _ _ _ _ _ H). Qed.

Lemma fetch_user_guilds_raises w e w' :
  get_token config env w = (inl e, w') ->
  fetch_user_guilds config env w = (inl e, w').
Proof. intros H. unfold fetch_user_guilds. now rewrite (bind_err _ _ _ _ _ H). Qed.

Lemma fetch_user_guilds_fetched w tok w2 items :
  get_token config env w = (inr (Some tok), w2) ->
  guilds_answer env w2 tok = inr (JList items) ->
  Forall is_object items ->
  let new := JList (stamped_list env w2 tok items) in
  fetch_user_guilds config env w
  = (match guilds_dict new with inl e => inl e | inr guilds => inr (Some guilds) end,
     {| session := <["guilds" := new]> (session w2);
        trace := trace (fetched env w2 tok)
                 ++ map EvTime (readings env (trace (fetched env w2 tok)) (length items))
                 ++ [EvSessionSet "guilds" new] |}).
Proof.
  intros Htok Hans Hobj new.
  unfold fetch_user_guilds. rewrite (bind_ok _ _ _ _ _ Htok).
  unfold bind at 1. unfold http_request. fold (guilds_answer env w2 tok).
  fold (fetched env w2 tok). rewrite Hans.
  unfold stamp_all, bind, lift, ret, session_set. simpl.
  rewrite stamp_each_run by assumption. simpl.
  subst new. unfold stamped_list, fetched. simpl. rewrite <- app_assoc.
  destruct (guilds_dict _); reflexivity.
Qed.

Lemma get_user_guilds_miss w :
  truthy (default JNull (session w !! "guilds")) = false ->
  get_user_guilds config env w = fetch_user_guilds config env w.
Proof.
  intros H. unfold get_user_guilds, bind, session_get. now rewrite H.
Qed.

Lemma get_user_guilds_cached w cache guilds :
  session w !! "guilds" = Some cache -> truthy cache = true ->
  guilds_dict cache = inr guilds ->
  get_user_guilds config env w
  = if some_expired env (trace w) (values guilds)
    then fetch_user_guilds config env (expiry_checked env (values guilds) w)
    else (inr (Some guilds), expiry_checked env (values guilds) w).
Proof.
  intros Hc Ht Hg.
  unfold get_user_guilds, bind, session_get, lift.
  rewrite Hc. simpl. rewrite Ht. simpl. rewrite Hg.
  rewrite any_expired_eq. destruct (some_expired _ _ _); reflexivity.
Qed.

Lemma fetch_user_guilds_counts w tok w2 items :
  get_token config env w = (inr (Some tok), w2) ->
  guilds_answer env w2 tok = inr (JList items) ->
  Forall is_object items ->
  exists evs,
    trace (snd (fetch_user_guilds config env w)) = trace w ++ evs /\
    count is_guild_fetch evs = 1%nat /\ count is_ipc_call evs = O /\
    count (is_write "guilds") evs = 1%nat.
Proof.
  intros Htok Hans Hobj.
  rewrite (fetch_user_guilds_fetched w tok w2 items) by assumption.
  destruct (get_token_trace config env w) as (evs & Htr & Hf & Hi & Hw).
  rewrite Htok in Htr. simpl in Htr.
  cbn [snd trace]. unfold fetched. simpl. rewrite Htr.
  rewrite <- !app_assoc. eexists. split; [reflexivity|].
  rewrite !count_app, Hf, Hi, Hw. simpl.
  rewrite !count_clock_readings by reflexivity. auto.
Qed.

Lemma assoc_get_set {V : Type} (kvs : list (string * V)) k v :
  assoc_get (assoc_set kvs k v) k = Some v.
Proof.
  induction kvs as [|[k' v'] rest IH]; simpl.
  - now rewrite String.eqb_refl.
  - destruct (String.eqb k k') eqn:E; simpl; rewrite E; [reflexivity|exact IH].
Qed.

(** Every stamped entry carries the reading taken for it. *)
Lemma stamped_fetched_at items : forall ts,
  Forall is_object items -> length ts = length items ->
  Forall2 (fun entry t => getitem entry "fetched_at" = inr (JNum t))
    (zip_with stamped items ts) ts.
Proof.
  induction items as [|d rest IH]; intros [|t ts] Hobj Hlen;
    try discriminate; simpl; [constructor|].
  inversion Hobj as [|? ? Hd Hrest]; subst.
  constructor.
  - destruct d; try contradiction. simpl. now rewrite assoc_get_set.
  - apply IH; [assumption|]. simpl in Hlen. congruence.
Qed.

Lemma readings_length tr n : length (readings env tr n) = n.
Proof.
  revert tr. induction n as [|n IH]; intros tr; simpl; [reflexivity|].
  now rewrite IH.
Qed.

Lemma pydict_set_elem {V : Type} (d : list (Z * V)) k v kv :
  kv ∈ pydict_set d k v -> kv = (k, v) \/ kv ∈ d.
Proof.
  induction d as [|[k' v'] rest IH]; simpl; intros H.
  - apply list_elem_of_singleton in H. auto.
  - destruct (Z.eqb k k') eqn:E.
    + apply Z.eqb_eq in E. subst k'.
      apply elem_of_cons in H as [H|H]; [auto|].
      right. now apply list_elem_of_further.
    + apply elem_of_cons in H as [H|H].
      * right. subst. apply list_elem_of_here.
      * destruct (IH H) as [?|?]; [auto|]. right. now apply list_elem_of_further.
Qed.

(** The mapping is keyed by [int(data["id"])] and holds [Guild(data)]. *)
Lemma guilds_dict_from_elem items : forall acc guilds key g,
  guilds_dict_from acc items = inr guilds ->
  (key, g) ∈ guilds ->
  (key, g) ∈ acc \/
  exists data id, data ∈ items /\ getitem data "id" = inr id /\
                  py_int id = inr key /\ Guild_new data = inr g.
Proof.
  induction items as [|d rest IH]; intros acc guilds key g Hrun Hin; simpl in Hrun.
  - inversion Hrun; subst. auto.
  - destruct (getitem d "id") as [?|id] eqn:Hid; [discriminate|].
    destruct (py_int id) as [?|k] eqn:Hk; [discriminate|].
    destruct (Guild_new d) as [?|gd] eqn:Hg; [discriminate|].
    destruct (IH _ _ _ _ Hrun Hin) as [Hacc|(data & id' & Hd & ? & ? & ?)].
    + apply pydict_set_elem in Hacc as [Heq|Hacc]; [|auto].
      inversion Heq; subst. right. exists d, id.
      split; [apply list_elem_of_here|auto].
    + right. exists data, id'. split; [now apply list_elem_of_further|auto].
Qed.

Lemma guilds_dict_elem cache guilds key g :
  guilds_dict cache = inr guilds -> (key, g) ∈ guilds ->
  exists items data id,
    py_iter cache = inr items /\ data ∈ items /\
    getitem data "id" = inr id /\ py_int id = inr key /\ Guild_new data = inr g.
Proof.
  unfold guilds_dict. intros Hrun Hin.
  destruct (py_iter cache) as [?|items]; [discriminate|].
  destruct (guilds_dict_from_elem items [] guilds key g Hrun Hin)
    as [Hnil|(data & id & ?)].
  - now apply elem_of_nil in Hnil.
  - exists items, data, id. auto.
Qed.

Lemma get_user_guilds_no_token w :
  session w !! "token" = None ->
  (truthy (default JNull (session w !! "guilds")) = false ->
   get_user_guilds config env w = (inr None, w)) /\
  (forall cache guilds,
      session w !! "guilds" = Some cache -> truthy cache = true ->
      guilds_dict cache = inr guilds ->
      get_user_guilds config env w
      = (inr (if some_expired env (trace w) (values guilds) then None else Some guilds),
         expiry_checked env (values guilds) w)).
Proof.
  intros Hno.
  assert (Habsent : forall w', session w' = session w ->
            get_token config env w' = (inr None, w')).
  { intros w' Hs. apply get_token_no_token. now rewrite Hs, Hno. }
  split.
  - intros Hc. rewrite get_user_guilds_miss by assumption.
    apply fetch_user_guilds_no_token. now apply Habsent.
  - intros cache guilds Hc Ht Hg.
    rewrite (get_user_guilds_cached w cache guilds) by assumption.
    destruct (some_expired _ _ _); [|reflexivity].
    apply fetch_user_guilds_no_token. apply Habsent.
    apply expiry_checked_session.
Qed.

(** C2, as the code has it.  For every session that has no [token] field,
    [get_user] returns absent when the session holds no (non-empty) cached
    [user] field or the cached user is expired, and [get_user_guilds]
    returns absent when the session holds no (non-empty) cached [guilds]
    field or one of the cached guilds is expired.  A cached user or guild
    list that is not expired is returned as it is: the cache is read before
    the token is. *)
Theorem C2_no_token_absent_unless_cached w :
  session w !! "token" = None ->
  (truthy (default JNull (session w !! "user")) = false ->
   get_user config env w = (inr None, w)) /\
  (forall cache user,
      session w !! "user" = Some cache -> truthy cache = true ->
      User_new cache = inr user ->
      get_user config env w
      = (inr (if User_is_expired user (clock env (trace w)) then None else Some user),
         checked env w)) /\
  (truthy (default JNull (session w !! "guilds")) = false ->
   get_user_guilds config env w = (inr None, w)) /\
  (forall cache guilds,
      session w !! "guilds" = Some cache -> truthy cache = true ->
      guilds_dict cache = inr guilds ->
      get_user_guilds config env w
      = (inr (if some_expired env (trace w) (values guilds) then None else Some guilds),
         expiry_checked env (values guilds) w)).
Proof.
  intros Hno.
  assert (Habsent : forall w', session w' = session w ->
            get_token config env w' = (inr None, w')).
  { intros w' Hs. apply get_token_no_token. now rewrite Hs, Hno. }
  repeat split.
  - intros Hc. rewrite get_user_miss by assumption.
    apply fetch_user_no_token. now apply Habsent.
  - intros cache user Hc Ht Hu.
    rewrite (get_user_cached config env w cache user) by assumption.
    destruct (User_is_expired _ _); [|reflexivity].
    apply fetch_user_no_token. now apply Habsent.
  - now apply get_user_guilds_no_token.
  - now apply get_user_guilds_no_token.
Qed.

Lemma stamp_each_trace items : forall w,
  exists ts,
    trace (snd (stamp_each env items w)) = trace w ++ map EvTime ts /\
    session (snd (stamp_each env items w)) = session w.
Proof.
  induction items as [|d rest IH]; intros w.
  - exists []. simpl. now rewrite app_nil_r.
  - destruct (IH (emit (EvTime (clock env (trace w))) w)) as (ts & Htr & Hs).
    simpl. unfold bind, time_time, lift, ret. simpl.
    destruct (setitem d "fetched_at" (JNum (clock env (trace w)))) as [e|d'].
    + exists [clock env (trace w)]. split; reflexivity.
    + exists (clock env (trace w) :: ts).
      destruct (stamp_each env rest (emit (EvTime (clock env (trace w))) w))
        as [[e|rest'] w3]; simpl in *; rewrite Htr, Hs, <- app_assoc; split; reflexivity.
Qed.

(** Once the token is there the guild list is asked for, once, whatever the
    answer and whatever comes of it. *)
Lemma fetch_user_guilds_one_fetch w tok w2 :
  get_token config env w = (inr (Some tok), w2) ->
  exists evs,
    trace (snd (fetch_user_guilds config env w)) = trace (fetched env w2 tok) ++ evs /\
    count is_guild_fetch evs = O.
Proof.
  intros Htok.
  unfold fetch_user_guilds. rewrite (bind_ok _ _ _ _ _ Htok).
  unfold bind at 1. unfold http_request. fold (guilds_answer env w2 tok).
  fold (fetched env w2 tok).
  destruct (guilds_answer env w2 tok) as [e|answer].
  { exists []. simpl. now rewrite app_nil_r. }
  unfold bind at 1. unfold stamp_all. unfold bind at 1. unfold lift at 1.
  destruct (py_iter answer) as [e|items].
  { exists []. simpl. now rewrite app_nil_r. }
  destruct (stamp_each_trace items (fetched env w2 tok)) as (ts & Htr & _).
  unfold bind at 1.
  destruct (stamp_each env items (fetched env w2 tok)) as [[e|kept] w3];
    simpl in Htr.
  { exists (map EvTime ts). split; [exact Htr|].
    now apply count_clock_readings. }
  unfold ret, bind, session_set, lift. simpl.
  eexists (map EvTime ts ++ [_]).
  split.
  - destruct (guilds_dict _); simpl; rewrite Htr, <- app_assoc; reflexivity.
  - rewrite count_app, count_clock_readings by reflexivity. reflexivity.
Qed.

(** C9, as the code has it.  For every session with a cached non-empty
    guild list from which the mapping can be built: when no cached entry is
    expired, [get_user_guilds] returns the stored mapping, keyed by
    [int(data["id"])], with no network call.  When an entry is expired and
    the token manager yields a token, it performs exactly one bulk fetch of
    the full guild list.  When moreover the identity endpoint answers that
    fetch with a list of objects, every fetched entry is stamped with the
    reading of the clock taken for it and the whole [guilds] field is
    overwritten with the stamped list in one write: no entry of the old
    list is kept.  And when moreover the mapping can be built from the
    stamped list, that refreshed mapping is returned. *)
Theorem C9_guild_list_cache w cache guilds :
  session w !! "guilds" = Some cache -> truthy cache = true ->
  guilds_dict cache = inr guilds ->
  let w1 := expiry_checked env (values guilds) w in
  (some_expired env (trace w) (values guilds) = false ->
   get_user_guilds config env w = (inr (Some guilds), w1) /\
   session w1 = session w /\
   count is_network_call (since w w1) = O /\
   (forall key g, (key, g) ∈ guilds ->
      exists items data id,
        py_iter cache = inr items /\ data ∈ items /\
        getitem data "id" = inr id /\ py_int id = inr key /\
        Guild_new data = inr g)) /\
  (some_expired env (trace w) (values guilds) = true ->
   forall tok w2,
     get_token config env w1 = (inr (Some tok), w2) ->
     let w' := snd (get_user_guilds config env w) in
     count is_guild_fetch (since w w') = 1%nat /\
     (forall items,
        guilds_answer env w2 tok = inr (JList items) ->
        Forall is_object items ->
        session w' = <["guilds" := JList (stamped_list env w2 tok items)]> (session w2) /\
        count (is_write "guilds") (since w w') = 1%nat /\
        length (stamped_list env w2 tok items) = length items /\
        Forall2 (fun entry t => getitem entry "fetched_at" = inr (JNum t))
          (stamped_list env w2 tok items)
          (readings env (trace (fetched env w2 tok)) (length items)) /\
        (forall guilds',
           guilds_dict (JList (stamped_list env w2 tok items)) = inr guilds' ->
           fst (get_user_guilds config env w) = inr (Some guilds')))).
Proof.
  intros Hc Ht Hg w1.
  assert (Hrun := get_user_guilds_cached w cache guilds Hc Ht Hg).
  fold w1 in Hrun.
  destruct (expiry_checked_trace (values guilds) w) as [ts Hts]. fold w1 in Hts.
  assert (Hsince : since w w1 = map EvTime ts) by now apply since_app.
  assert (Hses : session w1 = session w) by apply expiry_checked_session.
  split.
  - intros Hfresh. rewrite Hrun, Hfresh. repeat split.
    + exact Hses.
    + rewrite Hsince. now apply count_clock_readings.
    + intros key g Hin. now apply (guilds_dict_elem cache guilds).
  - intros Hexp tok w2 Htok w'.
    assert (Hw' : w' = snd (fetch_user_guilds config env w1)).
    { subst w'. now rewrite Hrun, Hexp. }
    split.
    + destruct (fetch_user_guilds_one_fetch w1 tok w2 Htok) as (evs & Htr & Hf).
      destruct (get_token_trace config env w1) as (tevs & Httr & Htf & _).
      rewrite Htok in Httr. simpl in Httr.
      rewrite (since_app w w' (map EvTime ts
                 ++ tevs
                 ++ [EvRequest "GET" "/users/@me/guilds" (Token_access_token tok)
                       (guilds_answer env w2 tok)]
                 ++ evs)).
      * rewrite !count_app, Htf, Hf, count_clock_readings by reflexivity.
        reflexivity.
      * rewrite Hw', Htr. unfold fetched. simpl. rewrite Httr, Hts.
        now rewrite <- !app_assoc.
    + intros items Hans Hobj.
      assert (Hfetch := fetch_user_guilds_fetched w1 tok w2 items Htok Hans Hobj).
      cbv zeta in Hfetch.
      destruct (fetch_user_guilds_counts w1 tok w2 items Htok Hans Hobj)
        as (evs & Htr & _ & _ & Hw).
      assert (Hsw : since w w' = map EvTime ts ++ evs).
      { apply since_app. rewrite Hw', Htr, Hts. now rewrite <- app_assoc. }
      split; [now rewrite Hw', Hfetch|].
      split; [rewrite Hsw, count_app, Hw, count_clock_readings by reflexivity;
              reflexivity|].
      split; [unfold stamped_list; rewrite length_zip_with, readings_length; lia|].
      split.
      * unfold stamped_list. apply stamped_fetched_at; [assumption|].
        apply readings_length.
      * intros guilds' Hg'. rewrite Hrun, Hexp, Hfetch, Hg'. reflexivity.
Qed.

End GuildListCache.

(** ** The mutual-guild resolver *)

Section Resolver.
Context {objects : Objects} {int : PyInt}.
Variable config : Config.
Variable env : Env.

Lemma get_related_guilds_none w w1 user_id guild_id :
  get_user_guilds config env w = (inr None, w1) ->
  get_related_guilds config env user_id guild_id w = (inr nothing, w1).
Proof.
  intros H. unfold get_related_guilds. now rewrite (bind_ok _ _ _ _ _ H).
Qed.

Lemma get_related_guilds_empty w w1 user_id guild_id :
  get_user_guilds config env w = (inr (Some []), w1) ->
  get_related_guilds config env user_id guild_id w = (inr nothing, w1).
Proof.
  intros H. unfold get_related_guilds. now rewrite (bind_ok _ _ _ _ _ H).
Qed.

Lemma get_related_guilds_some w w1 guilds user_id guild_id :
  get_user_guilds config env w = (inr (Some guilds), w1) -> guilds <> [] ->
  let ids := shared_ids (ipc_answer env w1 user_id) in
  let mutual := filter (fun g => Guild_id g ∈ ids) (values guilds) in
  let non_mutual := filter (fun g => Guild_id g ∉ ids) (values guilds) in
  get_related_guilds config env user_id guild_id w
  = (inr {| mutual_guilds := Some (map Guild_to_dict mutual);
            non_mutual_guilds := Some (map Guild_to_dict non_mutual);
            guild := match requested guild_id with
                     | None => None
                     | Some id => Guild_to_dict <$> utils_get mutual id
                     end |},
     asked env w1 user_id).
Proof.
  intros H Hne ids mutual non_mutual.
  unfold get_related_guilds. rewrite (bind_ok _ _ _ _ _ H).
  destruct guilds as [|kv rest]; [contradiction|].
  unfold bind, ipc_request, ret. fold (ipc_answer env w1 user_id).
  fold (asked env w1 user_id).
  subst mutual non_mutual ids.
  destruct (ipc_answer env w1 user_id) as [[|i ids]|]; reflexivity.
Qed.

Lemma utils_get_some guilds id g :
  utils_get guilds id = Some g -> g ∈ guilds /\ Guild_id g = id.
Proof.
  induction guilds as [|g' rest IH]; simpl; [discriminate|].
  destruct (Z.eqb (Guild_id g') id) eqn:E.
  - intros [= ->]. apply Z.eqb_eq in E. split; [apply list_elem_of_here|exact E].
  - intros H. destruct (IH H) as [Hin Hid].
    split; [now apply list_elem_of_further|exact Hid].
Qed.

(** C5, as the code has it.  For every session with no token whose
    [guilds] field is absent or empty, or holds an expired entry,
    [get_related_guilds] returns the triple with [mutual_guilds],
    [non_mutual_guilds] and [guild] all absent, and performs no IPC call to
    the bot process. *)
Theorem C5_no_token_short_circuit w user_id guild_id :
  session w !! "token" = None ->
  (truthy (default JNull (session w !! "guilds")) = false \/
   exists cache guilds,
     session w !! "guilds" = Some cache /\ truthy cache = true /\
     guilds_dict cache = inr guilds /\
     some_expired env (trace w) (values guilds) = true) ->
  let w' := snd (get_related_guilds config env user_id guild_id w) in
  fst (get_related_guilds config env user_id guild_id w)
  = inr {| mutual_guilds := None; non_mutual_guilds := None; guild := None |} /\
  count is_ipc_call (since w w') = O /\
  count is_network_call (since w w') = O.
Proof.
  intros Hno Hmiss w'.
  destruct (get_user_guilds_no_token config env w Hno) as (Hempty & Hcached).
  destruct Hmiss as [Hfalsy|(cache & guilds & Hc & Ht & Hg & Hexp)].
  - subst w'.
    rewrite (get_related_guilds_none w w) by now apply Hempty.
    cbn [fst snd]. rewrite since_refl. auto.
  - specialize (Hcached cache guilds Hc Ht Hg). rewrite Hexp in Hcached.
    subst w'. rewrite (get_related_guilds_none _ _ _ _ Hcached).
    cbn [fst snd].
    destruct (expiry_checked_trace env (values guilds) w) as [ts Hts].
    rewrite (since_app _ _ _ Hts), !count_clock_readings by reflexivity. auto.
Qed.

(** C6.  For every guild mapping G that the guild list cache yields and
    every mutual-id set M that the IPC call returns, [get_related_guilds]
    partitions G: [mutual_guilds] and [non_mutual_guilds] are the guilds of
    G with their id in M and not in M (both absent, read as empty, when G
    is empty); together they are the guilds of G (as sets, and counted
    with multiplicity), no guild is in both, and each output list follows
    the iteration order of the mapping. *)
Theorem C6_partition w w1 guilds user_id guild_id :
  get_user_guilds config env w = (inr (Some guilds), w1) ->
  let ids := shared_ids (ipc_answer env w1 user_id) in
  let mutual := filter (fun g => Guild_id g ∈ ids) (values guilds) in
  let non_mutual := filter (fun g => Guild_id g ∉ ids) (values guilds) in
  exists r w',
    get_related_guilds config env user_id guild_id w = (inr r, w') /\
    default [] (mutual_guilds r) = map Guild_to_dict mutual /\
    default [] (non_mutual_guilds r) = map Guild_to_dict non_mutual /\
    (guilds <> [] ->
     mutual_guilds r = Some (map Guild_to_dict mutual) /\
     non_mutual_guilds r = Some (map Guild_to_dict non_mutual)) /\
    (forall g, g ∈ values guilds <-> g ∈ mutual \/ g ∈ non_mutual) /\
    (forall g, ~ (g ∈ mutual /\ g ∈ non_mutual)) /\
    mutual ++ non_mutual ≡ₚ values guilds /\
    (forall d, d ∈ map Guild_to_dict (values guilds) <->
               d ∈ map Guild_to_dict mutual \/ d ∈ map Guild_to_dict non_mutual) /\
    ((forall g1 g2, Guild_to_dict g1 = Guild_to_dict g2 -> Guild_id g1 = Guild_id g2) ->
     forall d, ~ (d ∈ map Guild_to_dict mutual /\ d ∈ map Guild_to_dict non_mutual)) /\
    sublist (map Guild_to_dict mutual) (map Guild_to_dict (values guilds)) /\
    sublist (map Guild_to_dict non_mutual) (map Guild_to_dict (values guilds)).
Proof.
  intros Hrun ids mutual non_mutual.
  assert (Hout : exists r w',
    get_related_guilds config env user_id guild_id w = (inr r, w') /\
    default [] (mutual_guilds r) = map Guild_to_dict mutual /\
    default [] (non_mutual_guilds r) = map Guild_to_dict non_mutual /\
    (guilds <> [] ->
     mutual_guilds r = Some (map Guild_to_dict mutual) /\
     non_mutual_guilds r = Some (map Guild_to_dict non_mutual))).
  { destruct guilds as [|kv rest] eqn:Hguilds.
    - exists nothing, w1. split; [now apply get_related_guilds_empty|].
      repeat split; try reflexivity; contradiction.
    - eexists _, _. split.
      { apply (get_related_guilds_some w w1 (kv :: rest)); [assumption|discriminate]. }
      cbn [mutual_guilds non_mutual_guilds default]. auto. }
  destruct Hout as (r & w' & Hr & Hm & Hn & Hsome).
  exists r, w'. split; [exact Hr|]. split; [exact Hm|]. split; [exact Hn|].
  split; [exact Hsome|]. clear r w' Hr Hm Hn Hsome.
  assert (Hsplit : forall g, g ∈ values guilds <-> g ∈ mutual \/ g ∈ non_mutual).
  { intros g. subst mutual non_mutual. rewrite !list_elem_of_filter.
    destruct (decide (Guild_id g ∈ ids)); tauto. }
  assert (Hdisj : forall g, ~ (g ∈ mutual /\ g ∈ non_mutual)).
  { intros g. subst mutual non_mutual. rewrite !list_elem_of_filter. tauto. }
  split; [exact Hsplit|]. split; [exact Hdisj|]. split; [|split; [|split; [|split]]].
  - subst mutual non_mutual. apply (filter_app_complement (fun g => Guild_id g ∈ ids)).
  - intros d.
    change (d ∈ Guild_to_dict <$> values guilds <->
            d ∈ Guild_to_dict <$> mutual \/ d ∈ Guild_to_dict <$> non_mutual).
    rewrite !list_elem_of_fmap. split.
    + intros (g & -> & Hg).
      apply Hsplit in Hg as [Hg|Hg]; [left|right]; eauto.
    + intros [(g & -> & Hg)|(g & -> & Hg)];
        exists g; (split; [reflexivity|]); apply Hsplit; auto.
  - intros Hinj d.
    change (~ (d ∈ Guild_to_dict <$> mutual /\ d ∈ Guild_to_dict <$> non_mutual)).
    rewrite !list_elem_of_fmap. intros [(g1 & -> & H1) (g2 & Heq & H2)].
    subst mutual non_mutual. apply list_elem_of_filter in H1 as [H1 _].
    apply list_elem_of_filter in H2 as [H2 _].
    apply H2. now rewrite <- (Hinj _ _ Heq).
  - change (Guild_to_dict <$> mutual `sublist_of` Guild_to_dict <$> values guilds).
    apply fmap_sublist, sublist_filter.
  - change (Guild_to_dict <$> non_mutual `sublist_of` Guild_to_dict <$> values guilds).
    apply fmap_sublist, sublist_filter.
Qed.

(** C7.  For every call to [get_related_guilds] with a specific
    [guild_id], the lookup is performed only within the mutual set: if the
    requested id is not in the mutual-id set M, also when it is a key of
    the user's guild mapping G, the returned [guild] is absent; [guild] is
    set only to a guild of the mutual partition that has the requested
    id. *)
Theorem C7_lookup_within_mutual w w1 guilds user_id guild_id :
  get_user_guilds config env w = (inr (Some guilds), w1) ->
  let ids := shared_ids (ipc_answer env w1 user_id) in
  let mutual := filter (fun g => Guild_id g ∈ ids) (values guilds) in
  exists r w',
    get_related_guilds config env user_id guild_id w = (inr r, w') /\
    (forall id, guild_id = Some id -> id ∉ ids -> guild r = None) /\
    (forall d, guild r = Some d ->
       exists id g, guild_id = Some id /\ id ∈ ids /\ g ∈ mutual /\
                    Guild_id g = id /\ d = Guild_to_dict g).
Proof.
  intros Hrun ids mutual.
  assert (Hout : exists r w',
    get_related_guilds config env user_id guild_id w = (inr r, w') /\
    (guild r = None \/
     guild r = match requested guild_id with
               | None => None
               | Some id => Guild_to_dict <$> utils_get mutual id
               end)).
  { destruct guilds as [|kv rest] eqn:Hguilds.
    - exists nothing, w1. split; [now apply get_related_guilds_empty|now left].
    - eexists _, _. split.
      { apply (get_related_guilds_some w w1 (kv :: rest)); [assumption|discriminate]. }
      right. reflexivity. }
  destruct Hout as (r & w' & Hr & Hguild).
  exists r, w'. split; [exact Hr|].
  assert (Hset : forall d, guild r = Some d ->
    exists id g, guild_id = Some id /\ id ∈ ids /\ g ∈ mutual /\
                 Guild_id g = id /\ d = Guild_to_dict g).
  { intros d Hd. destruct Hguild as [Hnone|Hlook]; [congruence|].
    rewrite Hlook in Hd.
    destruct guild_id as [id|]; simpl in Hd; [|discriminate].
    destruct (Z.eqb id 0); [discriminate|].
    destruct (utils_get mutual id) as [g|] eqn:Hg; [|discriminate].
    injection Hd as <-. apply utils_get_some in Hg as [Hin Hid].
    exists id, g. repeat split; try assumption.
    subst mutual. apply list_elem_of_filter in Hin as [Hin _]. now rewrite <- Hid. }
  split; [|exact Hset].
  intros id -> Hnot.
  destruct (guild r) as [d|] eqn:Hd; [|reflexivity].
  destruct (Hset d eq_refl) as (id' & g & [= <-] & Hin & _). contradiction.
Qed.

(** C8.  For every logged-in session with a non-empty guild mapping, if
    the IPC request [mutual_guild_ids] returns no answer, then
    [get_related_guilds] does not raise: the mutual-id set counts as empty,
    [mutual_guilds] is the empty list and every guild of the mapping is in
    [non_mutual_guilds], in the order of the mapping. *)
Theorem C8_no_answer_degrades w w1 guilds user_id guild_id :
  get_user_guilds config env w = (inr (Some guilds), w1) -> guilds <> [] ->
  ipc_answer env w1 user_id = None ->
  get_related_guilds config env user_id guild_id w
  = (inr {| mutual_guilds := Some [];
            non_mutual_guilds := Some (map Guild_to_dict (values guilds));
            guild := None |},
     asked env w1 user_id).
Proof.
  intros Hrun Hne Hans.
  rewrite (get_related_guilds_some w w1 guilds) by assumption.
  rewrite Hans. change (shared_ids None) with (@nil Z).
  assert (Hm : filter (fun g => Guild_id g ∈ []) (values guilds) = []).
  { induction (values guilds) as [|g rest IH]; [reflexivity|].
    rewrite filter_cons_False; [exact IH|]. apply not_elem_of_nil. }
  assert (Hn : filter (fun g => Guild_id g ∉ []) (values guilds) = values guilds).
  { induction (values guilds) as [|g rest IH]; [reflexivity|].
    rewrite filter_cons_True; [now rewrite IH|]. apply not_elem_of_nil. }
  rewrite Hm, Hn. simpl. now destruct (requested guild_id).
Qed.

(** One request of a logged-in user whose guild list comes back empty. *)
Lemma zero_guilds_call w d tok user_id guild_id :
  session w !! "token" = Some d -> truthy d = true ->
  Token_new d = inr tok ->
  (forall tr, Token_is_expired tok (clock env tr) = false) ->
  (forall tr, discord_api env tr "GET" "/users/@me/guilds" (Token_access_token tok)
              = inr (JList [])) ->
  (truthy (default JNull (session w !! "guilds")) = false \/
   exists cache guilds,
     session w !! "guilds" = Some cache /\ truthy cache = true /\
     guilds_dict cache = inr guilds /\
     some_expired env (trace w) (values guilds) = true) ->
  exists evs,
    get_related_guilds config env user_id guild_id w
    = (inr nothing,
       {| session := <["guilds" := JList []]> (session w); trace := trace w ++ evs |}) /\
    count is_ipc_call evs = O /\ count is_guild_fetch evs = 1%nat.
Proof.
  intros Hd Ht Hn Hvalid Hlist Hmiss.
  assert (Hstart : exists wx ts,
    get_user_guilds config env w = fetch_user_guilds config env wx /\
    session wx = session w /\ trace wx = trace w ++ map EvTime ts).
  { destruct Hmiss as [Hfalsy|(cache & guilds & Hc & Htc & Hg & Hexp)].
    - exists w, []. split; [now apply get_user_guilds_miss|].
      simpl. now rewrite app_nil_r.
    - destruct (expiry_checked_trace env (values guilds) w) as [ts Hts].
      exists (expiry_checked env (values guilds) w), ts.
      rewrite (get_user_guilds_cached config env w cache guilds) by assumption.
      rewrite Hexp. split; [reflexivity|].
      split; [apply expiry_checked_session|exact Hts]. }
  destruct Hstart as (wx & ts & Hrun & Hses & Htr).
  assert (Htok : get_token config env wx = (inr (Some tok), checked env wx)).
  { apply (get_token_hit config env wx d tok); try assumption.
    - now rewrite Hses.
    - apply Hvalid. }
  assert (Hfetch := fetch_user_guilds_fetched config env wx tok (checked env wx) []
                      Htok (Hlist _) (List.Forall_nil _)).
  cbv zeta in Hfetch. change (stamped_list env (checked env wx) tok []) with (@nil json) in Hfetch.
  change (guilds_dict (JList [])) with (@inr exn (list (Z * Guild)) []) in Hfetch.
  cbv iota beta in Hfetch. rewrite <- Hrun in Hfetch.
  rewrite (get_related_guilds_empty _ _ _ _ Hfetch).
  unfold fetched, checked. simpl. rewrite Hses, Htr, <- !app_assoc.
  eexists. split; [reflexivity|].
  rewrite !count_app, !count_clock_readings by reflexivity.
  simpl. auto.
Qed.

Lemma zero_guilds_calls d tok user_id guild_id :
  truthy d = true -> Token_new d = inr tok ->
  (forall tr, Token_is_expired tok (clock env tr) = false) ->
  (forall tr, discord_api env tr "GET" "/users/@me/guilds" (Token_access_token tok)
              = inr (JList [])) ->
  forall n w,
  session w !! "token" = Some d ->
  (truthy (default JNull (session w !! "guilds")) = false \/
   exists cache guilds,
     session w !! "guilds" = Some cache /\ truthy cache = true /\
     guilds_dict cache = inr guilds /\
     some_expired env (trace w) (values guilds) = true) ->
  exists w' evs,
    repeat_related_guilds config env user_id guild_id n w
    = (inr (replicate n nothing), w') /\
    trace w' = trace w ++ evs /\
    count is_ipc_call evs = O /\ count is_guild_fetch evs = n /\
    (n <> O -> session w' !! "guilds" = Some (JList [])).
Proof.
  intros Ht Hn Hvalid Hlist.
  induction n as [|n IH]; intros w Hd Hmiss.
  - exists w, []. simpl. unfold ret. rewrite app_nil_r. repeat split. congruence.
  - destruct (zero_guilds_call w d tok user_id guild_id Hd Ht Hn Hvalid Hlist Hmiss)
      as (evs1 & Hcall & Hi1 & Hf1).
    set (w1 := {| session := <["guilds" := JList []]> (session w);
                  trace := trace w ++ evs1 |}) in *.
    assert (Hd1 : session w1 !! "token" = Some d).
    { subst w1. simpl. now rewrite lookup_insert_ne. }
    assert (Hg1 : session w1 !! "guilds" = Some (JList [])).
    { subst w1. simpl. now rewrite lookup_insert_eq. }
    destruct (IH w1 Hd1) as (w' & evs & Hrun & Htr & Hi & Hf & Hlast).
    { left. now rewrite Hg1. }
    exists w', (evs1 ++ evs).
    simpl. rewrite (bind_ok _ _ _ _ _ Hcall), (bind_ok _ _ _ _ _ Hrun).
    unfold ret. repeat split.
    + rewrite Htr. subst w1. simpl. now rewrite <- app_assoc.
    + now rewrite count_app, Hi1, Hi.
    + now rewrite count_app, Hf1, Hf.
    + intros _. destruct n as [|n]; [|now apply Hlast].
      simpl in Hrun. unfold ret in Hrun. injection Hrun as <-. exact Hg1.
Qed.

(** C10.  For every logged-in session (a stored token that is not expired)
    whose guild list fetch returns the empty list, [get_related_guilds]
    returns the triple with all three fields absent, the very answer given
    to a session that holds nothing, and performs no IPC call; the empty
    list it caches is a cache miss again on every later call: [n] calls in
    a row make [n] fetches of the guild list. *)
Theorem C10_zero_guilds_like_logged_out w d tok user_id guild_id :
  session w !! "token" = Some d -> truthy d = true ->
  Token_new d = inr tok ->
  (forall tr, Token_is_expired tok (clock env tr) = false) ->
  (forall tr, discord_api env tr "GET" "/users/@me/guilds" (Token_access_token tok)
              = inr (JList [])) ->
  (truthy (default JNull (session w !! "guilds")) = false \/
   exists cache guilds,
     session w !! "guilds" = Some cache /\ truthy cache = true /\
     guilds_dict cache = inr guilds /\
     some_expired env (trace w) (values guilds) = true) ->
  fst (get_related_guilds config env user_id guild_id w)
  = inr {| mutual_guilds := None; non_mutual_guilds := None; guild := None |} /\
  fst (get_related_guilds config env user_id guild_id w)
  = fst (get_related_guilds config env user_id guild_id
           {| session := ∅; trace := trace w |}) /\
  forall n,
    let run := repeat_related_guilds config env user_id guild_id n w in
    fst run = inr (replicate n nothing) /\
    count is_ipc_call (since w (snd run)) = O /\
    count is_guild_fetch (since w (snd run)) = n /\
    (n <> O -> session (snd run) !! "guilds" = Some (JList [])).
Proof.
  intros Hd Ht Hn Hvalid Hlist Hmiss.
  destruct (zero_guilds_call w d tok user_id guild_id Hd Ht Hn Hvalid Hlist Hmiss)
    as (evs1 & Hcall & _).
  split; [now rewrite Hcall|]. split.
  - rewrite Hcall.
    destruct (get_user_guilds_no_token config env {| session := ∅; trace := trace w |})
      as [Hnone _]; [apply lookup_empty|].
    rewrite (get_related_guilds_none _ _ _ _ (Hnone eq_refl)). reflexivity.
  - intros n run.
    destruct (zero_guilds_calls d tok user_id guild_id Ht Hn Hvalid Hlist n w Hd Hmiss)
      as (w' & evs & Hrun & Htr & Hi & Hf & Hlast).
    subst run. rewrite Hrun. cbn [fst snd].
    rewrite (since_app _ _ _ Htr). auto.
Qed.

End Resolver.

(** ** Journals *)

Section Journals.
Context {objects : Objects} {int : PyInt}.
Variable config : Config.
Variable env : Env.

Lemma replay_app s (evs1 evs2 : list event) :
  replay s (evs1 ++ evs2) = replay (replay s evs1) evs2.
Proof.
  revert s. induction evs1 as [|e evs1 IH]; intros s; [reflexivity|].
  destruct e; simpl; apply IH.
Qed.

(** A field that no journaled event may write keeps its value. *)
Lemma replay_frame (P : event -> Prop) key (evs : list event) : forall s,
  Forall P evs -> (forall v, ~ P (EvSessionSet key v)) ->
  replay s evs !! key = s !! key.
Proof.
  induction evs as [|e evs IH]; intros s Hall Hkey; [reflexivity|].
  inversion Hall as [|? ? He Hrest]; subst.
  destruct e as [| | | |k v]; simpl; try (now apply IH).
  rewrite IH by assumption.
  apply lookup_insert_ne. intros ->. exact (Hkey v He).
Qed.

Lemma journaled_weaken {A : Type} (P Q : event -> Prop) (m : M A) :
  (forall e, P e -> Q e) -> journaled P m -> journaled Q m.
Proof.
  intros HPQ Hm w. destruct (Hm w) as (evs & Htr & Hs & Hall).
  exists evs. repeat split; try assumption.
  eapply Forall_impl; eauto.
Qed.

Lemma journaled_silent {A : Type} (P : event -> Prop) (m : M A) :
  (forall w, snd (m w) = w) -> journaled P m.
Proof.
  intros H w. exists []. rewrite H, app_nil_r. repeat split. constructor.
Qed.

Lemma journaled_ret {A : Type} P (a : A) : journaled P (ret a).
Proof. now apply journaled_silent. Qed.

Lemma journaled_raise {A : Type} P e : journaled P (@raise A e).
Proof. now apply journaled_silent. Qed.

Lemma journaled_lift {A : Type} P (r : exn + A) : journaled P (lift r).
Proof. now apply journaled_silent. Qed.

Lemma journaled_session_get P key : journaled P (session_get key).
Proof. now apply journaled_silent. Qed.

Lemma journaled_response_json P r : journaled P (response_json r).
Proof. unfold response_json. destruct (body r); now apply journaled_silent. Qed.

Lemma journaled_emit {A : Type} (P : event -> Prop) (m : M A) (e : World -> event) :
  (forall w, snd (m w) = emit (e w) w) ->
  (forall w, P (e w)) ->
  (forall w key v, e w <> EvSessionSet key v) ->
  journaled P m.
Proof.
  intros Hm HP Hno w. exists [e w]. rewrite Hm. simpl.
  repeat split; [|now repeat constructor].
  destruct (e w) eqn:E; try reflexivity. now destruct (Hno w key v).
Qed.

Lemma journaled_time_time (P : event -> Prop) :
  (forall t, P (EvTime t)) -> journaled P (time_time env).
Proof.
  intros HP. apply (journaled_emit P _ (fun w => EvTime (clock env (trace w))));
    [reflexivity|intros; apply HP|discriminate].
Qed.

Lemma journaled_session_post (P : event -> Prop) url data headers :
  (forall r, P (EvPost url data headers r)) ->
  journaled P (session_post env url data headers).
Proof.
  intros HP.
  apply (journaled_emit P _
           (fun w => EvPost url data headers (oauth_provider env (trace w) url data)));
    [reflexivity|intros; apply HP|discriminate].
Qed.

Lemma journaled_http_request (P : event -> Prop) method path token :
  (forall r, P (EvRequest method path token r)) ->
  journaled P (http_request env method path token).
Proof.
  intros HP.
  apply (journaled_emit P _
           (fun w => EvRequest method path token
                       (discord_api env (trace w) method path token)));
    [reflexivity|intros; apply HP|discriminate].
Qed.

Lemma journaled_ipc_request (P : event -> Prop) endpoint user_id :
  (forall r, P (EvIpc endpoint user_id r)) ->
  journaled P (ipc_request env endpoint user_id).
Proof.
  intros HP.
  apply (journaled_emit P _
           (fun w => EvIpc endpoint user_id (bot_ipc env (trace w) endpoint user_id)));
    [reflexivity|intros; apply HP|discriminate].
Qed.

Lemma journaled_session_set (P : event -> Prop) key v :
  P (EvSessionSet key v) -> journaled P (session_set key v).
Proof.
  intros HP w. exists [EvSessionSet key v]. simpl.
  repeat split. now repeat constructor.
Qed.

Lemma journaled_bind {A B : Type} P (m : M A) (k : A -> M B) :
  journaled P m -> (forall a, journaled P (k a)) -> journaled P (bind m k).
Proof.
  intros Hm Hk w. unfold bind.
  destruct (Hm w) as (evs1 & Htr1 & Hs1 & Hall1).
  destruct (m w) as [[e|a] w1]; simpl in *.
  - exists evs1. auto.
  - destruct (Hk a w1) as (evs2 & Htr2 & Hs2 & Hall2).
    exists (evs1 ++ evs2).
    rewrite Htr2, Htr1, Hs2, Hs1, replay_app, <- app_assoc.
    repeat split. now apply Forall_app.
Qed.

Lemma journaled_is_expired {T : Type} (P : event -> Prop)
  (expired_at : T -> Z -> bool) obj :
  (forall t, P (EvTime t)) -> journaled P (is_expired env expired_at obj).
Proof.
  intros HP. unfold is_expired.
  apply journaled_bind; [now apply journaled_time_time|].
  intros t. apply journaled_ret.
Qed.

End Journals.

(** Splits a computation into its steps, down to the calls it makes. *)
Ltac journal :=
  repeat first
    [ apply journaled_ret | apply journaled_raise | apply journaled_lift
    | apply journaled_session_get | apply journaled_response_json
    | apply journaled_time_time; now intros
    | apply journaled_session_post; intros; simpl; now auto
    | apply journaled_http_request; intros; simpl; now auto
    | apply journaled_ipc_request; intros; simpl; now auto
    | apply journaled_session_set; simpl; now auto
    | apply journaled_bind; [|intros ?]
    | match goal with
      | |- journaled _ (if ?b then _ else _) => destruct b
      | |- journaled _ (match ?x with _ => _ end) => destruct x
      end ].

Section FunctionJournals.
Context {objects : Objects} {int : PyInt}.
Variable config : Config.
Variable env : Env.

Lemma get_token_journaled : journaled token_event (get_token config env).
Proof. unfold get_token. journal. Qed.

Lemma fetch_user_journaled : journaled user_event (fetch_user config env).
Proof. unfold fetch_user. journal. Qed.

Lemma get_user_journaled : journaled user_event (get_user config env).
Proof. unfold get_user. journal. Qed.

Lemma stamp_each_journaled (P : event -> Prop) items :
  (forall t, P (EvTime t)) -> journaled P (stamp_each env items).
Proof.
  intros HP. induction items as [|d rest IH]; simpl; journal. exact IH.
Qed.

Lemma fetch_user_guilds_journaled :
  journaled guilds_event (fetch_user_guilds config env).
Proof.
  unfold fetch_user_guilds, stamp_all. journal.
  apply stamp_each_journaled. now intros.
Qed.

Lemma any_expired_journaled (P : event -> Prop) guilds :
  (forall t, P (EvTime t)) -> journaled P (any_expired env guilds).
Proof.
  intros HP. induction guilds as [|g rest IH]; simpl; journal. exact IH.
Qed.

Lemma get_user_guilds_journaled :
  journaled guilds_event (get_user_guilds config env).
Proof.
  unfold get_user_guilds. journal;
    first [apply fetch_user_guilds_journaled
          |apply any_expired_journaled; now intros
          |apply stamp_each_journaled; now intros].
Qed.

Lemma get_related_guilds_journaled user_id guild_id :
  journaled (related_event user_id)
    (get_related_guilds config env user_id guild_id).
Proof.
  unfold get_related_guilds. cbv zeta. journal;
    first [apply any_expired_journaled; now intros
          |apply stamp_each_journaled; now intros].
Qed.

End FunctionJournals.

(** ** What the token manager and the caches do and never do *)

Section Behaviour.
Context {objects : Objects} {int : PyInt}.
Variable config : Config.
Variable env : Env.

Lemma journaled_since {A : Type} (P : event -> Prop) (m : M A) w :
  journaled P m ->
  trace (snd (m w)) = trace w ++ since w (snd (m w)) /\
  session (snd (m w)) = replay (session w) (since w (snd (m w))) /\
  Forall P (since w (snd (m w))).
Proof.
  intros Hm. destruct (Hm w) as (evs & Htr & Hs & Hall).
  rewrite (since_app _ _ _ Htr). auto.
Qed.

Lemma count_none (P : event -> Prop) p (evs : list event) :
  Forall P evs -> (forall e, P e -> p e = false) -> count p evs = O.
Proof.
  intros Hall Hp. induction Hall as [|e evs He _ IH]; simpl; [reflexivity|].
  now rewrite (Hp e He).
Qed.

Lemma token_event_not_fetch e : token_event e -> is_guild_fetch e = false.
Proof. destruct e; simpl; tauto. Qed.

Lemma token_event_not_ipc e : token_event e -> is_ipc_call e = false.
Proof. destruct e; simpl; tauto. Qed.

Lemma user_event_not_ipc e : user_event e -> is_ipc_call e = false.
Proof. destruct e; simpl; tauto. Qed.

Lemma user_event_not_fetch e : user_event e -> is_guild_fetch e = false.
Proof.
  destruct e; simpl; try tauto. intros [-> ->]. reflexivity.
Qed.

Lemma guilds_event_not_ipc e : guilds_event e -> is_ipc_call e = false.
Proof. destruct e; simpl; tauto. Qed.

(** X1.  The token manager keeps to itself: in every run, returning or
    raising, it only reads the clock, calls the OAuth token endpoint and
    writes the [token] field; every other field of the session keeps its
    value, and neither the identity endpoint nor the bot is contacted. *)
Theorem get_token_confined w :
  let w' := snd (get_token config env w) in
  trace w' = trace w ++ since w w' /\
  Forall token_event (since w w') /\
  count is_guild_fetch (since w w') = O /\
  count is_ipc_call (since w w') = O /\
  (forall key, key <> "token" -> session w' !! key = session w !! key).
Proof.
  intros w'.
  destruct (journaled_since token_event (get_token config env) w
              (get_token_journaled config env)) as (Htr & Hs & Hall).
  fold w' in Htr, Hs, Hall.
  split; [exact Htr|]. split; [exact Hall|].
  split; [exact (count_none _ _ _ Hall token_event_not_fetch)|].
  split; [exact (count_none _ _ _ Hall token_event_not_ipc)|].
  intros key Hkey. rewrite Hs.
  apply (replay_frame token_event); [exact Hall|].
  intros v Hv. now apply Hkey.
Qed.

(** X2.  Each cache layer touches only its own field and the token: in every
    run, [get_user] leaves every field but [token] and [user] as it was
    and [get_user_guilds] every field but [token] and [guilds]; neither
    contacts the bot, and [get_user] never fetches the guild list. *)
Theorem cache_layers_confined w :
  (let w' := snd (get_user config env w) in
   Forall user_event (since w w') /\
   count is_ipc_call (since w w') = O /\
   count is_guild_fetch (since w w') = O /\
   (forall key, key <> "token" -> key <> "user" ->
                session w' !! key = session w !! key)) /\
  (let w' := snd (get_user_guilds config env w) in
   Forall guilds_event (since w w') /\
   count is_ipc_call (since w w') = O /\
   (forall key, key <> "token" -> key <> "guilds" ->
                session w' !! key = session w !! key)).
Proof.
  split; intros w'.
  - destruct (journaled_since user_event (get_user config env) w
                (get_user_journaled config env)) as (Htr & Hs & Hall).
    fold w' in Htr, Hs, Hall.
    split; [exact Hall|].
    split; [exact (count_none _ _ _ Hall user_event_not_ipc)|].
    split; [exact (count_none _ _ _ Hall user_event_not_fetch)|].
    intros key Ht Hu. rewrite Hs.
    apply (replay_frame user_event); [exact Hall|].
    intros v [Hv|Hv]; auto.
  - destruct (journaled_since guilds_event (get_user_guilds config env) w
                (get_user_guilds_journaled config env)) as (Htr & Hs & Hall).
    fold w' in Htr, Hs, Hall.
    split; [exact Hall|].
    split; [exact (count_none _ _ _ Hall guilds_event_not_ipc)|].
    intros key Ht Hg. rewrite Hs.
    apply (replay_frame guilds_event); [exact Hall|].
    intros v [Hv|Hv]; auto.
Qed.

(** X3.  The bot is asked exactly once when the resolver returns the two lists,
    and never otherwise: not when the triple is all absent, not when an
    exception of the layers below propagates.  Every question is
    [mutual_guild_ids] for the given user, and no field of the session but
    [token] and [guilds] is ever changed. *)
Theorem get_related_guilds_asks_once w user_id guild_id :
  let run := get_related_guilds config env user_id guild_id w in
  count is_ipc_call (since w (snd run))
  = match fst run with
    | inr r => match mutual_guilds r with Some _ => 1%nat | None => O end
    | inl _ => O
    end /\
  Forall (related_event user_id) (since w (snd run)) /\
  (forall key, key <> "token" -> key <> "guilds" ->
               session (snd run) !! key = session w !! key).
Proof.
  intros run.
  destruct (journaled_since (related_event user_id)
              (get_related_guilds config env user_id guild_id) w
              (get_related_guilds_journaled config env user_id guild_id))
    as (Htr & Hs & Hall).
  fold run in Htr, Hs, Hall.
  split; [|split; [exact Hall|]].
  - destruct (journaled_since guilds_event (get_user_guilds config env) w
                (get_user_guilds_journaled config env)) as (Htr1 & _ & Hall1).
    assert (Hnone := count_none _ _ _ Hall1 guilds_event_not_ipc).
    subst run.
    destruct (get_user_guilds config env w) as [[e|[guilds|]] w1] eqn:Hrun;
      simpl in Htr1, Hnone.
    + unfold get_related_guilds. rewrite (bind_err _ _ _ _ _ Hrun). exact Hnone.
    + destruct guilds as [|kv rest].
      * rewrite (get_related_guilds_empty _ _ _ _ _ _ Hrun). exact Hnone.
      * rewrite (get_related_guilds_some config env w w1 (kv :: rest))
          by (assumption || discriminate).
        cbn [fst snd mutual_guilds].
        rewrite (since_app w _ (since w w1 ++
                   [EvIpc "mutual_guild_ids" user_id (ipc_answer env w1 user_id)])).
        { rewrite count_app, Hnone. reflexivity. }
        unfold asked. simpl. rewrite Htr1 at 1. now rewrite <- app_assoc.
    + rewrite (get_related_guilds_none _ _ _ _ _ _ Hrun). exact Hnone.
  - intros key Ht Hg. rewrite Hs.
    apply (replay_frame (related_event user_id)); [exact Hall|].
    intros v [Hv|Hv]; auto.
Qed.

(** X4.  A refreshed token is served from the session afterwards: after a
    successful refresh that stored a non-empty record, the next [get_token]
    (the new token not being expired when the clock is read) returns the
    same [Token] at the cost of one clock reading, with no network call. *)
Theorem get_token_refresh_then_hit w d tok d' e tok' :
  session w !! "token" = Some d -> truthy d = true ->
  Token_new d = inr tok ->
  Token_is_expired tok (clock env (trace w)) = true ->
  status (refresh_answer config env w tok) = 200 ->
  body (refresh_answer config env w tok) = Some d' ->
  dict_get d' "error" = inr e -> truthy e = false ->
  truthy d' = true -> Token_new d' = inr tok' ->
  let w1 := snd (get_token config env w) in
  Token_is_expired tok' (clock env (trace w1)) = false ->
  fst (get_token config env w) = inr (Some tok') /\
  get_token config env w1 = (inr (Some tok'), checked env w1) /\
  count is_network_call (since w1 (checked env w1)) = O.
Proof.
  intros Hd Ht Hn He Hs Hb Hg Hte Htd' Hn' w1 Hfresh.
  assert (Hrun := get_token_refreshed config env w d tok d' e Hd Ht Hn He Hs Hb Hg Hte).
  rewrite Hn' in Hrun.
  assert (Hw1 : session w1 !! "token" = Some d').
  { subst w1. rewrite Hrun. simpl. apply lookup_insert_eq. }
  split; [now rewrite Hrun|]. split.
  - now apply (get_token_hit config env w1 d' tok').
  - unfold checked. now rewrite since_emit.
Qed.

(** X5.  A 200 answer that cannot be read raises before anything is stored.
    When [response.json()] raises, [get_token] raises that exception
    ([ContentTypeError] for a content type that is not JSON,
    [JSONDecodeError] for a text that does not parse); when it returns a
    value that is not an object ([None] for an empty text included),
    [data.get] raises [AttributeError].  In each case the refresh call was
    made once and the session, stale token included, is as it was. *)
Theorem get_token_unreadable_answer w d tok :
  session w !! "token" = Some d -> truthy d = true ->
  Token_new d = inr tok ->
  Token_is_expired tok (clock env (trace w)) = true ->
  status (refresh_answer config env w tok) = 200 ->
  (body (refresh_answer config env w tok) = None ->
   get_token config env w =
     (inl (json_error (refresh_answer config env w tok)), refreshed config env w tok) /\
   (unreadable (refresh_answer config env w tok) = NotJsonContent ->
    fst (get_token config env w) = inl ContentTypeError) /\
   (unreadable (refresh_answer config env w tok) = MalformedJson ->
    fst (get_token config env w) = inl JSONDecodeError)) /\
  (forall d', body (refresh_answer config env w tok) = Some d' -> ~ is_object d' ->
   get_token config env w = (inl AttributeError, refreshed config env w tok)) /\
  session (refreshed config env w tok) = session w /\
  count is_refresh_call (since w (refreshed config env w tok)) = 1%nat.
Proof.
  intros Hd Ht Hn He Hs.
  split; [|split; [|split]].
  - intros Hb.
    assert (Hrun : get_token config env w =
      (inl (json_error (refresh_answer config env w tok)), refreshed config env w tok)).
    { unfold get_token, bind, session_get, lift, is_expired, time_time, ret,
        session_post, raise, response_json.
      rewrite Hd. simpl. rewrite Ht. simpl. rewrite Hn, He.
      fold (checked env w); fold (refresh_answer config env w tok).
      rewrite Hs, Hb. reflexivity. }
    split; [exact Hrun|].
    rewrite Hrun. unfold json_error. simpl.
    split; intros Hu; now rewrite Hu.
  - intros d' Hb Hobj.
    unfold get_token, bind, session_get, lift, is_expired, time_time, ret,
      session_post, raise, response_json.
    rewrite Hd. simpl. rewrite Ht. simpl. rewrite Hn, He.
    fold (checked env w); fold (refresh_answer config env w tok).
    rewrite Hs, Hb. simpl.
    destruct d'; try reflexivity. now destruct Hobj.
  - reflexivity.
  - rewrite (since_app w _
      [EvTime (clock env (trace w));
       EvPost refresh_url (refresh_data config tok) refresh_headers
         (refresh_answer config env w tok)]); [reflexivity|].
    unfold refreshed, checked. simpl. now rewrite <- app_assoc.
Qed.

(** X6.  A 200 answer with the empty object logs the session out: the empty
    object has no [error], so it is stored as the [token]; being empty it
    counts as no token from then on, and later calls return absent without
    asking the provider again. *)
Theorem get_token_empty_answer_logs_out w d tok :
  session w !! "token" = Some d -> truthy d = true ->
  Token_new d = inr tok ->
  Token_is_expired tok (clock env (trace w)) = true ->
  status (refresh_answer config env w tok) = 200 ->
  body (refresh_answer config env w tok) = Some (JObj []) ->
  let w1 := snd (get_token config env w) in
  session w1 !! "token" = Some (JObj []) /\
  get_token config env w1 = (inr None, w1) /\
  fetch_user config env w1 = (inr None, w1) /\
  fetch_user_guilds config env w1 = (inr None, w1).
Proof.
  intros Hd Ht Hn He Hs Hb w1.
  assert (Hrun := get_token_refreshed config env w d tok (JObj []) JNull
                    Hd Ht Hn He Hs Hb eq_refl eq_refl).
  assert (Hw1 : session w1 !! "token" = Some (JObj [])).
  { subst w1. rewrite Hrun. simpl. apply lookup_insert_eq. }
  assert (Hnone : get_token config env w1 = (inr None, w1)).
  { apply get_token_no_token. now rewrite Hw1. }
  split; [exact Hw1|]. split; [exact Hnone|]. split.
  - now apply fetch_user_no_token.
  - now apply fetch_user_guilds_no_token.
Qed.

Lemma since_trans w w1 w' :
  (exists a, trace w1 = trace w ++ a) -> (exists b, trace w' = trace w1 ++ b) ->
  since w w' = since w w1 ++ since w1 w'.
Proof.
  intros [a Ha] [b Hb].
  rewrite (since_app _ _ _ Ha), (since_app _ _ _ Hb).
  apply since_app. now rewrite Hb, Ha, <- app_assoc.
Qed.

Lemma get_token_frame w key :
  key <> "token" ->
  session (snd (get_token config env w)) !! key = session w !! key.
Proof.
  intros Hkey.
  destruct (get_token_journaled config env w) as (evs & _ & Hs & Hall).
  rewrite Hs. apply (replay_frame token_event); [exact Hall|].
  intros v Hv. now apply Hkey.
Qed.

Lemma get_token_grows w : exists evs,
  trace (snd (get_token config env w)) = trace w ++ evs /\ Forall token_event evs.
Proof.
  destruct (get_token_journaled config env w) as (evs & Htr & _ & Hall). eauto.
Qed.

Lemma assoc_set_nonempty {V : Type} (kvs : list (string * V)) k v :
  assoc_set kvs k v <> [].
Proof. destruct kvs as [|[k' v'] rest]; simpl; [|destruct (String.eqb k k')]; discriminate. Qed.

Lemma stamped_truthy d t : is_object d -> truthy (stamped d t) = true.
Proof.
  destruct d; try contradiction. intros _. simpl.
  destruct (assoc_set kvs "fetched_at" (JNum t)) eqn:E; [|reflexivity].
  now apply assoc_set_nonempty in E.
Qed.

Lemma setitem_stamped d t :
  is_object d -> setitem d "fetched_at" (JNum t) = inr (stamped d t).
Proof. destruct d; try contradiction. reflexivity. Qed.

Lemma fetch_user_fetched w tok w1 d :
  get_token config env w = (inr (Some tok), w1) ->
  user_answer env w1 tok = inr d -> is_object d ->
  let w2 := user_fetched env w1 tok in
  let t := clock env (trace w2) in
  fetch_user config env w
  = (match User_new (stamped d t) with inl e => inl e | inr u => inr (Some u) end,
     {| session := <["user" := stamped d t]> (session w1);
        trace := trace w2 ++ [EvTime t; EvSessionSet "user" (stamped d t)] |}).
Proof.
  intros Htok Hans Hobj w2 t.
  unfold fetch_user. rewrite (bind_ok _ _ _ _ _ Htok).
  unfold bind at 1. unfold http_request. fold (user_answer env w1 tok).
  fold (user_fetched env w1 tok). fold w2. rewrite Hans.
  unfold bind, time_time, lift, session_set, ret. fold t.
  rewrite (setitem_stamped d t Hobj). simpl.
  rewrite <- app_assoc. simpl.
  destruct (User_new (stamped d t)); reflexivity.
Qed.

(** X7.  A fetched profile is stamped, stored and served from the session
    afterwards: when the token manager yields a token and the identity
    endpoint answers with an object, [fetch_user] makes that one request,
    stamps the answer with the clock reading taken after it, writes it to
    [user] and returns the [User] built from it; a [get_user] that follows
    (the user not being expired when the clock is read) returns the same
    [User] with no request at all. *)
Theorem fetch_user_then_hit w tok w1 d u :
  get_token config env w = (inr (Some tok), w1) ->
  user_answer env w1 tok = inr d -> is_object d ->
  let t := clock env (trace (user_fetched env w1 tok)) in
  User_new (stamped d t) = inr u ->
  let w' := snd (fetch_user config env w) in
  fst (fetch_user config env w) = inr (Some u) /\
  session w' = <["user" := stamped d t]> (session w1) /\
  since w1 w'
  = [EvRequest "GET" "/users/@me" (Token_access_token tok) (inr d);
     EvTime t; EvSessionSet "user" (stamped d t)] /\
  getitem (stamped d t) "fetched_at" = inr (JNum t) /\
  (User_is_expired u (clock env (trace w')) = false ->
   get_user config env w' = (inr (Some u), checked env w') /\
   count is_network_call (since w' (checked env w')) = O).
Proof.
  intros Htok Hans Hobj t Hu w'.
  assert (Hrun := fetch_user_fetched w tok w1 d Htok Hans Hobj).
  cbv zeta in Hrun. fold t in Hrun. rewrite Hu in Hrun.
  subst w'. rewrite Hrun. cbn [fst snd session].
  split; [reflexivity|]. split; [reflexivity|]. split.
  { apply since_app. unfold user_fetched. simpl. rewrite Hans.
    now rewrite <- app_assoc. }
  split.
  { destruct d; try contradiction. simpl. now rewrite assoc_get_set. }
  intros Hfresh.
  set (w' := {| session := <["user" := stamped d t]> (session w1);
                trace := trace (user_fetched env w1 tok)
                         ++ [EvTime t; EvSessionSet "user" (stamped d t)] |}) in *.
  split.
  - rewrite (get_user_cached config env w' (stamped d t) u).
    + now rewrite Hfresh.
    + subst w'. simpl. apply lookup_insert_eq.
    + now apply stamped_truthy.
    + exact Hu.
  - unfold checked. now rewrite since_emit.
Qed.

Lemma fetch_user_carries w tok w1 :
  get_token config env w = (inr (Some tok), w1) ->
  Forall (carries (Token_access_token tok)) (since w (snd (fetch_user config env w))).
Proof.
  intros Htok.
  destruct (get_token_grows w) as (evs1 & Htr1 & Hall1).
  rewrite Htok in Htr1. simpl in Htr1.
  unfold fetch_user. rewrite (bind_ok _ _ _ _ _ Htok).
  match goal with |- Forall _ (since w (snd (?k w1))) =>
    assert (Hk : journaled (carries (Token_access_token tok)) k) by journal;
    destruct (Hk w1) as (evs2 & Htr2 & _ & Hall2)
  end.
  rewrite (since_trans w w1) by eauto.
  apply Forall_app. split.
  - rewrite (since_app _ _ _ Htr1).
    eapply Forall_impl; [exact Hall1|]. intros []; simpl; tauto.
  - now rewrite (since_app _ _ _ Htr2).
Qed.

Lemma fetch_user_guilds_carries w tok w1 :
  get_token config env w = (inr (Some tok), w1) ->
  Forall (carries (Token_access_token tok))
    (since w (snd (fetch_user_guilds config env w))).
Proof.
  intros Htok.
  destruct (get_token_grows w) as (evs1 & Htr1 & Hall1).
  rewrite Htok in Htr1. simpl in Htr1.
  unfold fetch_user_guilds. rewrite (bind_ok _ _ _ _ _ Htok).
  match goal with |- Forall _ (since w (snd (?k w1))) =>
    assert (Hk : journaled (carries (Token_access_token tok)) k)
      by (unfold stamp_all; journal; apply stamp_each_journaled; now intros);
    destruct (Hk w1) as (evs2 & Htr2 & _ & Hall2)
  end.
  rewrite (since_trans w w1) by eauto.
  apply Forall_app. split.
  - rewrite (since_app _ _ _ Htr1).
    eapply Forall_impl; [exact Hall1|]. intros []; simpl; tauto.
  - now rewrite (since_app _ _ _ Htr2).
Qed.

(** X8.  No identity request goes out with a stale access token: when the
    stored token is expired and the refresh succeeds, every request that
    [fetch_user] and [fetch_user_guilds] make carries the access token of
    the refreshed [Token], and each makes its request with it. *)
Theorem fetches_use_refreshed_token w d tok d' e tok' :
  session w !! "token" = Some d -> truthy d = true ->
  Token_new d = inr tok ->
  Token_is_expired tok (clock env (trace w)) = true ->
  status (refresh_answer config env w tok) = 200 ->
  body (refresh_answer config env w tok) = Some d' ->
  dict_get d' "error" = inr e -> truthy e = false ->
  Token_new d' = inr tok' ->
  let w1 := snd (get_token config env w) in
  let wu := snd (fetch_user config env w) in
  let wg := snd (fetch_user_guilds config env w) in
  Forall (carries (Token_access_token tok')) (since w wu) /\
  Forall (carries (Token_access_token tok')) (since w wg) /\
  EvRequest "GET" "/users/@me" (Token_access_token tok') (user_answer env w1 tok')
    ∈ since w wu /\
  EvRequest "GET" "/users/@me/guilds" (Token_access_token tok')
    (guilds_answer env w1 tok') ∈ since w wg.
Proof.
  intros Hd Ht Hn He Hs Hb Hg Hte Hn' w1 wu wg.
  assert (Hrun := get_token_refreshed config env w d tok d' e Hd Ht Hn He Hs Hb Hg Hte).
  rewrite Hn' in Hrun.
  assert (Htok : get_token config env w = (inr (Some tok'), w1)).
  { subst w1. now rewrite Hrun. }
  destruct (get_token_grows w) as (evs1 & Htr1 & _).
  fold w1 in Htr1.
  split; [now apply (fetch_user_carries w tok' w1)|].
  split; [now apply (fetch_user_guilds_carries w tok' w1)|].
  split.
  - subst wu. unfold fetch_user. rewrite (bind_ok _ _ _ _ _ Htok).
    match goal with |- _ ∈ since w (snd (?k w1)) =>
      assert (Hk : exists b, trace (snd (k w1)) = trace (user_fetched env w1 tok') ++ b)
    end.
    { unfold bind at 1. unfold http_request. fold (user_answer env w1 tok').
      fold (user_fetched env w1 tok').
      destruct (user_answer env w1 tok') as [x|data]; [exists []; simpl; now rewrite app_nil_r|].
      match goal with |- exists b, trace (snd (?m _)) = _ =>
        assert (Hm : journaled (fun _ => True) m) by journal;
        destruct (Hm (user_fetched env w1 tok')) as (b & Hb' & _)
      end.
      eauto. }
    destruct Hk as [b Hk].
    rewrite (since_app w _ (evs1 ++ [EvRequest "GET" "/users/@me"
               (Token_access_token tok') (user_answer env w1 tok')] ++ b)).
    + apply elem_of_app. right. apply list_elem_of_here.
    + rewrite Hk. unfold user_fetched. simpl. rewrite Htr1.
      now rewrite <- !app_assoc.
  - subst wg. unfold fetch_user_guilds. rewrite (bind_ok _ _ _ _ _ Htok).
    match goal with |- _ ∈ since w (snd (?k w1)) =>
      assert (Hk : exists b, trace (snd (k w1)) = trace (fetched env w1 tok') ++ b)
    end.
    { unfold bind at 1. unfold http_request. fold (guilds_answer env w1 tok').
      fold (fetched env w1 tok').
      destruct (guilds_answer env w1 tok') as [x|data]; [exists []; simpl; now rewrite app_nil_r|].
      match goal with |- exists b, trace (snd (?m _)) = _ =>
        assert (Hm : journaled (fun _ => True) m)
          by (unfold stamp_all; journal; apply stamp_each_journaled; now intros);
        destruct (Hm (fetched env w1 tok')) as (b & Hb' & _)
      end.
      eauto. }
    destruct Hk as [b Hk].
    rewrite (since_app w _ (evs1 ++ [EvRequest "GET" "/users/@me/guilds"
               (Token_access_token tok') (guilds_answer env w1 tok')] ++ b)).
    + apply elem_of_app. right. apply list_elem_of_here.
    + rewrite Hk. unfold fetched. simpl. rewrite Htr1.
      now rewrite <- !app_assoc.
Qed.

Lemma stamp_each_raises items : forall w,
  ~ Forall is_object items ->
  exists w', stamp_each env items w = (inl TypeError, w') /\ session w' = session w.
Proof.
  induction items as [|d rest IH]; intros w Hnot.
  - destruct Hnot. constructor.
  - simpl. unfold bind at 1. unfold time_time.
    destruct d; simpl; try (eexists; split; reflexivity).
    unfold bind at 1. simpl.
    destruct (IH (emit (EvTime (clock env (trace w))) w)) as (w' & Hrun & Hs).
    { intros Hrest. apply Hnot. constructor; [exact I|exact Hrest]. }
    rewrite (bind_err _ _ _ _ _ Hrun). eauto.
Qed.

Lemma stamp_all_raises items w :
  ~ Forall is_object items ->
  exists w', stamp_all env (JList items) w = (inl TypeError, w') /\
             session w' = session w.
Proof.
  intros Hnot. destruct (stamp_each_raises items w Hnot) as (w' & Hrun & Hs).
  exists w'. split; [|exact Hs].
  unfold stamp_all, bind at 1, lift. cbn [py_iter].
  now rewrite (bind_err _ _ _ _ _ Hrun).
Qed.

Lemma guilds_request w tok :
  http_request env "GET" "/users/@me/guilds" (Token_access_token tok) w
  = (guilds_answer env w tok, fetched env w tok).
Proof. reflexivity. Qed.

(** X9.  What a failed refetch of a stale guild list leaves in the session.
    A failure before line 218 keeps the cached list: when the token manager
    raises (the guild list is then not even asked for), when the identity
    endpoint raises, and when it lists something that is not an object
    ([TypeError] from the stamping loop), [get_user_guilds] raises and the
    [guilds] field still holds the cached list.  A failure at line 220 does
    not: when every listed entry is an object but the mapping cannot be
    built from the stamped list (an entry without [id], an [id] that [int]
    rejects, a record that [Guild] rejects), the exception is raised after
    the field was overwritten, and the session holds the stamped list.
    There is no other way to fail: whenever the call raises, either the
    field holds the cached list, or it holds what was just stored and the
    exception is that of building the mapping from it. *)
Theorem guild_refetch_failures w cache guilds :
  session w !! "guilds" = Some cache -> truthy cache = true ->
  guilds_dict cache = inr guilds ->
  some_expired env (trace w) (values guilds) = true ->
  let w1 := expiry_checked env (values guilds) w in
  (forall e w2,
      get_token config env w1 = (inl e, w2) ->
      get_user_guilds config env w = (inl e, w2) /\
      count is_guild_fetch (since w w2) = O /\
      session w2 !! "guilds" = Some cache) /\
  (forall tok w2 e,
      get_token config env w1 = (inr (Some tok), w2) ->
      guilds_answer env w2 tok = inl e ->
      get_user_guilds config env w = (inl e, fetched env w2 tok) /\
      session (fetched env w2 tok) !! "guilds" = Some cache) /\
  (forall tok w2 items,
      get_token config env w1 = (inr (Some tok), w2) ->
      guilds_answer env w2 tok = inr (JList items) ->
      ~ Forall is_object items ->
      fst (get_user_guilds config env w) = inl TypeError /\
      session (snd (get_user_guilds config env w)) !! "guilds" = Some cache) /\
  (forall tok w2 items e,
      get_token config env w1 = (inr (Some tok), w2) ->
      guilds_answer env w2 tok = inr (JList items) ->
      Forall is_object items ->
      guilds_dict (JList (stamped_list env w2 tok items)) = inl e ->
      fst (get_user_guilds config env w) = inl e /\
      session (snd (get_user_guilds config env w)) !! "guilds"
      = Some (JList (stamped_list env w2 tok items))) /\
  (forall e,
      fst (get_user_guilds config env w) = inl e ->
      session (snd (get_user_guilds config env w)) !! "guilds" = Some cache \/
      exists data,
        session (snd (get_user_guilds config env w)) !! "guilds" = Some data /\
        guilds_dict data = inl e).
Proof.
  intros Hc Ht Hg Hexp w1.
  assert (Hrun : get_user_guilds config env w = fetch_user_guilds config env w1).
  { rewrite (get_user_guilds_cached config env w cache guilds) by assumption.
    now rewrite Hexp. }
  assert (Hkept : forall r w2, get_token config env w1 = (r, w2) ->
                    session w2 !! "guilds" = Some cache).
  { intros r w2 Htok.
    assert (Hf := get_token_frame w1 "guilds"). rewrite Htok in Hf. simpl in Hf.
    rewrite Hf by discriminate.
    subst w1. now rewrite expiry_checked_session. }
  split; [|split; [|split; [|split]]].
  - intros e w2 Htok. rewrite Hrun.
    split; [now apply fetch_user_guilds_raises|].
    split; [|now apply (Hkept _ _ Htok)].
    destruct (get_token_grows w1) as (evs & Htr & Hall).
    rewrite Htok in Htr. simpl in Htr.
    destruct (expiry_checked_trace env (values guilds) w) as [ts Hts].
    fold w1 in Hts.
    rewrite (since_trans w w1 w2) by eauto.
    rewrite count_app, (since_app _ _ _ Hts), (since_app _ _ _ Htr).
    rewrite count_clock_readings by reflexivity.
    exact (count_none _ _ _ Hall token_event_not_fetch).
  - intros tok w2 e Htok Hans. rewrite Hrun.
    split; [|now apply (Hkept _ _ Htok)].
    unfold fetch_user_guilds. rewrite (bind_ok _ _ _ _ _ Htok).
    apply bind_err. now rewrite guilds_request, Hans.
  - intros tok w2 items Htok Hans Hnot. rewrite Hrun.
    unfold fetch_user_guilds. rewrite (bind_ok _ _ _ _ _ Htok).
    erewrite bind_ok by (rewrite guilds_request, Hans; reflexivity).
    destruct (stamp_all_raises items (fetched env w2 tok) Hnot) as (w' & Hst & Hs).
    rewrite (bind_err _ _ _ _ _ Hst). cbn [fst snd].
    split; [reflexivity|]. rewrite Hs. now apply (Hkept _ _ Htok).
  - intros tok w2 items e Htok Hans Hobj Hbuild. rewrite Hrun.
    rewrite (fetch_user_guilds_fetched config env w1 tok w2 items Htok Hans Hobj).
    rewrite Hbuild. cbn [fst snd session].
    split; [reflexivity|apply lookup_insert_eq].
  - intros e. rewrite Hrun.
    pose proof (Hkept _ _ (surjective_pairing (get_token config env w1))) as Hk.
    clear Hkept.
    destruct (fetch_user_guilds config env w1) as [r w'] eqn:Hf.
    cbn [fst snd]. intros ->.
    unfold fetch_user_guilds in Hf.
    destruct (get_token config env w1) as [[e1|[tok|]] w2] eqn:Htok;
      cbn [snd] in Hk.
    + rewrite (bind_err _ _ _ _ _ Htok) in Hf. inversion Hf; subst.
      left. exact Hk.
    + rewrite (bind_ok _ _ _ _ _ Htok) in Hf.
      unfold bind at 1 in Hf. rewrite guilds_request in Hf.
      destruct (guilds_answer env w2 tok) as [e2|answer].
      { inversion Hf; subst. left. exact Hk. }
      unfold bind at 1 in Hf. unfold stamp_all in Hf.
      unfold bind at 1 in Hf. unfold lift at 1 in Hf.
      destruct (py_iter answer) as [e3|items].
      { inversion Hf; subst. left. exact Hk. }
      destruct (stamp_each_trace env items (fetched env w2 tok)) as (ts & _ & Hs).
      unfold bind at 1 in Hf.
      destruct (stamp_each env items (fetched env w2 tok)) as [[e4|kept] w3];
        simpl in Hs.
      { inversion Hf; subst. left. rewrite Hs. exact Hk. }
      unfold ret, bind, session_set, lift in Hf.
      match type of Hf with context [guilds_dict ?data] =>
        destruct (guilds_dict data) as [e5|built] eqn:Hbuild
      end; inversion Hf; subst.
      right. eexists. split; [apply lookup_insert_eq|exact Hbuild].
    + rewrite (bind_ok _ _ _ _ _ Htok) in Hf. discriminate.
Qed.

Lemma keys_pydict_set {V : Type} (d : list (Z * V)) k v :
  keys (pydict_set d k v) = if decide (k ∈ keys d) then keys d else keys d ++ [k].
Proof.
  induction d as [|[k' v'] rest IH]; simpl; [reflexivity|].
  destruct (Z.eqb k k') eqn:E.
  - apply Z.eqb_eq in E. subst k'. simpl.
    rewrite decide_True; [reflexivity|apply list_elem_of_here].
  - apply Z.eqb_neq in E. simpl. fold (keys (pydict_set rest k v)). rewrite IH.
    fold (keys rest).
    destruct (decide (k ∈ keys rest)) as [Hin|Hout].
    + rewrite decide_True; [reflexivity|now apply list_elem_of_further].
    + rewrite decide_False; [reflexivity|].
      intros Hin. apply elem_of_cons in Hin as [?|?]; contradiction.
Qed.

Lemma pydict_set_NoDup {V : Type} (d : list (Z * V)) k v :
  NoDup (keys d) -> NoDup (keys (pydict_set d k v)).
Proof.
  intros Hd. rewrite keys_pydict_set.
  destruct (decide (k ∈ keys d)); [exact Hd|].
  apply NoDup_app. split; [exact Hd|]. split; [|apply NoDup_singleton].
  intros x Hx Hk. apply list_elem_of_singleton in Hk. now subst.
Qed.

Lemma pydict_set_length {V : Type} (d : list (Z * V)) k v :
  (length (pydict_set d k v) <= S (length d))%nat.
Proof.
  induction d as [|[k' v'] rest IH]; simpl; [lia|].
  destruct (Z.eqb k k'); simpl; lia.
Qed.

Lemma pydict_get_set {V : Type} (d : list (Z * V)) k v k' :
  pydict_get (pydict_set d k v) k' = if Z.eqb k' k then Some v else pydict_get d k'.
Proof.
  induction d as [|[k0 v0] rest IH]; simpl; [reflexivity|].
  destruct (Z.eqb k k0) eqn:E; simpl.
  - apply Z.eqb_eq in E. subst k0. now destruct (Z.eqb k' k).
  - rewrite IH. destruct (Z.eqb k' k0) eqn:E0; [|reflexivity].
    apply Z.eqb_eq in E0. subst k0.
    now rewrite (proj2 (Z.eqb_neq k' k)) by (apply Z.eqb_neq in E; congruence).
Qed.

Lemma guilds_dict_from_cons acc data rest guilds :
  guilds_dict_from acc (data :: rest) = inr guilds ->
  exists key g, guild_key data = inr key /\ Guild_new data = inr g /\
                guilds_dict_from (pydict_set acc key g) rest = inr guilds.
Proof.
  simpl. unfold guild_key.
  destruct (getitem data "id") as [?|id]; [discriminate|].
  destruct (py_int id) as [?|key]; [discriminate|].
  destruct (Guild_new data) as [?|g]; [discriminate|]. eauto.
Qed.

Lemma guilds_dict_from_shape items : forall acc guilds,
  guilds_dict_from acc items = inr guilds ->
  (NoDup (keys acc) -> NoDup (keys guilds)) /\
  (length guilds <= length acc + length items)%nat /\
  (forall key, key ∈ keys acc -> key ∈ keys guilds) /\
  (forall data, data ∈ items ->
     exists key, guild_key data = inr key /\ key ∈ keys guilds) /\
  (forall key, Forall (fun later => guild_key later <> inr key) items ->
     pydict_get guilds key = pydict_get acc key).
Proof.
  induction items as [|d rest IH]; intros acc guilds Hrun.
  - simpl in Hrun. injection Hrun as <-.
    repeat split; auto; [lia|]. intros data Hin. now apply elem_of_nil in Hin.
  - destruct (guilds_dict_from_cons _ _ _ _ Hrun) as (k & g & Hk & Hg & Hrest).
    destruct (IH _ _ Hrest) as (Hnd & Hlen & Hkeys & Hall & Hget).
    assert (Hk_in : k ∈ keys guilds).
    { apply Hkeys. rewrite keys_pydict_set.
      destruct (decide (k ∈ keys acc)); [assumption|].
      apply elem_of_app. right. apply list_elem_of_here. }
    split; [|split; [|split; [|split]]].
    + intros Hacc. now apply Hnd, pydict_set_NoDup.
    + assert (Hs := pydict_set_length acc k g). simpl. lia.
    + intros key Hin. apply Hkeys. rewrite keys_pydict_set.
      destruct (decide (k ∈ keys acc)); [assumption|].
      apply elem_of_app. now left.
    + intros data Hin. apply elem_of_cons in Hin as [->|Hin]; [eauto|now apply Hall].
    + intros key Hlater. inversion Hlater as [|? ? Hd Hr]; subst.
      rewrite (Hget key Hr), pydict_get_set.
      destruct (Z.eqb key k) eqn:E; [|reflexivity].
      apply Z.eqb_eq in E. subst. congruence.
Qed.

Lemma guilds_dict_from_last pre : forall acc data post key g guilds,
  guilds_dict_from acc (pre ++ data :: post) = inr guilds ->
  guild_key data = inr key -> Guild_new data = inr g ->
  Forall (fun later => guild_key later <> inr key) post ->
  pydict_get guilds key = Some g.
Proof.
  induction pre as [|d pre IH]; intros acc data post key g guilds Hrun Hk Hg Hpost.
  - simpl in Hrun.
    destruct (guilds_dict_from_cons _ _ _ _ Hrun) as (k' & g' & Hk' & Hg' & Hrest).
    assert (k' = key) by congruence. assert (g' = g) by congruence. subst.
    destruct (guilds_dict_from_shape _ _ _ Hrest) as (_ & _ & _ & _ & Hget).
    rewrite (Hget key Hpost), pydict_get_set. now rewrite Z.eqb_refl.
  - simpl app in Hrun.
    destruct (guilds_dict_from_cons _ _ _ _ Hrun) as (k' & g' & _ & _ & Hrest).
    now apply (IH _ _ _ _ _ _ Hrest).
Qed.

Lemma guilds_mapping_shape_aux cache items guilds :
  py_iter cache = inr items -> guilds_dict cache = inr guilds ->
  NoDup (keys guilds) /\
  (length guilds <= length items)%nat /\
  (forall data, data ∈ items ->
     exists key, guild_key data = inr key /\ key ∈ keys guilds).
Proof.
  intros Hiter Hrun. unfold guilds_dict in Hrun. rewrite Hiter in Hrun.
  destruct (guilds_dict_from_shape _ _ _ Hrun) as (Hnd & Hlen & _ & Hall & _).
  split; [apply Hnd; constructor|]. split; [simpl in Hlen; lia|exact Hall].
Qed.

(** X10.  The mapping built from a guild list has one entry per distinct id:
    its keys are pairwise distinct, every listed entry's [int(id)] is a key,
    and where several entries share an id the last one listed is the one
    the mapping holds. *)
Theorem guilds_mapping_shape cache items guilds :
  py_iter cache = inr items -> guilds_dict cache = inr guilds ->
  NoDup (keys guilds) /\
  (length guilds <= length items)%nat /\
  (forall data, data ∈ items ->
     exists key, guild_key data = inr key /\ key ∈ keys guilds) /\
  (forall pre data post key g,
     items = pre ++ data :: post ->
     guild_key data = inr key -> Guild_new data = inr g ->
     Forall (fun later => guild_key later <> inr key) post ->
     pydict_get guilds key = Some g).
Proof.
  intros Hiter Hrun. unfold guilds_dict in Hrun. rewrite Hiter in Hrun.
  destruct (guilds_dict_from_shape _ _ _ Hrun) as (Hnd & Hlen & _ & Hall & _).
  split; [apply Hnd; constructor|]. split; [simpl in Hlen; lia|].
  split; [exact Hall|].
  intros pre data post key g -> Hk Hg Hpost.
  now apply (guilds_dict_from_last pre [] data post key g guilds).
Qed.

Lemma assoc_get_set_ne {V : Type} (kvs : list (string * V)) k v k' :
  k <> k' -> assoc_get (assoc_set kvs k v) k' = assoc_get kvs k'.
Proof.
  intros Hne. induction kvs as [|[k0 v0] rest IH]; simpl.
  - destruct (String.eqb k' k) eqn:E; [|reflexivity].
    apply String.eqb_eq in E. congruence.
  - destruct (String.eqb k k0) eqn:E; simpl.
    + apply String.eqb_eq in E. subst k0.
      destruct (String.eqb k' k) eqn:E'; [|reflexivity].
      apply String.eqb_eq in E'. congruence.
    + now rewrite IH.
Qed.

Lemma guild_key_stamped d t : guild_key (stamped d t) = guild_key d.
Proof.
  unfold guild_key. destruct d; try reflexivity. simpl.
  now rewrite assoc_get_set_ne by discriminate.
Qed.

Lemma is_object_dec d : {is_object d} + {~ is_object d}.
Proof. destruct d; simpl; auto. Qed.

Lemma elem_of_stamped items : forall ts x,
  x ∈ zip_with stamped items ts -> exists data t, data ∈ items /\ x = stamped data t.
Proof.
  induction items as [|d rest IH]; intros [|t ts] x Hin; simpl in Hin;
    try (now apply elem_of_nil in Hin).
  apply elem_of_cons in Hin as [->|Hin].
  - exists d, t. split; [apply list_elem_of_here|reflexivity].
  - destruct (IH _ _ Hin) as (data & t' & Hd & ->).
    exists data, t'. split; [now apply list_elem_of_further|reflexivity].
Qed.

Lemma stamped_elem_of items : forall ts data,
  length ts = length items -> data ∈ items ->
  exists t, stamped data t ∈ zip_with stamped items ts.
Proof.
  induction items as [|d rest IH]; intros [|t ts] data Hlen Hin;
    try discriminate; try (now apply elem_of_nil in Hin).
  apply elem_of_cons in Hin as [->|Hin].
  - exists t. apply list_elem_of_here.
  - destruct (IH ts data) as [t' Ht']; [simpl in Hlen; congruence|assumption|].
    exists t'. simpl. now apply list_elem_of_further.
Qed.

(** A stamped entry is the entry sent with its [fetched_at] set and nothing
    else changed. *)
Lemma stamped_entry kvs t :
  getitem (stamped (JObj kvs) t) "fetched_at" = inr (JNum t) /\
  forall k, k <> "fetched_at" -> getitem (stamped (JObj kvs) t) k = getitem (JObj kvs) k.
Proof.
  simpl. split.
  - now rewrite assoc_get_set.
  - intros k Hk. rewrite assoc_get_set_ne; [reflexivity|]. intros H. now apply Hk.
Qed.

Lemma stamped_entries items : forall ts,
  Forall is_object items -> length ts = length items ->
  Forall2 (fun data entry =>
             exists t, entry = stamped data t /\
                       getitem entry "fetched_at" = inr (JNum t) /\
                       forall k, k <> "fetched_at" -> getitem entry k = getitem data k)
    items (zip_with stamped items ts).
Proof.
  induction items as [|d rest IH]; intros [|t ts] Hobj Hlen;
    try discriminate; simpl; [constructor|].
  inversion Hobj as [|? ? Hd Hrest]; subst.
  constructor.
  - destruct d; try contradiction.
    exists t. split; [reflexivity|]. apply stamped_entry.
  - apply IH; [assumption|]. simpl in Hlen. congruence.
Qed.

(** X11.  What a successful fetch of the guild list stores and returns.
    When [fetch_user_guilds] returns a mapping for the list the identity
    endpoint sent, every entry sent is an object; the [guilds] field holds
    the list of the entries sent, in the order sent, each with its
    [fetched_at] set to the reading of the clock taken for it and with
    nothing else changed; the mapping returned is the one built from that
    stored list; stamping changes no id, so the keys of the mapping are
    exactly the [int(id)] of the entries sent, and each guild is built from
    a sent entry with its stamp. *)
Theorem refetched_mapping_has_fetched_ids w tok w2 items guilds :
  get_token config env w = (inr (Some tok), w2) ->
  guilds_answer env w2 tok = inr (JList items) ->
  fst (fetch_user_guilds config env w) = inr (Some guilds) ->
  (forall key, key ∈ keys guilds <->
     exists data, data ∈ items /\ guild_key data = inr key) /\
  (forall key g, (key, g) ∈ guilds ->
     exists data t, data ∈ items /\ guild_key data = inr key /\
                    Guild_new (stamped data t) = inr g) /\
  Forall is_object items /\
  session (snd (fetch_user_guilds config env w)) !! "guilds"
  = Some (JList (stamped_list env w2 tok items)) /\
  Forall2 (fun data entry =>
             exists t, entry = stamped data t /\
                       getitem entry "fetched_at" = inr (JNum t) /\
                       forall k, k <> "fetched_at" -> getitem entry k = getitem data k)
    items (stamped_list env w2 tok items) /\
  Forall2 (fun entry t => getitem entry "fetched_at" = inr (JNum t))
    (stamped_list env w2 tok items)
    (readings env (trace (fetched env w2 tok)) (length items)) /\
  guilds_dict (JList (stamped_list env w2 tok items)) = inr guilds.
Proof.
  intros Htok Hans Hret.
  destruct (List.Forall_dec is_object is_object_dec items) as [Hobj|Hnot].
  2:{ exfalso. revert Hret.
      unfold fetch_user_guilds. rewrite (bind_ok _ _ _ _ _ Htok).
      erewrite bind_ok by (rewrite guilds_request, Hans; reflexivity).
      destruct (stamp_all_raises items (fetched env w2 tok) Hnot) as (w' & Hst & _).
      rewrite (bind_err _ _ _ _ _ Hst). discriminate. }
  assert (Hrun := fetch_user_guilds_fetched config env w tok w2 items Htok Hans Hobj).
  cbv zeta in Hrun. rewrite Hrun in Hret |- *. cbn [fst snd session] in *.
  destruct (guilds_dict (JList (stamped_list env w2 tok items))) as [?|m] eqn:Hm;
    [discriminate|].
  injection Hret as ->.
  unfold stamped_list in *.
  set (ts := readings env (trace (fetched env w2 tok)) (length items)) in *.
  assert (Hlen : length ts = length items) by apply readings_length.
  split; [|split; [|split; [|split; [|split; [|split]]]]].
  - intros key. split.
    + intros Hin. apply list_elem_of_fmap in Hin as ([k g] & -> & Hin).
      destruct (guilds_dict_elem _ _ _ _ Hm Hin) as (l & x & id & Hl & Hx & Hid & Hk & _).
      injection Hl as <-.
      destruct (elem_of_stamped _ _ _ Hx) as (data & t & Hd & ->).
      exists data. split; [exact Hd|].
      rewrite <- (guild_key_stamped data t). unfold guild_key. now rewrite Hid.
    + intros (data & Hd & Hk).
      destruct (stamped_elem_of items ts data Hlen Hd) as [t Ht].
      destruct (guilds_mapping_shape_aux (JList (zip_with stamped items ts)) _ _
                  eq_refl Hm) as (_ & _ & Hall).
      destruct (Hall _ Ht) as (key' & Hk' & Hin).
      rewrite guild_key_stamped in Hk'. congruence.
  - intros key g Hin.
    destruct (guilds_dict_elem _ _ _ _ Hm Hin) as (l & x & id & Hl & Hx & Hid & Hk & Hg).
    injection Hl as <-.
    destruct (elem_of_stamped _ _ _ Hx) as (data & t & Hd & ->).
    exists data, t. split; [exact Hd|]. split; [|exact Hg].
    rewrite <- (guild_key_stamped data t). unfold guild_key. now rewrite Hid.
  - exact Hobj.
  - apply lookup_insert_eq.
  - now apply stamped_entries.
  - now apply stamped_fetched_at.
  - reflexivity.
Qed.

Lemma utils_get_filter (ids : list Z) (guilds : list Guild) id :
  utils_get (filter (fun g => Guild_id g ∈ ids) guilds) id
  = if decide (id ∈ ids) then utils_get guilds id else None.
Proof.
  induction guilds as [|g rest IH].
  - simpl. now destruct (decide (id ∈ ids)).
  - rewrite filter_cons. destruct (decide (Guild_id g ∈ ids)) as [Hin|Hout]; simpl.
    + destruct (Z.eqb (Guild_id g) id) eqn:E; [|exact IH].
      apply Z.eqb_eq in E. subst id.
      destruct (decide (Guild_id g ∈ ids)); [reflexivity|contradiction].
    + rewrite IH. destruct (Z.eqb (Guild_id g) id) eqn:E; [|reflexivity].
      apply Z.eqb_eq in E. subst id.
      destruct (decide (Guild_id g ∈ ids)); [contradiction|reflexivity].
Qed.

(** X12.  Which guild a request finds: over a non-empty mapping, the [guild] of
    the answer is the first guild of the whole mapping that has the
    requested id, provided the id is not 0 and the bot shares it; it is
    absent for no id, for the id 0 and for an id the bot does not share.
    A guild that is found is one of [mutual_guilds]. *)
Theorem requested_guild_lookup w w1 guilds user_id guild_id :
  get_user_guilds config env w = (inr (Some guilds), w1) -> guilds <> [] ->
  let ids := shared_ids (ipc_answer env w1 user_id) in
  exists r,
    fst (get_related_guilds config env user_id guild_id w) = inr r /\
    guild r = match guild_id with
              | Some id =>
                  if decide (id <> 0 /\ id ∈ ids)
                  then Guild_to_dict <$> utils_get (values guilds) id
                  else None
              | None => None
              end /\
    (forall d, guild r = Some d -> d ∈ default [] (mutual_guilds r)).
Proof.
  intros Hrun Hne ids.
  rewrite (get_related_guilds_some config env w w1 guilds) by assumption.
  fold ids. eexists. split; [reflexivity|]. cbn [guild mutual_guilds default].
  split.
  - destruct guild_id as [id|]; [|reflexivity]. simpl.
    destruct (Z.eqb id 0) eqn:E.
    + apply Z.eqb_eq in E.
      destruct (decide (id <> 0 /\ id ∈ ids)) as [[Hnz _]|_]; [contradiction|reflexivity].
    + apply Z.eqb_neq in E. rewrite utils_get_filter.
      destruct (decide (id ∈ ids)), (decide (id <> 0 /\ id ∈ ids));
        try reflexivity; tauto.
  - intros d Hd.
    destruct (requested guild_id) as [id|]; [|discriminate].
    destruct (utils_get _ id) as [g|] eqn:Hg; [|discriminate].
    injection Hd as <-. apply utils_get_some in Hg as [Hin _].
    change (Guild_to_dict g ∈ Guild_to_dict <$>
              filter (fun g => Guild_id g ∈ ids) (values guilds)).
    now apply list_elem_of_fmap_2.
Qed.

End Behaviour.

(** ** The endpoints *)

Section EndpointBehaviour.
Context {objects : Objects} {user_object : UserObject} {int : PyInt}.
Variable config : Config.
Variable env : Env.
Variable links : list (string * json).

Lemma get_user_logged_out w :
  session w !! "token" = None ->
  truthy (default JNull (session w !! "user")) = false ->
  get_user config env w = (inr None, w).
Proof.
  intros Hno Hu. rewrite get_user_miss by assumption.
  apply fetch_user_no_token, get_token_no_token. now rewrite Hno.
Qed.

Lemma assoc_get_absent {V : Type} (kvs : list (string * V)) k :
  k ∉ map fst kvs -> assoc_get kvs k = None.
Proof.
  induction kvs as [|[k' v] rest IH]; simpl; intros Hout; [reflexivity|].
  destruct (String.eqb k k') eqn:E.
  - apply String.eqb_eq in E. subst. destruct Hout. apply list_elem_of_here.
  - apply IH. intros Hin. apply Hout. now apply list_elem_of_further.
Qed.

(** [{**a, **b}] reads as [b] where [b] has the key and as [a] elsewhere. *)
Lemma assoc_get_merge b : forall a k,
  NoDup (map fst b) ->
  assoc_get (dict_merge a b) k
  = match assoc_get b k with Some v => Some v | None => assoc_get a k end.
Proof.
  induction b as [|[k1 v1] rest IH]; intros a k Hnd; [reflexivity|].
  apply NoDup_cons in Hnd as [Hout Hnd].
  unfold dict_merge. simpl. fold (dict_merge (assoc_set a k1 v1) rest).
  rewrite IH by assumption.
  destruct (String.eqb k k1) eqn:E.
  - apply String.eqb_eq in E. subst k1.
    rewrite (assoc_get_absent rest k Hout). apply assoc_get_set.
  - apply String.eqb_neq in E.
    destruct (assoc_get rest k); [reflexivity|].
    apply assoc_get_set_ne. congruence.
Qed.

Lemma related_items_NoDup r : NoDup (map fst (related_items r)).
Proof.
  simpl. repeat (apply NoDup_cons; split);
    try apply NoDup_nil_2;
    intros Hin; repeat (apply elem_of_cons in Hin as [Hin|Hin]; [discriminate|]);
    now apply elem_of_nil in Hin.
Qed.

Lemma page_context_lookup user r k :
  NoDup (map fst links) ->
  assoc_get (page_context links user r) k
  = match assoc_get (related_items r) k with
    | Some v => Some v
    | None => if String.eqb k "user" then Some (User_to_dict user)
              else assoc_get links k
    end.
Proof.
  intros Hnd. unfold page_context.
  rewrite assoc_get_merge by apply related_items_NoDup.
  destruct (assoc_get (related_items r) k); [reflexivity|].
  destruct (String.eqb k "user") eqn:E.
  - apply String.eqb_eq in E. subst. apply assoc_get_set.
  - apply String.eqb_neq in E. rewrite assoc_get_set_ne by congruence.
    rewrite assoc_get_merge by assumption. now destruct (assoc_get links k).
Qed.

(** What it takes for the resolver to name a guild. *)
Lemma get_related_guilds_guild_inv user_id guild_id w r w' d :
  get_related_guilds config env user_id guild_id w = (inr r, w') ->
  guild r = Some d ->
  exists id g answer evs,
    guild_id = Some id /\ id <> 0 /\ id ∈ shared_ids answer /\
    Guild_id g = id /\ d = Guild_to_dict g /\
    d ∈ default [] (mutual_guilds r) /\
    trace w' = trace w ++ evs ++ [EvIpc "mutual_guild_ids" user_id answer].
Proof.
  intros Hrun Hd.
  destruct (get_user_guilds_journaled config env w) as (evs & Htr & _).
  destruct (get_user_guilds config env w) as [[e|[guilds|]] w1] eqn:Hg;
    simpl in Htr.
  - unfold get_related_guilds in Hrun. rewrite (bind_err _ _ _ _ _ Hg) in Hrun.
    discriminate.
  - destruct guilds as [|kv rest].
    + rewrite (get_related_guilds_empty _ _ _ _ _ _ Hg) in Hrun.
      injection Hrun as <- <-. discriminate.
    + rewrite (get_related_guilds_some config env w w1 (kv :: rest)) in Hrun
        by (assumption || discriminate).
      injection Hrun as <- <-. cbn [guild mutual_guilds default] in *.
      destruct guild_id as [id|]; [|discriminate]. simpl in Hd.
      destruct (Z.eqb id 0) eqn:E; [discriminate|]. apply Z.eqb_neq in E.
      destruct (utils_get _ id) as [g|] eqn:Hget; [|discriminate].
      injection Hd as <-. apply utils_get_some in Hget as [Hin Hid].
      exists id, g, (ipc_answer env w1 user_id), evs.
      repeat split; try assumption.
      * apply list_elem_of_filter in Hin as [Hin _]. now rewrite <- Hid.
      * change (Guild_to_dict g ∈ Guild_to_dict <$>
          filter (fun g => Guild_id g ∈ shared_ids (ipc_answer env w1 user_id))
            (values (kv :: rest))).
        now apply list_elem_of_fmap_2.
      * unfold asked. simpl. rewrite Htr. now rewrite <- app_assoc.
  - rewrite (get_related_guilds_none _ _ _ _ _ _ Hg) in Hrun.
    injection Hrun as <- <-. discriminate.
Qed.

Lemma truthy_some o : truthy (default JNull o) = true -> exists d, o = Some d.
Proof. destruct o; [eauto|discriminate]. Qed.

Lemma pages_redirect_when_logged_out_aux w :
  session w !! "token" = None ->
  truthy (default JNull (session w !! "user")) = false ->
  servers config env links w = (inr (HTTPFound "/login"), w) /\
  (forall guild_id, server config env links guild_id w = (inr (HTTPFound "/login"), w)).
Proof.
  intros Hno Hu. assert (Hrun := get_user_logged_out w Hno Hu).
  split; [|intros guild_id]; unfold servers, server;
    now rewrite (bind_ok _ _ _ _ _ Hrun).
Qed.

(** X13.  Both pages send a visitor without a token and without a cached user
    to [/login], before anything else happens: nothing is fetched, the bot
    is not asked, the guild id of the address is not even read. *)
Theorem pages_redirect_when_logged_out w :
  session w !! "token" = None ->
  truthy (default JNull (session w !! "user")) = false ->
  servers config env links w = (inr (HTTPFound "/login"), w) /\
  (forall guild_id, server config env links guild_id w = (inr (HTTPFound "/login"), w)).
Proof.
  intros Hno Hu. now apply pages_redirect_when_logged_out_aux.
Qed.

(** X14.  The page of a server is shown only for a guild the bot shares: when
    [server] returns a page context, the id of the address is a non-zero
    integer, the bot was asked for the guilds it shares with the user of
    the session and answered with that id among them, and the [guild] of
    the context is a guild with that id, one of the [mutual_guilds] of the
    page. *)
Theorem server_page_only_for_shared_guild guild_id w context w' :
  server config env links guild_id w = (inr (Context context), w') ->
  NoDup (map fst links) ->
  exists user id g answer,
    fst (get_user config env w) = inr (Some user) /\
    py_int (JStr guild_id) = inr id /\ id <> 0 /\
    EvIpc "mutual_guild_ids" (User_id user) answer ∈ since w w' /\
    id ∈ shared_ids answer /\ Guild_id g = id /\
    assoc_get context "guild" = Some (Guild_to_dict g) /\
    (exists mutual, assoc_get context "mutual_guilds" = Some (JList mutual) /\
                    Guild_to_dict g ∈ mutual) /\
    assoc_get context "user" = Some (User_to_dict user).
Proof.
  intros Hrun Hnd. unfold server in Hrun.
  destruct (get_user_journaled config env w) as (evs0 & Htr0 & _).
  destruct (get_user config env w) as [[e|[user|]] w1] eqn:Hu; simpl in Htr0.
  - rewrite (bind_err _ _ _ _ _ Hu) in Hrun. discriminate.
  - rewrite (bind_ok _ _ _ _ _ Hu) in Hrun.
    unfold bind at 1, lift in Hrun.
    destruct (py_int (JStr guild_id)) as [e|id] eqn:Hid; [discriminate|].
    destruct (get_related_guilds config env (User_id user) (Some id) w1)
      as [[e|r] w2] eqn:Hr.
    + rewrite (bind_err _ _ _ _ _ Hr) in Hrun. discriminate.
    + rewrite (bind_ok _ _ _ _ _ Hr) in Hrun.
      destruct (truthy (default JNull (guild r))) eqn:Ht; simpl in Hrun;
        [|discriminate].
      injection Hrun as <- <-.
      destruct (truthy_some _ Ht) as [d Hd].
      destruct (get_related_guilds_guild_inv _ _ _ _ _ _ Hr Hd)
        as (id' & g & answer & evs & [= <-] & Hnz & Hin & Hg & -> & Hmut & Htr).
      exists user, id, g, answer.
      split; [reflexivity|]. split; [reflexivity|]. split; [exact Hnz|].
      split.
      { rewrite (since_app w _ (evs0 ++ evs ++
                   [EvIpc "mutual_guild_ids" (User_id user) answer])).
        - rewrite !elem_of_app. right. right. apply list_elem_of_here.
        - rewrite Htr, Htr0. now rewrite <- !app_assoc. }
      split; [exact Hin|]. split; [exact Hg|].
      rewrite !page_context_lookup by assumption. simpl. rewrite Hd.
      split; [reflexivity|]. split; [|reflexivity].
      destruct (mutual_guilds r) as [mutual|]; [eauto|].
      now apply elem_of_nil in Hmut.
  - rewrite (bind_ok _ _ _ _ _ Hu) in Hrun. discriminate.
Qed.

(** X15.  A logged-in user is refused a server the bot does not share: when the
    user has a non-empty guild mapping and the id of the address is 0 or
    not among the ids the bot answers, and also when the guild list cache
    yields nothing, [server] answers 401 with the fixed message, never the
    page. *)
Theorem server_refuses_unshared_guild guild_id w user w1 id cached w2 :
  get_user config env w = (inr (Some user), w1) ->
  py_int (JStr guild_id) = inr id ->
  get_user_guilds config env w1 = (inr cached, w2) ->
  match cached with
  | None | Some [] => True
  | Some _ => id = 0 \/ id ∉ shared_ids (ipc_answer env w2 (User_id user))
  end ->
  fst (server config env links guild_id w) = inr (WebResponse no_access 401).
Proof.
  intros Hu Hid Hg Hcase. unfold server.
  rewrite (bind_ok _ _ _ _ _ Hu). unfold bind at 1, lift. rewrite Hid.
  destruct cached as [[|kv rest]|].
  - now rewrite (bind_ok _ _ _ _ _
                   (get_related_guilds_empty config env _ _ _ _ Hg)).
  - erewrite bind_ok
      by (apply (get_related_guilds_some config env w1 w2 (kv :: rest));
          [assumption|discriminate]).
    cbn [guild requested].
    assert (Hnone : match (if Z.eqb id 0 then None else Some id) with
                    | Some id0 =>
                        Guild_to_dict <$>
                        utils_get
                          (filter (fun g => Guild_id g ∈
                                     shared_ids (ipc_answer env w2 (User_id user)))
                             (values (kv :: rest))) id0
                    | None => None
                    end = None).
    { destruct (Z.eqb id 0) eqn:E; [reflexivity|]. apply Z.eqb_neq in E.
      rewrite utils_get_filter.
      destruct (decide (id ∈ _)); [|reflexivity]. destruct Hcase; contradiction. }
    now rewrite Hnone.
  - now rewrite (bind_ok _ _ _ _ _
                   (get_related_guilds_none config env _ _ _ _ Hg)).
Qed.

(** X16.  The overview shows the session's own user: for a logged-in user
    [servers] returns a page context whose [user] is that user, whose guild
    lists are the resolver's for that user's id and whose [guild] is
    absent; every other key is a link of the application; and the bot is
    never asked about another user. *)
Theorem servers_shows_own_guilds w user w1 r w' :
  get_user config env w = (inr (Some user), w1) ->
  get_related_guilds config env (User_id user) None w1 = (inr r, w') ->
  NoDup (map fst links) ->
  exists context,
    servers config env links w = (inr (Context context), w') /\
    assoc_get context "user" = Some (User_to_dict user) /\
    assoc_get context "mutual_guilds"
    = Some (match mutual_guilds r with Some l => JList l | None => JNull end) /\
    assoc_get context "non_mutual_guilds"
    = Some (match non_mutual_guilds r with Some l => JList l | None => JNull end) /\
    assoc_get context "guild" = Some JNull /\
    (forall key, key ∉ ["user"; "mutual_guilds"; "non_mutual_guilds"; "guild"] ->
                 assoc_get context key = assoc_get links key) /\
    (forall endpoint other answer,
        EvIpc endpoint other answer ∈ since w w' ->
        endpoint = "mutual_guild_ids" /\ other = User_id user).
Proof.
  intros Hu Hr Hnd. eexists. split.
  { unfold servers. rewrite (bind_ok _ _ _ _ _ Hu).
    now rewrite (bind_ok _ _ _ _ _ Hr). }
  assert (Hguild : guild r = None).
  { destruct (guild r) as [d|] eqn:Hd; [|reflexivity].
    destruct (get_related_guilds_guild_inv _ _ _ _ _ _ Hr Hd)
      as (? & ? & ? & ? & [=] & _). }
  rewrite !page_context_lookup by assumption. simpl. rewrite Hguild.
  do 4 (split; [reflexivity|]). split.
  - intros key Hout. rewrite page_context_lookup by assumption. simpl.
    repeat match goal with
    | |- context [String.eqb key ?s] =>
        let E := fresh "E" in
        destruct (String.eqb key s) eqn:E;
        [apply String.eqb_eq in E; subst key; destruct Hout;
         repeat first [apply list_elem_of_here|apply list_elem_of_further]|]
    end.
    reflexivity.
  - intros endpoint other answer Hin.
    destruct (journaled_since user_event (get_user config env) w
                (get_user_journaled config env)) as (Htr0 & _ & Hall0).
    destruct (journaled_since (related_event (User_id user))
                (get_related_guilds config env (User_id user) None) w1
                (get_related_guilds_journaled config env (User_id user) None))
      as (Htr1 & _ & Hall1).
    rewrite Hu in Htr0, Hall0. rewrite Hr in Htr1, Hall1. simpl in *.
    rewrite (since_trans w w1 w') in Hin by eauto.
    apply elem_of_app in Hin as [Hin|Hin].
    + rewrite Forall_forall in Hall0. now apply Hall0 in Hin.
    + rewrite Forall_forall in Hall1. now apply Hall1 in Hin.
Qed.

Lemma string_app_assoc (a b c : string) : (a +:+ b) +:+ c = a +:+ (b +:+ c).
Proof.
  induction a as [|x a IH]; [reflexivity|].
  change (String x ((a +:+ b) +:+ c) = String x (a +:+ (b +:+ c))).
  now f_equal.
Qed.


Variable LOGIN_CALLBACK : json.
Variable format : json -> string.

(** X17.  Starting a login starts over: whatever the session held, token and
    caches included, after [login] it holds the drawn [state] and nothing
    else; the redirect goes to the authorize address, which ends with that
    same state; and until a token is stored every page sends the visitor
    back to [/login] without fetching or asking anything. *)
Theorem login_starts_over w state :
  let w' := snd (login config LOGIN_CALLBACK format state w) in
  fst (login config LOGIN_CALLBACK format state w)
  = inr (HTTPFound (authorize_url config LOGIN_CALLBACK format state)) /\
  authorize_url config LOGIN_CALLBACK format state
  = authorize_url config LOGIN_CALLBACK format "" +:+ state /\
  session w' = {["state" := JStr state]} /\
  since w w' = [EvSessionSet "state" (JStr state)] /\
  get_token config env w' = (inr None, w') /\
  servers config env links w' = (inr (HTTPFound "/login"), w') /\
  (forall guild_id,
      server config env links guild_id w' = (inr (HTTPFound "/login"), w')).
Proof.
  intros w'.
  assert (Hs : session w' = {["state" := JStr state]}) by reflexivity.
  assert (Hno : session w' !! "token" = None) by (now rewrite Hs).
  assert (Hu : truthy (default JNull (session w' !! "user")) = false)
    by (now rewrite Hs).
  split; [reflexivity|]. split.
  { unfold authorize_url. rewrite !string_app_assoc. reflexivity. }
  split; [exact Hs|]. split; [now apply since_app|].
  split; [apply get_token_no_token; now rewrite Hno|].
  now apply pages_redirect_when_logged_out_aux.
Qed.

End EndpointBehaviour.

(** ** The Spotify credentials of a user *)

Section SpotifyBehaviour.
Context {objects : Objects} {user_object : UserObject}.
Variable Credentials : Type.
Variable config : Config.
Variable env : Env.
Variable app_env : AppEnv Credentials.

Lemma abind_ok {A B : Type} (m : MA Credentials A) (k : A -> MA Credentials B)
  app a app' :
  m app = (inr a, app') -> abind Credentials m k app = k a app'.
Proof. intros H. unfold abind. now rewrite H. Qed.

Lemma abind_err {A B : Type} (m : MA Credentials A) (k : A -> MA Credentials B)
  app e app' :
  m app = (inl e, app') -> abind Credentials m k app = (inl e, app').
Proof. intros H. unfold abind. now rewrite H. Qed.

Lemma in_world_run {A : Type} (m : M A) app r w :
  m (world Credentials app) = (r, w) ->
  in_world Credentials m app
  = (r, {| world := w;
           spotify_user_credentials := spotify_user_credentials Credentials app;
           calls := calls Credentials app |}).
Proof. intros H. unfold in_world. now rewrite H. Qed.

(** For a logged-in user without cached credentials the function goes on
    with the database query. *)
Lemma get_spotify_credentials_query app user w1 :
  get_user config env (world Credentials app) = (inr (Some user), w1) ->
  spotify_user_credentials Credentials app !! User_id user = None ->
  let answer := db_fetchrow Credentials app_env (calls Credentials app)
                  refresh_token_query (User_id user) in
  let app1 := {| world := w1;
                 spotify_user_credentials := spotify_user_credentials Credentials app;
                 calls := calls Credentials app
                          ++ [EvFetchrow Credentials refresh_token_query
                                (User_id user) answer] |} in
  get_spotify_credentials Credentials config env app_env app
  = match answer with
    | inl e => (inl e, app1)
    | inr record =>
        match getitem record "spotify_refresh_token" with
        | inl e => (inl e, app1)
        | inr refresh_token =>
            if truthy refresh_token then
              let r := from_refresh_token Credentials app_env
                         (calls Credentials app1) refresh_token in
              let app2 := {| world := w1;
                             spotify_user_credentials :=
                               spotify_user_credentials Credentials app;
                             calls := calls Credentials app1
                                      ++ [EvFromRefreshToken Credentials
                                            refresh_token r] |} in
              match r with
              | inl e => (inl e, app2)
              | inr credentials =>
                  (inr (Some credentials),
                   {| world := w1;
                      spotify_user_credentials :=
                        <[User_id user := credentials]>
                          (spotify_user_credentials Credentials app);
                      calls := calls Credentials app2 |})
              end
            else (inr None, app1)
        end
    end.
Proof.
  intros Hu Hc answer app1.
  unfold get_spotify_credentials.
  rewrite (abind_ok _ _ _ _ _ (in_world_run _ _ _ _ Hu)).
  unfold abind at 1, credentials_get. cbn [spotify_user_credentials].
  rewrite Hc.
  unfold abind at 1, fetchrow. cbn [world spotify_user_credentials calls].
  fold answer. fold app1.
  destruct answer as [e|record]; [reflexivity|].
  unfold abind at 1, alift.
  destruct (getitem record "spotify_refresh_token") as [e|rt]; [reflexivity|].
  destruct (truthy rt); [|reflexivity]. cbn [negb].
  unfold abind at 1, exchange.
  destruct (from_refresh_token Credentials app_env (calls Credentials app1) rt);
    reflexivity.
Qed.

(** X18.  A refresh token is exchanged once: for a logged-in user without cached
    credentials whose row holds a refresh token, the row is queried, the
    token exchanged and the credentials stored under the user's id; the
    next call for the same user returns them from the map, with no query
    and no exchange. *)
Theorem spotify_credentials_exchanged_once app user w1 record refresh_token
  credentials user' w2 :
  get_user config env (world Credentials app) = (inr (Some user), w1) ->
  spotify_user_credentials Credentials app !! User_id user = None ->
  db_fetchrow Credentials app_env (calls Credentials app)
    refresh_token_query (User_id user) = inr record ->
  getitem record "spotify_refresh_token" = inr refresh_token ->
  truthy refresh_token = true ->
  let asked := calls Credentials app
               ++ [EvFetchrow Credentials refresh_token_query (User_id user)
                     (inr record)] in
  from_refresh_token Credentials app_env asked refresh_token = inr credentials ->
  get_user config env w1 = (inr (Some user'), w2) ->
  User_id user' = User_id user ->
  let app1 := snd (get_spotify_credentials Credentials config env app_env app) in
  fst (get_spotify_credentials Credentials config env app_env app)
  = inr (Some credentials) /\
  spotify_user_credentials Credentials app1
  = <[User_id user := credentials]> (spotify_user_credentials Credentials app) /\
  calls Credentials app1
  = asked ++ [EvFromRefreshToken Credentials refresh_token (inr credentials)] /\
  get_spotify_credentials Credentials config env app_env app1
  = (inr (Some credentials),
     {| world := w2;
        spotify_user_credentials := spotify_user_credentials Credentials app1;
        calls := calls Credentials app1 |}).
Proof.
  intros Hu Hc Hdb Hrt Ht asked Hex Hu' Hid app1.
  assert (Hrun := get_spotify_credentials_query app user w1 Hu Hc).
  cbv zeta in Hrun. rewrite Hdb, Hrt, Ht in Hrun.
  cbn [calls] in Hrun. fold asked in Hrun. rewrite Hex in Hrun.
  subst app1. rewrite Hrun. cbn [fst snd spotify_user_credentials calls world].
  split; [reflexivity|]. split; [reflexivity|]. split; [reflexivity|].
  unfold get_spotify_credentials.
  erewrite abind_ok by (apply in_world_run; exact Hu').
  unfold abind, credentials_get, aret. cbn [spotify_user_credentials].
  rewrite Hid, lookup_insert_eq. reflexivity.
Qed.

(** X19.  What does not succeed stores nothing: a visitor who is not logged in
    gets absent without any query; a failing query raises its error, a
    missing row raises [TypeError], a row without a refresh token gives
    absent, a failing exchange raises its error, and only the last of them
    reached Spotify; whenever no credentials are returned,
    [spotify_user_credentials] is as it was. *)
Theorem spotify_credentials_failures_store_nothing app :
  let run := get_spotify_credentials Credentials config env app_env app in
  (forall w1,
      get_user config env (world Credentials app) = (inr None, w1) ->
      fst run = inr None /\ calls Credentials (snd run) = calls Credentials app) /\
  (forall user w1,
      get_user config env (world Credentials app) = (inr (Some user), w1) ->
      spotify_user_credentials Credentials app !! User_id user = None ->
      let answer := db_fetchrow Credentials app_env (calls Credentials app)
                      refresh_token_query (User_id user) in
      let queried := calls Credentials app
                     ++ [EvFetchrow Credentials refresh_token_query
                           (User_id user) answer] in
      (forall e, answer = inl e ->
                 fst run = inl e /\ calls Credentials (snd run) = queried) /\
      (answer = inr JNull ->
       fst run = inl TypeError /\ calls Credentials (snd run) = queried) /\
      (forall record refresh_token,
          answer = inr record ->
          getitem record "spotify_refresh_token" = inr refresh_token ->
          truthy refresh_token = false ->
          fst run = inr None /\ calls Credentials (snd run) = queried) /\
      (forall record refresh_token e,
          answer = inr record ->
          getitem record "spotify_refresh_token" = inr refresh_token ->
          truthy refresh_token = true ->
          from_refresh_token Credentials app_env queried refresh_token = inl e ->
          fst run = inl e /\
          calls Credentials (snd run)
          = queried ++ [EvFromRefreshToken Credentials refresh_token (inl e)])) /\
  ((forall c, fst run <> inr (Some c)) ->
   spotify_user_credentials Credentials (snd run)
   = spotify_user_credentials Credentials app).
Proof.
  intros run.
  assert (Hframe : forall r, fst run = r ->
            (forall c, r <> inr (Some c)) ->
            spotify_user_credentials Credentials (snd run)
            = spotify_user_credentials Credentials app).
  { intros r Hr Hnot. subst run r.
    destruct (get_user config env (world Credentials app)) as [[e|[user|]] w1] eqn:Hu.
    - unfold get_spotify_credentials.
      now erewrite abind_err by (apply in_world_run; exact Hu).
    - destruct (spotify_user_credentials Credentials app !! User_id user) eqn:Hc.
      + unfold get_spotify_credentials.
        erewrite abind_ok by (apply in_world_run; exact Hu).
        unfold abind, credentials_get, aret. cbn [spotify_user_credentials].
        now rewrite Hc.
      + revert Hnot. rewrite (get_spotify_credentials_query app user w1 Hu Hc).
        cbv zeta.
        destruct (db_fetchrow _ _ _ _ _) as [e|record]; [reflexivity|].
        destruct (getitem record _) as [e|rt]; [reflexivity|].
        destruct (truthy rt); [|reflexivity].
        destruct (from_refresh_token _ _ _ _) as [e|c]; [reflexivity|].
        intros Hnot. now destruct (Hnot c).
    - unfold get_spotify_credentials.
      now erewrite abind_ok by (apply in_world_run; exact Hu). }
  split; [|split].
  - intros w1 Hu. subst run. unfold get_spotify_credentials.
    erewrite abind_ok by (apply in_world_run; exact Hu). split; reflexivity.
  - intros user w1 Hu Hc answer queried.
    assert (Hrun := get_spotify_credentials_query app user w1 Hu Hc).
    cbv zeta in Hrun. fold answer in Hrun. cbn [calls] in Hrun.
    fold queried in Hrun. fold run in Hrun.
    split; [|split; [|split]].
    + intros e Ha. rewrite Hrun, Ha. split; reflexivity.
    + intros Ha. rewrite Hrun, Ha. split; reflexivity.
    + intros record rt Ha Hrt Ht. rewrite Hrun, Ha, Hrt, Ht. split; reflexivity.
    + intros record rt e Ha Hrt Ht He. rewrite Hrun, Ha, Hrt, Ht, He.
      split; reflexivity.
  - intros Hsome. apply (Hframe (fst run) eq_refl). exact Hsome.
Qed.

(** X20.  The credentials map only grows, and only at the session's user: in
    every run, returning or raising, an entry that was there is still
    there unchanged, and an entry is new only if it is the credentials
    just returned, stored under the id of the user of the session. *)
Theorem spotify_credentials_map_only_grows app :
  let run := get_spotify_credentials Credentials config env app_env app in
  (forall id c,
      spotify_user_credentials Credentials app !! id = Some c ->
      spotify_user_credentials Credentials (snd run) !! id = Some c) /\
  (forall id c,
      spotify_user_credentials Credentials app !! id = None ->
      spotify_user_credentials Credentials (snd run) !! id = Some c ->
      fst run = inr (Some c) /\
      exists user, fst (get_user config env (world Credentials app)) = inr (Some user) /\
                   User_id user = id).
Proof.
  intros run. subst run.
  destruct (get_user config env (world Credentials app)) as [[e|[user|]] w1] eqn:Hu.
  - unfold get_spotify_credentials.
    erewrite abind_err by (apply in_world_run; exact Hu).
    simpl. split; [auto|].
    intros id c H1 H2. rewrite H1 in H2. discriminate.
  - destruct (spotify_user_credentials Credentials app !! User_id user) as [c0|] eqn:Hc.
    + unfold get_spotify_credentials.
      erewrite abind_ok by (apply in_world_run; exact Hu).
      unfold abind, credentials_get, aret. cbn [spotify_user_credentials].
      rewrite Hc. simpl. split; [auto|].
    intros id c H1 H2. rewrite H1 in H2. discriminate.
    + rewrite (get_spotify_credentials_query app user w1 Hu Hc). cbv zeta.
      destruct (db_fetchrow _ _ _ _ _) as [e|record];
        [simpl; split;
         [auto|intros id c H1 H2; rewrite H1 in H2; discriminate]|].
      destruct (getitem record _) as [e|rt];
        [simpl; split;
         [auto|intros id c H1 H2; rewrite H1 in H2; discriminate]|].
      destruct (truthy rt);
        [|simpl; split;
          [auto|intros id c H1 H2; rewrite H1 in H2; discriminate]].
      destruct (from_refresh_token _ _ _ _) as [e|c];
        [simpl; split;
         [auto|intros id c H1 H2; rewrite H1 in H2; discriminate]|].
      cbn [fst snd spotify_user_credentials]. split.
      * intros id c' Hin. rewrite lookup_insert_ne; [exact Hin|].
        intros <-. congruence.
      * intros id c' Hnone Hnew.
        destruct (decide (User_id user = id)) as [<-|Hne].
        -- rewrite lookup_insert_eq in Hnew. injection Hnew as <-. eauto.
        -- rewrite lookup_insert_ne in Hnew by assumption. congruence.
  - unfold get_spotify_credentials.
    erewrite abind_ok by (apply in_world_run; exact Hu).
    simpl. split; [auto|].
    intros id c H1 H2. rewrite H1 in H2. discriminate.
Qed.

End SpotifyBehaviour.

(** ** Start-up *)

Section StartupBehaviour.
Variables Pool Redis : Type.

Lemma assoc_set_keys (kvs : list (string * json)) k v k' :
  k' ∈ map fst kvs -> k' ∈ map fst (assoc_set kvs k v).
Proof.
  induction kvs as [|[k0 v0] rest IH]; simpl; intros Hin.
  - now apply elem_of_nil in Hin.
  - destruct (String.eqb k k0); simpl; [exact Hin|].
    apply elem_of_cons in Hin as [->|Hin];
      [apply list_elem_of_here|apply list_elem_of_further, IH, Hin].
Qed.

Lemma dict_merge_keys b : forall (a : list (string * json)) k,
  k ∈ map fst a -> k ∈ map fst (dict_merge a b).
Proof.
  induction b as [|[k1 v1] rest IH]; intros a k Hin; [exact Hin|].
  unfold dict_merge. simpl. apply IH. now apply assoc_set_keys.
Qed.

(** X21.  Start-up from a fresh application brings everything up or raises:
    [start] returns normally exactly when the pool was created, Redis
    answered and the bot answered the request for its links; a bot that
    gives no answer makes it raise [TypeError].  In every outcome the
    steps are taken in order and stop at the first failure, Redis is set
    only with the pool, the session storage is the Redis it connected,
    the bot is asked only once both are up, no link is ever lost, and the
    links are as they were unless start-up succeeded. *)
Theorem start_all_or_error (o : StartEnv Pool Redis) INVITE_LINK :
  let app := init Pool Redis INVITE_LINK in
  let result := fst (fst (start Pool Redis o app)) in
  let app' := snd (fst (start Pool Redis o app)) in
  let steps := snd (start Pool Redis o app) in
  (result = inr tt <->
   exists pool r answer,
     create_pool Pool Redis o = Some pool /\
     connect_redis Pool Redis o = inr r /\
     links_answer Pool Redis o = Some answer) /\
  (forall pool r,
      create_pool Pool Redis o = Some pool -> connect_redis Pool Redis o = inr r ->
      links_answer Pool Redis o = None -> result = inl StartTypeError) /\
  (create_pool Pool Redis o = None ->
   result = inl StartConnectionError /\ app' = app /\ steps = [ConnectPostgres]) /\
  (redis Pool Redis app' <> None -> db Pool Redis app' <> None) /\
  session_storage Pool Redis app' = redis Pool Redis app' /\
  (RequestLinks ∈ steps ->
   db Pool Redis app' = create_pool Pool Redis o /\ db Pool Redis app' <> None /\
   redis Pool Redis app' <> None) /\
  (forall key, key ∈ map fst (links Pool Redis app) ->
               key ∈ map fst (links Pool Redis app')) /\
  (result <> inr tt -> links Pool Redis app' = links Pool Redis app) /\
  (forall answer key,
      result = inr tt -> links_answer Pool Redis o = Some answer ->
      NoDup (map fst answer) ->
      assoc_get (links Pool Redis app') key
      = match assoc_get answer key with
        | Some v => Some v
        | None => assoc_get (links Pool Redis app) key
        end).
Proof.
  intros app result app' steps. subst result app' steps. unfold start.
  destruct (create_pool Pool Redis o) as [pool|] eqn:Hpool;
    [destruct (connect_redis Pool Redis o) as [[| |name]|r] eqn:Hredis;
     [| | |destruct (links_answer Pool Redis o) as [answer|] eqn:Hlinks]|];
    cbn [fst snd db redis session_storage links app init].
  all: repeat match goal with |- _ /\ _ => split end.
  all: try (intros; congruence).
  all: try (split; [intros; discriminate|intros (? & ? & ? & ? & ? & ?); discriminate]).
  all: try (intros; exfalso; congruence).
  all: try reflexivity.
  all: try (intros Hin; repeat (apply elem_of_cons in Hin as [Hin|Hin];
                                [discriminate|]); now apply elem_of_nil in Hin).
  all: try (intros key Hin; exact Hin).
  - split; [intros _; exists pool, r, answer; auto|reflexivity].
  - intros _. repeat split; discriminate.
  - intros key Hin. now apply dict_merge_keys.
  - intros answer' key _ [= <-] Hnd. now apply assoc_get_merge.
  - intros _. repeat split; discriminate.
  - intros _. repeat split.
Qed.

End StartupBehaviour.

Import SpecObjects.

(** The spec's scenario: the token obtained at 0 for 3600 seconds is read at
    3700; the provider hands out the access token "B". *)
Lemma C1_expired_token_one_refresh_witness :
  let w := world0 [("token", token_A)] in
  let env := env0 3700 (ok token_B) (inl TypeError) None in
  count is_refresh_call (since w (snd (get_token config0 env w))) = 1%nat /\
  fst (get_token config0 env w) = inr (Some Token_B) /\
  session (snd (get_token config0 env w)) = <["token" := token_B]> (session w).
Proof.
  intros w env.
  destruct (C1_expired_token_one_refresh (objects := spec_objects) config0 env w
              token_A Token_A)
    as (Hone & _ & Hok); try reflexivity.
  destruct (Hok token_B JNull Token_B) as (Hret & Hset & _); try reflexivity.
  auto.
Defined.

(** The provider rejects the refresh token with [invalid_grant]. *)
Lemma C3_failed_refresh_raises_witness :
  let w := world0 [("token", token_A)] in
  let env := env0 3700 (ok (JObj [("error", JStr "invalid_grant")])) (inl TypeError) None in
  (exists message,
      fst (get_token config0 env w)
      = inl (HTTPException (ok (JObj [("error", JStr "invalid_grant")])) message)) /\
  session (snd (get_token config0 env w)) !! "token" = Some token_A.
Proof.
  intros w env.
  destruct (C3_failed_refresh_raises (objects := spec_objects) config0 env w
              token_A Token_A)
    as (Hraise & _ & Hkept); try reflexivity.
  - right. exists (JObj [("error", JStr "invalid_grant")]), (JStr "invalid_grant").
    repeat split; reflexivity.
  - auto.
Defined.

(** C3 as stated fails on a 200 answer whose body has an empty [error]
    field: the session has an expired token, the body contains the field,
    yet no [HTTPException] is raised and the stale [token] is overwritten
    with the body. *)
Lemma C3_empty_error_field_counterexample :
  let w := world0 [("token", token_A)] in
  let answer := ok (JObj [("error", JStr "")]) in
  let env := env0 3700 answer (inl TypeError) None in
  session w !! "token" = Some token_A /\
  Token_new token_A = inr Token_A /\
  Token_is_expired Token_A (clock env (trace w)) = true /\
  refresh_answer config0 env w Token_A = answer /\
  (exists d', body answer = Some d' /\ getitem d' "error" = inr (JStr "")) /\
  (forall response message,
      fst (get_token config0 env w) <> inl (HTTPException response message)) /\
  session (snd (get_token config0 env w)) !! "token" = Some (JObj [("error", JStr "")]) /\
  session (snd (get_token config0 env w)) !! "token" <> session w !! "token".
Proof.
  intros w answer env.
  repeat split; try reflexivity.
  - eexists. split; reflexivity.
  - intros response message. vm_compute. discriminate.
  - vm_compute. discriminate.
Qed.

(** The same token read at 100 is still good; and a session that never
    logged in. *)
Lemma C4_cache_hit_and_absent_witness :
  let w := world0 [("token", token_A)] in
  let env := env0 100 (ok token_B) (inl TypeError) None in
  (fst (get_token config0 env w) = inr (Some Token_A) /\
   count is_network_call (since w (snd (get_token config0 env w))) = O /\
   session (snd (get_token config0 env w)) = session w) /\
  get_token config0 env (world0 []) = (inr None, world0 []).
Proof.
  intros w env. split.
  - destruct (C4_cache_hit_and_absent (objects := spec_objects) config0 env w)
      as [Hhit _].
    destruct (Hhit token_A Token_A) as (Hret & _ & Hnet & Hses); try reflexivity.
    auto.
  - destruct (C4_cache_hit_and_absent (objects := spec_objects) config0 env (world0 []))
      as [_ Habsent].
    apply Habsent. reflexivity.
Defined.

(** A session that holds nothing; and one whose cached user went stale. *)
Lemma C2_no_token_absent_unless_cached_witness :
  get_user config0 (env_fresh None) (world0 []) = (inr None, world0 []) /\
  get_user_guilds config0 (env_fresh None) (world0 []) = (inr None, world0 []) /\
  fst (get_user config0 (env_stale []) cached_only) = inr None /\
  fst (get_user_guilds config0 (env_stale []) cached_only) = inr None.
Proof.
  destruct (C2_no_token_absent_unless_cached (objects := spec_objects)
              config0 (env_fresh None) (world0 []))
    as (Huser & _ & Hguilds & _); [reflexivity|].
  destruct (C2_no_token_absent_unless_cached (objects := spec_objects)
              config0 (env_stale []) cached_only)
    as (_ & Hstale & _ & Hstales); [reflexivity|].
  split; [|split; [|split]].
  - now apply Huser.
  - now apply Hguilds.
  - rewrite (Hstale (user_record "7" 0) (mkCached (user_record "7" 0) 7 0));
      reflexivity.
  - rewrite (Hstales (JList [guild_record "1" 0]) [(1, Guild_at "1" 1 0)]);
      reflexivity.
Defined.

(** C2 as stated fails on a session that has no [token] field and holds a
    cached user and a cached guild list that are not expired: both are
    returned. *)
Lemma C2_cached_without_token_counterexample :
  session cached_only !! "token" = None /\
  fst (get_user config0 (env_fresh None) cached_only)
  = inr (Some (mkCached (user_record "7" 0) 7 0)) /\
  fst (get_user_guilds config0 (env_fresh None) cached_only)
  = inr (Some [(1, Guild_at "1" 1 0)]) /\
  fst (get_user config0 (env_fresh None) cached_only) <> inr None /\
  fst (get_user_guilds config0 (env_fresh None) cached_only) <> inr None.
Proof.
  repeat split; try reflexivity; vm_compute; discriminate.
Qed.

(** A session that holds nothing; and one whose cached guilds went
    stale. *)
Lemma C5_no_token_short_circuit_witness :
  fst (get_related_guilds config0 (env_fresh (Some [1])) 7 None (world0 []))
  = inr nothing /\
  fst (get_related_guilds config0 (env_stale []) 7 (Some 1) cached_only)
  = inr nothing /\
  count is_ipc_call
    (since cached_only
       (snd (get_related_guilds config0 (env_stale []) 7 (Some 1) cached_only))) = O.
Proof.
  destruct (C5_no_token_short_circuit (objects := spec_objects)
              config0 (env_fresh (Some [1])) (world0 []) 7 None)
    as (Hnothing & _); [reflexivity|now left|].
  destruct (C5_no_token_short_circuit (objects := spec_objects)
              config0 (env_stale []) cached_only 7 (Some 1))
    as (Hstale & Hipc & _); [reflexivity| |].
  - right. exists (JList [guild_record "1" 0]), [(1, Guild_at "1" 1 0)].
    repeat split; reflexivity.
  - auto.
Defined.

(** C5 as stated fails on a session that has no token and holds a cached
    guild list that is not expired: the bot is asked and the guilds are
    classified. *)
Lemma C5_cached_without_token_counterexample :
  let run := get_related_guilds config0 (env_fresh (Some [1])) 7 None cached_only in
  session cached_only !! "token" = None /\
  fst run = inr {| mutual_guilds := Some [guild_record "1" 0];
                   non_mutual_guilds := Some [];
                   guild := None |} /\
  fst run <> inr nothing /\
  count is_ipc_call (since cached_only (snd run)) = 1%nat.
Proof.
  repeat split; try reflexivity. vm_compute. discriminate.
Qed.

(** The bot shares the guilds 1 and 3 of the three cached ones. *)
Lemma C6_partition_witness :
  exists r w',
    get_related_guilds config0 (env_fresh (Some [1; 3])) 7 None three_guilds
    = (inr r, w') /\
    mutual_guilds r = Some [guild_record "1" 0; guild_record "3" 0] /\
    non_mutual_guilds r = Some [guild_record "2" 0].
Proof.
  pose (w1 := snd (get_user_guilds config0 (env_fresh (Some [1; 3])) three_guilds)).
  destruct (C6_partition (objects := spec_objects) (int := spec_int) config0
              (env_fresh (Some [1; 3])) three_guilds w1 mapping_123 7 None
              ltac:(vm_compute; reflexivity))
    as (r & w' & Hrun & _ & _ & Hsome & _).
  destruct Hsome as [Hm Hn]; [discriminate|].
  exists r, w'. split; [exact Hrun|]. rewrite Hm, Hn. split; reflexivity.
Defined.

(** Guild 2 is a key of the user's mapping, the bot shares the guilds 1 and
    3 only: asking for guild 2 yields no guild. *)
Lemma C7_lookup_within_mutual_witness :
  2 ∈ keys mapping_123 /\
  exists r w',
    get_related_guilds config0 (env_fresh (Some [1; 3])) 7 (Some 2) three_guilds
    = (inr r, w') /\
    guild r = None.
Proof.
  split; [apply list_elem_of_further, list_elem_of_here|].
  pose (w1 := snd (get_user_guilds config0 (env_fresh (Some [1; 3])) three_guilds)).
  destruct (C7_lookup_within_mutual (objects := spec_objects) (int := spec_int) config0
              (env_fresh (Some [1; 3])) three_guilds w1 mapping_123 7 (Some 2)
              ltac:(vm_compute; reflexivity))
    as (r & w' & Hrun & Habsent & _).
  exists r, w'. split; [exact Hrun|].
  apply (Habsent 2); [reflexivity|].
  change (2 ∉ [1; 3]). intros Hin.
  repeat (apply elem_of_cons in Hin as [Hin|Hin]; [discriminate|]).
  now apply elem_of_nil in Hin.
Defined.

(** The bot gives no answer. *)
Lemma C8_no_answer_degrades_witness :
  fst (get_related_guilds config0 (env_fresh None) 7 None three_guilds)
  = inr {| mutual_guilds := Some [];
           non_mutual_guilds :=
             Some [guild_record "1" 0; guild_record "2" 0; guild_record "3" 0];
           guild := None |}.
Proof.
  rewrite (C8_no_answer_degrades (objects := spec_objects) config0 (env_fresh None)
             three_guilds
             (snd (get_user_guilds config0 (env_fresh None) three_guilds))
             mapping_123 7 None); [reflexivity|reflexivity|discriminate|reflexivity].
Defined.

(** A guild list of two entries stamped 100 and 105, read from 400 on with
    a time-to-live of 300: the first entry alone is expired, the whole list
    is fetched once, and the three entries listed are stored, each with the
    reading taken for it (403, 404, 405); the entry that was not expired is
    replaced like the others.  And the same session read at 100: served
    from the cache. *)
Lemma C9_guild_list_cache_witness :
  let env := env_ticking 400 (ok token_B) (inr (JList listing_123)) (Some [1]) in
  let w' := snd (get_user_guilds config0 env two_guilds) in
  (Guild_is_expired (Guild_at "1" 1 100) 400 = true /\
   Guild_is_expired (Guild_at "2" 2 105) 400 = false /\
   fst (get_user_guilds config0 env two_guilds)
   = inr (Some [(1, Guild_at "1" 1 403); (2, Guild_at "2" 2 404); (3, Guild_at "3" 3 405)]) /\
   count is_guild_fetch (since two_guilds w') = 1%nat /\
   count (is_write "guilds") (since two_guilds w') = 1%nat /\
   session w' !! "guilds"
   = Some (JList [guild_record "1" 403; guild_record "2" 404; guild_record "3" 405])) /\
  (fst (get_user_guilds config0 (env_fresh None) two_guilds) = inr (Some mapping_12) /\
   count is_network_call
     (since two_guilds (snd (get_user_guilds config0 (env_fresh None) two_guilds))) = O).
Proof.
  intros env w'. split.
  - pose (w1 := expiry_checked (objects := spec_objects) env (values mapping_12) two_guilds).
    pose (w2 := snd (get_token (objects := spec_objects) config0 env w1)).
    destruct (C9_guild_list_cache (objects := spec_objects) (int := spec_int) config0 env
                two_guilds (JList [guild_record "1" 100; guild_record "2" 105]) mapping_12
                eq_refl eq_refl eq_refl)
      as [_ Hstale].
    destruct (Hstale eq_refl Token_A w2 eq_refl) as [Hone Hlist].
    destruct (Hlist listing_123 eq_refl
                ltac:(repeat constructor))
      as (Hses & Hwrite & _ & _ & Hret).
    fold w' in Hone, Hses, Hwrite.
    split; [reflexivity|]. split; [reflexivity|].
    split; [exact (Hret _ eq_refl)|].
    split; [exact Hone|]. split; [exact Hwrite|].
    rewrite Hses. reflexivity.
  - destruct (C9_guild_list_cache (objects := spec_objects) (int := spec_int) config0
                (env_fresh None) two_guilds
                (JList [guild_record "1" 100; guild_record "2" 105]) mapping_12
                eq_refl eq_refl eq_refl)
      as [Hfresh _].
    destruct (Hfresh eq_refl) as (Hret & _ & Hnet & _).
    rewrite Hret. split; [reflexivity|exact Hnet].
Defined.

(** C9 as stated fails on a logged-in session whose token is good and whose
    cached guild list has an expired entry, when the identity endpoint does
    not answer the fetch: the fetch is made, its exception goes to the
    caller, no mapping is returned and the [guilds] field is not
    overwritten. *)
Lemma C9_failed_refetch_counterexample :
  let env := env_ticking 400 (ok token_B) (inl unavailable) (Some [1]) in
  let w' := snd (get_user_guilds config0 env two_guilds) in
  session two_guilds !! "guilds"
  = Some (JList [guild_record "1" 100; guild_record "2" 105]) /\
  guilds_dict (JList [guild_record "1" 100; guild_record "2" 105]) = inr mapping_12 /\
  Guild_is_expired (Guild_at "1" 1 100) (clock env (trace two_guilds)) = true /\
  fst (get_token config0 env two_guilds) = inr (Some Token_A) /\
  count is_guild_fetch (since two_guilds w') = 1%nat /\
  fst (get_user_guilds config0 env two_guilds) = inl unavailable /\
  count (is_write "guilds") (since two_guilds w') = O /\
  session w' !! "guilds" = session two_guilds !! "guilds".
Proof.
  repeat split; reflexivity.
Qed.

(** A user in no guild, logged in at 0 and asking three times at 100. *)
Lemma C10_zero_guilds_like_logged_out_witness :
  let env := env0 100 (ok token_B) (inr (JList [])) (Some [1]) in
  let w := world0 [("token", token_A)] in
  let run := repeat_related_guilds config0 env 7 None 3 w in
  fst (get_related_guilds config0 env 7 None w) = inr nothing /\
  fst run = inr [nothing; nothing; nothing] /\
  count is_ipc_call (since w (snd run)) = O /\
  count is_guild_fetch (since w (snd run)) = 3%nat.
Proof.
  intros env w run.
  destruct (C10_zero_guilds_like_logged_out (objects := spec_objects)
              (int := spec_int) config0 env w token_A Token_A 7 None
              eq_refl eq_refl eq_refl (fun _ => eq_refl) (fun _ => eq_refl)
              (or_introl eq_refl))
    as (Hone & _ & Hmany).
  destruct (Hmany 3%nat) as (Hret & Hipc & Hfetch & _).
  split; [exact Hone|]. split; [exact Hret|]. split; assumption.
Defined.

(** The spec's second scenario, end to end: the guild cached at 0 is stale
    at 400 and the bot shares guild 1; one refetch, one IPC call, guild 1
    is mutual. *)
Example scenario_refetch_then_classify :
  let env := env_stale [fresh_guild_record "1"] in
  let run := get_related_guilds config0 env 7 None one_guild in
  fst run = inr {| mutual_guilds := Some [guild_record "1" 400];
                   non_mutual_guilds := Some [];
                   guild := None |} /\
  count is_guild_fetch (since one_guild (snd run)) = 1%nat /\
  count is_ipc_call (since one_guild (snd run)) = 1%nat /\
  count is_refresh_call (since one_guild (snd run)) = O.
Proof. repeat split; vm_compute; reflexivity. Qed.

Import SpecEndpoints.

(** The token of time 0 is refreshed at 3700 into the token "B", which is
    then served from the session. *)
Lemma get_token_refresh_then_hit_witness :
  let w := world0 [("token", token_A)] in
  let env := env0 3700 (ok token_B) (inl TypeError) None in
  let w1 := snd (get_token config0 env w) in
  fst (get_token config0 env w) = inr (Some Token_B) /\
  get_token config0 env w1 = (inr (Some Token_B), checked env w1).
Proof.
  intros w env w1.
  destruct (get_token_refresh_then_hit (objects := spec_objects) config0 env w
              token_A Token_A token_B JNull Token_B
              eq_refl eq_refl eq_refl eq_refl eq_refl eq_refl eq_refl eq_refl
              eq_refl eq_refl eq_refl)
    as (Hfirst & Hsecond & _).
  split; assumption.
Defined.

(** The provider answers 200 with a text that does not parse, with a
    content type that is not JSON, and with an empty text. *)
Lemma get_token_unreadable_answer_witness :
  let w := world0 [("token", token_A)] in
  let malformed := {| status := 200; body := None; unreadable := MalformedJson |} in
  let html := {| status := 200; body := None; unreadable := NotJsonContent |} in
  let env1 := env0 3700 malformed (inl TypeError) None in
  let env2 := env0 3700 html (inl TypeError) None in
  let env3 := env0 3700 (ok JNull) (inl TypeError) None in
  (fst (get_token config0 env1 w) = inl JSONDecodeError /\
   session (snd (get_token config0 env1 w)) !! "token" = Some token_A) /\
  (fst (get_token config0 env2 w) = inl ContentTypeError /\
   session (snd (get_token config0 env2 w)) !! "token" = Some token_A) /\
  (fst (get_token config0 env3 w) = inl AttributeError /\
   session (snd (get_token config0 env3 w)) !! "token" = Some token_A).
Proof.
  intros w malformed html env1 env2 env3.
  destruct (get_token_unreadable_answer (objects := spec_objects) config0 env1 w
              token_A Token_A eq_refl eq_refl eq_refl eq_refl eq_refl)
    as (Hnone1 & _ & Hs1 & _).
  destruct (get_token_unreadable_answer (objects := spec_objects) config0 env2 w
              token_A Token_A eq_refl eq_refl eq_refl eq_refl eq_refl)
    as (Hnone2 & _ & Hs2 & _).
  destruct (get_token_unreadable_answer (objects := spec_objects) config0 env3 w
              token_A Token_A eq_refl eq_refl eq_refl eq_refl eq_refl)
    as (_ & Hsome3 & Hs3 & _).
  destruct (Hnone1 eq_refl) as (Hrun1 & _ & Hdec).
  destruct (Hnone2 eq_refl) as (Hrun2 & Hct & _).
  assert (Hrun3 := Hsome3 JNull eq_refl (fun H => H)).
  split; [|split].
  - split; [exact (Hdec eq_refl)|]. rewrite Hrun1. cbn [snd]. rewrite Hs1. reflexivity.
  - split; [exact (Hct eq_refl)|]. rewrite Hrun2. cbn [snd]. rewrite Hs2. reflexivity.
  - rewrite Hrun3. cbn [fst snd]. rewrite Hs3. split; reflexivity.
Defined.

(** The provider answers 200 with the empty object. *)
Lemma get_token_empty_answer_logs_out_witness :
  let w := world0 [("token", token_A)] in
  let env := env0 3700 (ok (JObj [])) (inl TypeError) None in
  let w1 := snd (get_token config0 env w) in
  session w1 !! "token" = Some (JObj []) /\
  get_token config0 env w1 = (inr None, w1).
Proof.
  intros w env w1.
  destruct (get_token_empty_answer_logs_out (objects := spec_objects) config0 env w
              token_A Token_A eq_refl eq_refl eq_refl eq_refl eq_refl eq_refl)
    as (Hstored & Hnone & _).
  split; assumption.
Defined.

(** A session with a good token and no cached user, read at 100. *)
Lemma fetch_user_then_hit_witness :
  let w := world0 [("token", token_A)] in
  let env := env0 100 (ok token_B) (inr (JObj [("id", JStr "7")])) None in
  let w' := snd (fetch_user config0 env w) in
  fst (fetch_user config0 env w)
  = inr (Some (mkCached (JObj [("id", JStr "7"); ("fetched_at", JNum 100)]) 7 100)) /\
  fst (get_user config0 env w')
  = inr (Some (mkCached (JObj [("id", JStr "7"); ("fetched_at", JNum 100)]) 7 100)).
Proof.
  intros w env w'.
  destruct (fetch_user_then_hit (objects := spec_objects) config0 env w Token_A
              (checked env w) (JObj [("id", JStr "7")])
              (mkCached (JObj [("id", JStr "7"); ("fetched_at", JNum 100)]) 7 100)
              eq_refl eq_refl I eq_refl)
    as (Hret & _ & _ & _ & Hhit).
  split; [exact Hret|].
  destruct (Hhit eq_refl) as [Hagain _]. fold w' in Hagain. now rewrite Hagain.
Defined.

(** The stale token "A" is refreshed into "B" before the requests go
    out. *)
Lemma fetches_use_refreshed_token_witness :
  let w := world0 [("token", token_A)] in
  let env := env0 3700 (ok token_B) (inr (JList [])) None in
  Forall (carries (JStr "B")) (since w (snd (fetch_user config0 env w))) /\
  EvRequest "GET" "/users/@me/guilds" (JStr "B") (inr (JList []))
    ∈ since w (snd (fetch_user_guilds config0 env w)).
Proof.
  intros w env.
  destruct (fetches_use_refreshed_token (objects := spec_objects) (int := spec_int)
              config0 env w token_A Token_A token_B JNull Token_B
              eq_refl eq_refl eq_refl eq_refl eq_refl eq_refl eq_refl eq_refl eq_refl)
    as (Huser & _ & _ & Hguilds).
  split; assumption.
Defined.

(** The guild list of [two_guilds] is stale at 400.  When the identity
    endpoint is down the cached list stays; when it lists a record without
    [id], [KeyError] is raised with the cached list already replaced by the
    stamped record. *)
Lemma guild_refetch_failures_witness :
  let down := env_ticking 400 (ok token_B) (inl unavailable) None in
  let nameless := env_ticking 400 (ok token_B)
                    (inr (JList [JObj [("name", JStr "guild")]])) None in
  (fst (get_user_guilds config0 down two_guilds) = inl unavailable /\
   session (snd (get_user_guilds config0 down two_guilds)) !! "guilds"
   = Some (JList [guild_record "1" 100; guild_record "2" 105])) /\
  (fst (get_user_guilds config0 nameless two_guilds) = inl (KeyError "id") /\
   session (snd (get_user_guilds config0 nameless two_guilds)) !! "guilds"
   = Some (JList [JObj [("name", JStr "guild"); ("fetched_at", JNum 403)]])).
Proof.
  intros down nameless. split.
  - destruct (guild_refetch_failures (objects := spec_objects)
                (int := spec_int) config0 down two_guilds
                (JList [guild_record "1" 100; guild_record "2" 105]) mapping_12
                eq_refl eq_refl eq_refl eq_refl)
      as (_ & Hfails & _).
    pose (w1 := expiry_checked (objects := spec_objects) down (values mapping_12) two_guilds).
    destruct (Hfails Token_A (checked down w1) unavailable eq_refl eq_refl)
      as (Hrun & Hkept).
    rewrite Hrun. split; [reflexivity|exact Hkept].
  - destruct (guild_refetch_failures (objects := spec_objects)
                (int := spec_int) config0 nameless two_guilds
                (JList [guild_record "1" 100; guild_record "2" 105]) mapping_12
                eq_refl eq_refl eq_refl eq_refl)
      as (_ & _ & _ & Hlate & _).
    pose (w1 := expiry_checked (objects := spec_objects) nameless (values mapping_12) two_guilds).
    destruct (Hlate Token_A (checked nameless w1) [JObj [("name", JStr "guild")]]
                (KeyError "id") eq_refl eq_refl ltac:(repeat constructor) eq_refl)
      as (Hraise & Hstored).
    split; [exact Hraise|]. rewrite Hstored. reflexivity.
Defined.

(** Guild 1 is listed twice: the mapping has two entries and holds the
    entry listed last. *)
Lemma guilds_mapping_shape_witness :
  NoDup (keys [(1, Guild_at "1" 1 5); (2, Guild_at "2" 2 0)]) /\
  pydict_get [(1, Guild_at "1" 1 5); (2, Guild_at "2" 2 0)] 1 = Some (Guild_at "1" 1 5).
Proof.
  destruct (guilds_mapping_shape (objects := spec_objects) (int := spec_int)
              listed_twice
              [guild_record "1" 0; guild_record "2" 0; guild_record "1" 5]
              [(1, Guild_at "1" 1 5); (2, Guild_at "2" 2 0)] eq_refl eq_refl)
    as (Hnd & _ & _ & Hlast).
  split; [exact Hnd|].
  apply (Hlast [guild_record "1" 0; guild_record "2" 0] (guild_record "1" 5) [] 1);
    [reflexivity|reflexivity|reflexivity|constructor].
Defined.

(** A logged-in session fetches the guilds 1, 2 and 3 while time passes:
    the token is checked at 400, the list asked for, and the three entries
    are stamped 402, 403 and 404 and stored in the order sent. *)
Lemma refetched_mapping_has_fetched_ids_witness :
  let env := env_ticking 400 (ok token_B) (inr (JList listing_123)) None in
  let w := world0 [("token", token_A)] in
  fst (fetch_user_guilds config0 env w)
  = inr (Some [(1, Guild_at "1" 1 402); (2, Guild_at "2" 2 403); (3, Guild_at "3" 3 404)]) /\
  session (snd (fetch_user_guilds config0 env w)) !! "guilds"
  = Some (JList [guild_record "1" 402; guild_record "2" 403; guild_record "3" 404]) /\
  (2 ∈ keys [(1, Guild_at "1" 1 402); (2, Guild_at "2" 2 403); (3, Guild_at "3" 3 404)] <->
   exists data, data ∈ listing_123 /\ guild_key data = inr 2).
Proof.
  intros env w.
  destruct (refetched_mapping_has_fetched_ids (objects := spec_objects)
              (int := spec_int) config0 env w Token_A (checked env w)
              listing_123
              [(1, Guild_at "1" 1 402); (2, Guild_at "2" 2 403); (3, Guild_at "3" 3 404)]
              eq_refl eq_refl eq_refl)
    as (Hkeys & _ & _ & Hstored & _).
  split; [reflexivity|]. split; [|apply Hkeys].
  rewrite Hstored. reflexivity.
Defined.

(** Guild 3 is asked for and the bot shares the guilds 1 and 3. *)
Lemma requested_guild_lookup_witness :
  exists r,
    fst (get_related_guilds config0 (env_fresh (Some [1; 3])) 7 (Some 3) three_guilds)
    = inr r /\
    guild r = Some (guild_record "3" 0).
Proof.
  pose (w1 := snd (get_user_guilds config0 (env_fresh (Some [1; 3])) three_guilds)).
  destruct (requested_guild_lookup (objects := spec_objects) (int := spec_int) config0
              (env_fresh (Some [1; 3])) three_guilds w1 mapping_123 7 (Some 3)
              ltac:(vm_compute; reflexivity) ltac:(discriminate))
    as (r & Hrun & Hguild & _).
  exists r. split; [exact Hrun|]. rewrite Hguild. reflexivity.
Defined.

(** A visitor with an empty session. *)
Lemma pages_redirect_when_logged_out_witness :
  servers config0 (env_fresh None) links0 (world0 [])
  = (inr (HTTPFound "/login"), world0 []) /\
  server config0 (env_fresh None) links0 "3" (world0 [])
  = (inr (HTTPFound "/login"), world0 []).
Proof.
  destruct (pages_redirect_when_logged_out (objects := spec_objects)
              (user_object := spec_user_object) (int := spec_int)
              config0 (env_fresh None) links0 (world0 []) eq_refl eq_refl)
    as [Hservers Hserver].
  split; [exact Hservers|apply Hserver].
Defined.

(** User 7 opens the page of guild 3, which the bot shares. *)
Lemma server_page_only_for_shared_guild_witness :
  let env := env_fresh (Some [1; 3]) in
  exists context (g : cached) answer,
    fst (server config0 env links0 "3" logged_in) = inr (Context context) /\
    EvIpc "mutual_guild_ids" 7 answer
      ∈ since logged_in (snd (server config0 env links0 "3" logged_in)) /\
    3 ∈ shared_ids answer /\ record_id g = 3 /\
    assoc_get context "guild" = Some (record g).
Proof.
  intros env.
  pose (run := server config0 env links0 "3" logged_in).
  pose (context := match fst run with inr (Context c) => c | _ => [] end).
  assert (Hrun : run = (inr (Context context), snd run)) by (vm_compute; reflexivity).
  destruct (server_page_only_for_shared_guild (objects := spec_objects)
              (user_object := spec_user_object) (int := spec_int)
              config0 env links0 "3" logged_in context (snd run) Hrun)
    as (user & id & g & answer & Hu & Hid & _ & Hipc & Hin & Hg & Hguild & _).
  { repeat constructor. intros Hin. now apply elem_of_nil in Hin. }
  injection Hid as <-.
  assert (Hseven : User_id user = 7).
  { vm_compute in Hu. injection Hu as <-. reflexivity. }
  rewrite Hseven in Hipc.
  exists context, g, answer. split; [exact (f_equal fst Hrun)|]. auto.
Defined.

(** User 7 opens the page of guild 2, which the bot does not share. *)
Lemma server_refuses_unshared_guild_witness :
  fst (server config0 (env_fresh (Some [1; 3])) links0 "2" logged_in)
  = inr (WebResponse no_access 401).
Proof.
  pose (env := env_fresh (Some [1; 3])).
  pose (w1 := snd (get_user config0 env logged_in)).
  pose (w2 := snd (get_user_guilds config0 env w1)).
  apply (server_refuses_unshared_guild (objects := spec_objects)
           (user_object := spec_user_object) (int := spec_int)
           config0 env links0 "2" logged_in User_7 w1 2 (Some mapping_123) w2);
    try (vm_compute; reflexivity).
  right. change (2 ∉ [1; 3]). intros Hin.
  repeat (apply elem_of_cons in Hin as [Hin|Hin]; [discriminate|]).
  now apply elem_of_nil in Hin.
Defined.

(** User 7 opens the overview. *)
Lemma servers_shows_own_guilds_witness :
  let env := env_fresh (Some [1; 3]) in
  exists context,
    fst (servers config0 env links0 logged_in) = inr (Context context) /\
    assoc_get context "user" = Some (user_record "7" 0) /\
    assoc_get context "invite_link" = Some (JStr "https://invite") /\
    assoc_get context "mutual_guilds"
    = Some (JList [guild_record "1" 0; guild_record "3" 0]).
Proof.
  intros env.
  pose (w1 := snd (get_user config0 env logged_in)).
  pose (run := get_related_guilds config0 env 7 None w1).
  pose (r := match fst run with inr r => r | inl _ => nothing end).
  destruct (servers_shows_own_guilds (objects := spec_objects)
              (user_object := spec_user_object) (int := spec_int)
              config0 env links0 logged_in User_7 w1 r (snd run))
    as (context & Hrun & Huser & Hmutual & _ & _ & Hlinks & _).
  { vm_compute. reflexivity. }
  { vm_compute. reflexivity. }
  { repeat constructor. intros Hin. now apply elem_of_nil in Hin. }
  exists context. split; [now rewrite Hrun|]. split; [exact Huser|].
  split.
  - rewrite Hlinks; [reflexivity|]. intros Hin.
    repeat (apply elem_of_cons in Hin as [Hin|Hin]; [discriminate|]).
    now apply elem_of_nil in Hin.
  - rewrite Hmutual. vm_compute. reflexivity.
Defined.

(** User 7, whose row holds a refresh token, asks twice. *)
Lemma spotify_credentials_exchanged_once_witness :
  let env := env_fresh None in
  let app1 := snd (get_spotify_credentials string config0 env app_env0 (app0 logged_in)) in
  fst (get_spotify_credentials string config0 env app_env0 (app0 logged_in))
  = inr (Some "C") /\
  fst (get_spotify_credentials string config0 env app_env0 app1) = inr (Some "C") /\
  calls string (snd (get_spotify_credentials string config0 env app_env0 app1))
  = calls string app1.
Proof.
  intros env app1.
  pose (w1 := snd (get_user config0 env logged_in)).
  pose (w2 := snd (get_user config0 env w1)).
  destruct (spotify_credentials_exchanged_once (objects := spec_objects)
              (user_object := spec_user_object) string config0 env app_env0
              (app0 logged_in) User_7 w1
              (JObj [("spotify_refresh_token", JStr "S")]) (JStr "S") "C" User_7 w2)
    as (Hfirst & _ & _ & Hsecond); try (vm_compute; reflexivity).
  fold app1 in Hsecond. split; [exact Hfirst|]. now rewrite Hsecond.
Defined.

(** A visitor with an empty session; and user 7 when Spotify refuses the
    refresh token. *)
Lemma spotify_credentials_failures_store_nothing_witness :
  let env := env_fresh None in
  let refusing : AppEnv string :=
    {| db_fetchrow := fun _ _ _ => inr (JObj [("spotify_refresh_token", JStr "S")]);
       from_refresh_token := fun _ _ => inl ValueError |} in
  fst (get_spotify_credentials string config0 env app_env0 (app0 (world0 [])))
  = inr None /\
  calls string (snd (get_spotify_credentials string config0 env app_env0
                       (app0 (world0 [])))) = [] /\
  spotify_user_credentials string
    (snd (get_spotify_credentials string config0 env refusing (app0 logged_in))) = ∅.
Proof.
  intros env refusing.
  destruct (spotify_credentials_failures_store_nothing (objects := spec_objects)
              (user_object := spec_user_object) string config0 env app_env0
              (app0 (world0 [])))
    as (Hvisitor & _).
  destruct (Hvisitor (world0 []) ltac:(vm_compute; reflexivity)) as [Hnone Hcalls].
  destruct (spotify_credentials_failures_store_nothing (objects := spec_objects)
              (user_object := spec_user_object) string config0 env refusing
              (app0 logged_in))
    as (_ & _ & Hkept).
  split; [exact Hnone|]. split; [exact Hcalls|].
  rewrite Hkept; [reflexivity|]. intros c. vm_compute. discriminate.
Defined.

(** User 7 asks while the credentials of user 8 are in the map. *)
Lemma spotify_credentials_map_only_grows_witness :
  let env := env_fresh None in
  let app := {| world := logged_in;
                spotify_user_credentials := {[ 8 := "D" ]};
                calls := [] |} in
  spotify_user_credentials string
    (snd (get_spotify_credentials string config0 env app_env0 app)) !! 8 = Some "D".
Proof.
  intros env app.
  destruct (spotify_credentials_map_only_grows (objects := spec_objects)
              (user_object := spec_user_object) string config0 env app_env0 app)
    as (Hkept & _).
  apply Hkept. reflexivity.
Defined.

(** Everything answers; the bot adds a link. *)
Lemma start_all_or_error_witness :
  let o : StartEnv nat nat :=
    {| create_pool := Some 1%nat; connect_redis := inr 2%nat;
       links_answer := Some [("support_link", JStr "https://support")] |} in
  let app' := snd (fst (start nat nat o (init nat nat (JStr "https://invite")))) in
  fst (fst (start nat nat o (init nat nat (JStr "https://invite")))) = inr tt /\
  assoc_get (links nat nat app') "support_link" = Some (JStr "https://support") /\
  assoc_get (links nat nat app') "invite_link" = Some (JStr "https://invite").
Proof.
  intros o app'.
  destruct (start_all_or_error nat nat o (JStr "https://invite"))
    as (Hok & _ & _ & _ & _ & _ & _ & _ & Hlinks).
  assert (Hrun : fst (fst (start nat nat o (init nat nat (JStr "https://invite"))))
                 = inr tt).
  { apply Hok. exists 1%nat, 2%nat, [("support_link", JStr "https://support")].
    repeat split. }
  split; [exact Hrun|].
  assert (Hnd : NoDup (map fst [("support_link", JStr "https://support")])).
  { repeat constructor. intros Hin. now apply elem_of_nil in Hin. }
  split; rewrite (Hlinks _ _ Hrun eq_refl Hnd); reflexivity.
Defined.

(** The token is refreshed at 3700; the cached user is not touched. *)
Lemma get_token_confined_witness :
  let w := world0 [("token", token_A); ("user", user_record "7" 0)] in
  let env := env0 3700 (ok token_B) (inl TypeError) None in
  session (snd (get_token config0 env w)) !! "user" = Some (user_record "7" 0) /\
  count is_ipc_call (since w (snd (get_token config0 env w))) = O.
Proof.
  intros w env.
  destruct (get_token_confined (objects := spec_objects) config0 env w)
    as (_ & _ & _ & Hipc & Hframe).
  split; [|exact Hipc]. rewrite Hframe; [reflexivity|discriminate].
Defined.

(** The stale guild list is fetched again at 400; the login state of the
    session is not touched. *)
Lemma cache_layers_confined_witness :
  let w := world0 [("token", token_A); ("state", JStr "s");
                   ("guilds", JList [guild_record "1" 0])] in
  let env := env_stale [fresh_guild_record "1"] in
  session (snd (get_user_guilds config0 env w)) !! "state" = Some (JStr "s") /\
  session (snd (get_user config0 env w)) !! "guilds"
  = Some (JList [guild_record "1" 0]).
Proof.
  intros w env.
  destruct (cache_layers_confined (objects := spec_objects) (int := spec_int)
              config0 env w)
    as ((_ & _ & _ & Huser) & (_ & _ & Hguilds)).
  split.
  - rewrite Hguilds; [reflexivity|discriminate|discriminate].
  - rewrite Huser; [reflexivity|discriminate|discriminate].
Defined.

(** Three cached guilds: the bot is asked once; an empty session: never. *)
Lemma get_related_guilds_asks_once_witness :
  let env := env_fresh (Some [1; 3]) in
  count is_ipc_call
    (since three_guilds (snd (get_related_guilds config0 env 7 None three_guilds)))
  = 1%nat /\
  count is_ipc_call
    (since (world0 []) (snd (get_related_guilds config0 env 7 None (world0 []))))
  = O.
Proof.
  intros env.
  destruct (get_related_guilds_asks_once (objects := spec_objects) (int := spec_int)
              config0 env three_guilds 7 None) as (Hthree & _).
  destruct (get_related_guilds_asks_once (objects := spec_objects) (int := spec_int)
              config0 env (world0 []) 7 None) as (Hnone & _).
  split; [rewrite Hthree|rewrite Hnone]; reflexivity.
Defined.

(** A logged-in session starts a login with the state "s". *)
Lemma login_starts_over_witness :
  let env := env_fresh None in
  let format := fun j => match j with JStr s => s | _ => "" end in
  let w' := snd (login config0 (JStr "https://dashboard/callback") format "s" logged_in) in
  session w' = {["state" := JStr "s"]} /\
  servers config0 env links0 w' = (inr (HTTPFound "/login"), w').
Proof.
  intros env format w'.
  destruct (login_starts_over (objects := spec_objects)
              (user_object := spec_user_object) (int := spec_int)
              config0 env links0 (JStr "https://dashboard/callback") format
              logged_in "s")
    as (_ & _ & Hs & _ & _ & Hservers & _).
  split; assumption.
Defined.
